(** * AberLED: double-buffered LED matrix driver with debounced buttons

    A shallow embedding of [AberLED.cpp] (the AberLED shield library used by
    the Arduino Tetris game) and the properties of its frame store, buffer
    exchange, button debouncer, tick counter and text overlay.

    The target is the ATmega328p (the code programs [PORTD], [TCCR1A], ...
    directly): [int] is 16 bits wide, [byte] and [unsigned char] are 8 bits,
    [uint16_t] is 16 bits.  Integers are modelled as [Z] with the wrap-around
    written out where the code can reach it. *)

From Stdlib Require Import ZArith Lia List Bool.
From stdpp Require Import base option list.

Local Open Scope Z_scope.

(** ** Machine integers *)

(** Truncation to [uint16_t] / [byte], and the wrap-around of a 16-bit
    signed [int]. *)
Definition u16 (z : Z) : Z := z mod 2 ^ 16.
Definition u8 (z : Z) : Z := z mod 2 ^ 8.
Definition s16 (z : Z) : Z := (z + 2 ^ 15) mod 2 ^ 16 - 2 ^ 15.

(** ** Arrays

    A C array is a list; an access outside of it is undefined behaviour and
    yields [None] here.  Indices are C integers, so they may be negative. *)
Definition aget (a : list Z) (i : Z) : option Z :=
  if i <? 0 then None else a !! Z.to_nat i.

Definition aset (a : list Z) (i v : Z) : option (list Z) :=
  if (0 <=? i) && (i <? Z.of_nat (length a))
  then Some (<[Z.to_nat i := v]> a) else None.

(** ** The frame store *)

(** [backBuffer] and [frontBuffer] are pointers to one of the two static
    buffers; as uninitialised statics they are null until [begin] runs. *)
Inductive ptr : Set := Null | BufA | BufB.

Global Instance ptr_eq_dec : EqDecision ptr.
Proof. solve_decision. Defined.

Record frame_store : Set := FrameStore {
  bufferA : list Z;
  bufferB : list Z;
  backBuffer : ptr;
  frontBuffer : ptr
}.

(** The array a pointer refers to. *)
Definition deref (p : ptr) (f : frame_store) : option (list Z) :=
  match p with
  | Null => None
  | BufA => Some (bufferA f)
  | BufB => Some (bufferB f)
  end.

(** [*(p + i)] as an rvalue. *)
Definition load (p : ptr) (i : Z) (f : frame_store) : option Z :=
  a ← deref p f; aget a i.

(** [*(p + i) = v]. *)
Definition store (p : ptr) (i v : Z) (f : frame_store) : option frame_store :=
  match p with
  | Null => None
  | BufA => a ← aset (bufferA f) i v;
            Some (FrameStore a (bufferB f) (backBuffer f) (frontBuffer f))
  | BufB => b ← aset (bufferB f) i v;
            Some (FrameStore (bufferA f) b (backBuffer f) (frontBuffer f))
  end.

(** What [AberLEDClass::set] leaves in the row word [w] of an in-range
    pixel: [*p &= ~(3 << x); *p |= col << x;] with [x] doubled.  The
    arithmetic is done in [int]; the [uint16_t] keeps its low sixteen bits. *)
Definition set_row (x col w : Z) : Z :=
  u16 (Z.lor (u16 (Z.land w (Z.lnot (Z.shiftl 3 (x * 2)))))
             (Z.shiftl col (x * 2))).

(** A loop [for (i = ...; ...; i++) body] over the listed values of [i]. *)
Fixpoint for_each {A : Type} (body : Z → A → option A) (idx : list Z) (a : A)
  : option A :=
  match idx with
  | [] => Some a
  | i :: rest => a' ← body i a; for_each body rest a'
  end.

(** [memset(p, 0, 16)]: sixteen zero bytes, that is the eight row words. *)
Definition memset0 (p : ptr) (f : frame_store) : option frame_store :=
  for_each (fun i g => store p i 0 g) [0; 1; 2; 3; 4; 5; 6; 7] f.

(** The 2-bit field at bit pair [x] of a row word, as [refreshNextRow]
    decodes it: [(v >> (x*2)) & 3]. *)
Definition pixel (w x : Z) : Z := Z.land (Z.shiftr w (x * 2)) 3.

(** ** C strings

    A [char] buffer is a list of bytes; the string in it ends at the first
    zero byte.  A buffer with no zero byte has no length ([strlen] would run
    off its end). *)
Fixpoint strlen (a : list Z) : option nat :=
  match a with
  | [] => None
  | c :: rest => if c =? 0 then Some 0%nat else S <$> strlen rest
  end.

(** The characters of the string held in a buffer. *)
Definition cstring (a : list Z) : option (list Z) :=
  n ← strlen a; Some (take n a).

(** [strcat(dst, src)]: the characters of [src] and its terminator are
    written from the terminator of [dst] on; [None] when that does not fit
    the array [dst]. *)
Definition strcat (dst src : list Z) : option (list Z) :=
  n ← strlen dst;
  m ← strlen src;
  if (n + m + 1 <=? length dst)%nat
  then Some (take n dst ++ take m src ++ 0 :: drop (n + m + 1) dst)
  else None.

(** [strcpy(dst, src)]. *)
Definition strcpy (dst src : list Z) : option (list Z) :=
  m ← strlen src;
  if (m + 1 <=? length dst)%nat
  then Some (take m src ++ 0 :: drop (m + 1) dst)
  else None.

(** [snprintf(tmp, 16, "%d", n)] for a 16-bit [int]: at most five digits and
    a sign, so the sixteen bytes are never exceeded. *)
Fixpoint digits (fuel : nat) (n : Z) (acc : list Z) : list Z :=
  match fuel with
  | O => acc
  | S fuel' =>
      let acc' := (48 + n mod 10) :: acc in
      if n / 10 =? 0 then acc' else digits fuel' (n / 10) acc'
  end.

Definition print_int (n : Z) : list Z :=
  let txt := if n <? 0 then 45 :: digits 5 (- n) [] else digits 5 n [] in
  txt ++ replicate (16 - length txt) 0.

(** ** Constants of the header and of the implementation file *)

Definition BLACK : Z := 0.
Definition GREEN : Z := 1.
Definition RED : Z := 2.
Definition YELLOW : Z := 3.
Definition REV00 : Z := 0.
Definition REV01 : Z := 1.
Definition AF_LEDDISPLAY : Z := 1.
Definition AF_TFTDISPLAY : Z := 2.
Definition AF_NOINTERRUPT : Z := 4.
Definition MAXTEXTLEN : nat := 32.

(** ** The global state *)

Record key_codes : Set := KeyCodes {
  UP : Z; DOWN : Z; LEFT : Z; RIGHT : Z; FIRE : Z
}.

Record buttons : Set := Buttons {
  buttonStates : list Z;              (* set in swap() *)
  debouncedButtonStates : list Z;     (* set in interrupt *)
  buttonDebounceCounters : list Z;
  buttonWentDown : list Z;
  buttonWentDownInLastLoop : list Z;
  boardRev : Z;
  trueButtonStates : list Z;          (* static of the interrupt routine *)
  button : Z                          (* static of the interrupt routine *)
}.

Record state : Set := State {
  keys : key_codes;
  fs : frame_store;
  btn : buttons;
  ticks : Z;
  interruptRunning : bool;
  interruptTicks : Z;
  isTFT : bool;
  prevTxtBuffer : list Z;
  txtBuffer : list Z;
  refrow : Z
}.

Definition with_fs (f : frame_store) (s : state) : state :=
  State (keys s) f (btn s) (ticks s) (interruptRunning s) (interruptTicks s)
        (isTFT s) (prevTxtBuffer s) (txtBuffer s) (refrow s).

Definition with_btn (b : buttons) (s : state) : state :=
  State (keys s) (fs s) b (ticks s) (interruptRunning s) (interruptTicks s)
        (isTFT s) (prevTxtBuffer s) (txtBuffer s) (refrow s).

Definition with_ticks (t it : Z) (s : state) : state :=
  State (keys s) (fs s) (btn s) t (interruptRunning s) it
        (isTFT s) (prevTxtBuffer s) (txtBuffer s) (refrow s).

Definition with_txtBuffer (t : list Z) (s : state) : state :=
  State (keys s) (fs s) (btn s) (ticks s) (interruptRunning s)
        (interruptTicks s) (isTFT s) (prevTxtBuffer s) t (refrow s).

Definition with_prevTxtBuffer (t : list Z) (s : state) : state :=
  State (keys s) (fs s) (btn s) (ticks s) (interruptRunning s)
        (interruptTicks s) (isTFT s) t (txtBuffer s) (refrow s).

Definition with_refrow (r : Z) (s : state) : state :=
  State (keys s) (fs s) (btn s) (ticks s) (interruptRunning s)
        (interruptTicks s) (isTFT s) (prevTxtBuffer s) (txtBuffer s) r.

(** The statics as the program is loaded: zero-initialised unless the source
    gives an initialiser ([boardRev = -1]). *)
Definition power_on : state :=
  State (KeyCodes 0 0 0 0 0)
        (FrameStore (replicate 8 0) (replicate 8 0) Null Null)
        (Buttons (replicate 5 0) (replicate 5 0) (replicate 5 0)
                 (replicate 5 0) (replicate 5 0) (-1) (replicate 5 0) 0)
        0 false 0 false (replicate MAXTEXTLEN 0) (replicate MAXTEXTLEN 0) 0.

(** What the display hardware is handed.  [Scan p r w]: the refresh driver
    read row [r] of the buffer [p] points to, found the word [w] and sent
    it out (as column bits on the LED matrix, as eight filled cells on the
    TFT).  [Paint t]: the text region was repainted with [t]. *)
Inductive output : Set :=
  | Scan (p : ptr) (r w : Z)
  | Paint (t : list Z).

(** The column word shifted out on the LED matrix ("low = lit"). *)
Definition led_columns (w : Z) : Z := u16 (Z.lnot w).
(** The colour indices of the eight cells filled on the TFT. *)
Definition tft_cells (w : Z) : list Z := map (pixel w) [0; 1; 2; 3; 4; 5; 6; 7].

Module AberLED.

Definition setRevision (rev : Z) (s : state) : state :=
  let b := btn s in
  let b' := Buttons (buttonStates b) (debouncedButtonStates b)
              (buttonDebounceCounters b) (buttonWentDown b)
              (buttonWentDownInLastLoop b) rev (trueButtonStates b) (button b) in
  let k := if rev =? REV01 then KeyCodes 1 2 4 3 5 else KeyCodes 2 4 1 3 5 in
  State k (fs s) b' (ticks s) (interruptRunning s) (interruptTicks s)
        (isTFT s) (prevTxtBuffer s) (txtBuffer s) (refrow s).

Definition getTicks (s : state) : Z := ticks s.

(** [setupInterrupt]: the timer is programmed and [interruptRunning] set. *)
Definition setupInterrupt (s : state) : state :=
  State (keys s) (fs s) (btn s) (ticks s) true (interruptTicks s)
        (isTFT s) (prevTxtBuffer s) (txtBuffer s) (refrow s).

(** [begin(flags, colourMap)]; the pin set-up, the splash screen and the
    colour table of the TFT (all that [colourMap] is used for) have no
    effect on the state modelled here. *)
Definition begin (flags : Z) (s : state) : option state :=
  let s := setRevision REV01 s in
  let s := State (keys s) (fs s) (btn s) (ticks s) (interruptRunning s)
             (interruptTicks s) (negb (Z.land flags AF_TFTDISPLAY =? 0))
             (prevTxtBuffer s) (txtBuffer s) (refrow s) in
  let f := FrameStore (bufferA (fs s)) (bufferB (fs s)) BufA BufB in
  f ← memset0 (backBuffer f) f;
  f ← memset0 (frontBuffer f) f;
  t ← aset (txtBuffer s) 0 0;
  p ← aset (prevTxtBuffer s) 0 0;
  let s := with_prevTxtBuffer p (with_txtBuffer t (with_fs f s)) in
  Some (if Z.land flags AF_NOINTERRUPT =? 0 then setupInterrupt s else s).

(** [renderText]: repaint when the pending text differs from the text last
    rendered ([strcmp] is non-zero), and remember it. *)
Definition renderText (s : state) : option (state * list output) :=
  t ← cstring (txtBuffer s);
  p ← cstring (prevTxtBuffer s);
  if bool_decide (t = p) then Some (s, [])
  else
    p' ← strcpy (prevTxtBuffer s) (txtBuffer s);
    Some (with_prevTxtBuffer p' s, [Paint t]).

(** One turn of the loop in [swap]. *)
Definition swap_button (i : Z) (b : buttons) : option buttons :=
  wd ← aget (buttonWentDown b) i;
  l ← aset (buttonWentDownInLastLoop b) i wd;
  w ← aset (buttonWentDown b) i 0;
  d ← aget (debouncedButtonStates b) i;
  st ← aset (buttonStates b) i d;
  Some (Buttons st (debouncedButtonStates b) (buttonDebounceCounters b) w l
                (boardRev b) (trueButtonStates b) (button b)).

(** [swap] between [cli()] and [sei()]: the interrupt cannot fire in here. *)
Definition swap_critical (s : state) : option (state * list output) :=
  b ← for_each swap_button [0; 1; 2; 3; 4] (btn s);
  let s := with_btn b s in
  let s := with_ticks (interruptTicks s) 0 s in
  let f := fs s in
  let t := frontBuffer f in
  let s := with_fs (FrameStore (bufferA f) (bufferB f) t (backBuffer f)) s in
  if isTFT s then renderText s else Some (s, []).

Definition clearText (s : state) : option state :=
  if isTFT s then
    t ← aset (txtBuffer s) 0 0;
    Some (with_txtBuffer t s)
  else Some s.

Definition addToText (str : list Z) (s : state) : option state :=
  if isTFT s then
    n ← strlen (txtBuffer s);
    m ← strlen str;
    if (n + m + 1 <? MAXTEXTLEN)%nat then
      t ← strcat (txtBuffer s) str;
      Some (with_txtBuffer t s)
    else Some s
  else Some s.

Definition addToText_int (n : Z) (s : state) : option state :=
  addToText (print_int n) s.

(** [c] is an [unsigned char]; [c - 1] is computed in [int]. *)
Definition getButton (c : Z) (s : state) : option Z :=
  aget (buttonStates (btn s)) (c - 1).

Definition getButtonDown (c : Z) (s : state) : option Z :=
  aget (buttonWentDownInLastLoop (btn s)) (c - 1).

Definition getBuffer (s : state) : ptr := backBuffer (fs s).

Definition set (x y col : Z) (s : state) : option state :=
  if (x <? 8) && (y <? 8) && (x >=? 0) && (y >=? 0) then
    let f := fs s in
    let p := backBuffer f in
    let x := x * 2 in
    w ← load p y f;
    f1 ← store p y (u16 (Z.land w (Z.lnot (Z.shiftl 3 x)))) f;
    w1 ← load p y f1;
    f2 ← store p y (u16 (Z.lor w1 (Z.shiftl col x))) f1;
    Some (with_fs f2 s)
  else Some s.

Definition clear (s : state) : option state :=
  f ← memset0 (backBuffer (fs s)) (fs s);
  Some (with_fs f s).

(** [refreshNextRow]: both display branches read [frontBuffer[refrow]] and
    hand it to the display, then the cursor advances. *)
Definition refreshNextRow (s : state) : option (state * list output) :=
  let p := frontBuffer (fs s) in
  v ← load p (refrow s) (fs s);
  Some (with_refrow (Z.rem (refrow s + 1) 8) s, [Scan p (refrow s) v]).

(** [refresh]: the eight rows by hand, from row 0. *)
Definition refresh (s : state) : option (state * list output) :=
  for_each (fun _ '(s, out) =>
              '(s', o) ← refreshNextRow s; Some (s', out ++ o))
           [0; 1; 2; 3; 4; 5; 6; 7] (with_refrow 0 s, []).

(** The pin read for the current button: the [switch] on [button] under the
    board revision.  Outside 0..4 no case assigns [bstate]. *)
Definition read_pin (rev button PINC PINB : Z) : option Z :=
  if rev =? REV00 then
    match button with
    | 0 => Some (Z.land PINC 2)
    | 1 => Some (Z.land PINC 1)
    | 2 => Some (Z.land PINC 4)
    | 3 => Some (Z.land PINC 8)
    | 4 => Some (Z.land PINB 2)
    | _ => None
    end
  else
    match button with
    | 0 => Some (Z.land PINC 1)
    | 1 => Some (Z.land PINC 8)
    | 2 => Some (Z.land PINC 4)
    | 3 => Some (Z.land PINC 2)
    | 4 => Some (Z.land PINB 2)
    | _ => None
    end.

(** [bstate = bstate ? 0 : 1]: the pins are active-low. *)
Definition normalize (bstate : Z) : Z := if bstate =? 0 then 1 else 0.

(** The normalized sample the interrupt takes for the current button. *)
Definition sample (b : buttons) (PINC PINB : Z) : option Z :=
  normalize <$> read_pin (boardRev b) (button b) PINC PINB.

(** The debounce step of the interrupt routine for the current button. *)
Definition debounce (bstate : Z) (b : buttons) : option buttons :=
  let i := button b in
  t ← aget (trueButtonStates b) i;
  b1 ← (if negb (bstate =? t) then
          c ← aset (buttonDebounceCounters b) i 0;
          wd ← (if negb (bstate =? 0) then aset (buttonWentDown b) i 1
                else Some (buttonWentDown b));
          Some (Buttons (buttonStates b) (debouncedButtonStates b) c wd
                        (buttonWentDownInLastLoop b) (boardRev b)
                        (trueButtonStates b) (button b))
        else
          c0 ← aget (buttonDebounceCounters b) i;
          let c1 := u8 (c0 + 1) in
          c ← aset (buttonDebounceCounters b) i c1;
          if c1 =? 4 then
            c ← aset c i 0;
            d ← aset (debouncedButtonStates b) i bstate;
            Some (Buttons (buttonStates b) d c (buttonWentDown b)
                          (buttonWentDownInLastLoop b) (boardRev b)
                          (trueButtonStates b) (button b))
          else
            Some (Buttons (buttonStates b) (debouncedButtonStates b) c
                          (buttonWentDown b) (buttonWentDownInLastLoop b)
                          (boardRev b) (trueButtonStates b) (button b)));
  ts ← aset (trueButtonStates b1) i bstate;
  Some (Buttons (buttonStates b1) (debouncedButtonStates b1)
                (buttonDebounceCounters b1) (buttonWentDown b1)
                (buttonWentDownInLastLoop b1) (boardRev b1) ts
                (Z.rem (i + 1) 5)).

(** [ISR(TIMER1_COMPA_vect)], given what the input registers read. *)
Definition ISR (PINC PINB : Z) (s : state) : option (state * list output) :=
  let s := with_ticks (ticks s) (s16 (interruptTicks s + 1)) s in
  '(s, out) ← refreshNextRow s;
  bstate ← sample (btn s) PINC PINB;
  b ← debounce bstate (btn s);
  Some (with_btn b s, out).

End AberLED.

(** ** The two execution contexts

    The application calls the library from its main loop; the timer
    interrupt preempts it.  Every library call either does not share data
    with the interrupt routine or runs between [cli()] and [sei()], so a
    call is one step of the machine, except for the busy-wait at the end of
    [swap], during which the application sits at [SwapWait] and polls. *)

Inductive pc : Set := Idle | SwapWait.

Record machine : Set := Machine { st : state; app : pc }.

Inductive call : Set :=
  | CSet (x y col : Z)
  | CClear
  | CSwap
  | CClearText
  | CAddToText (str : list Z)
  | CAddToTextInt (n : Z)
  | CRefresh
  | CSetRevision (rev : Z).

Inductive event : Set :=
  | Call (c : call)            (* the application calls the library *)
  | Poll                       (* one test of [while (interruptTicks < 2)] *)
  | Tick (PINC PINB : Z).      (* the timer interrupt fires *)

(** The state change of a call.  For [swap] this is the part up to [sei()];
    [refresh] is documented for use with interrupts disabled only. *)
Definition do_call (c : call) (s : state) : option (state * list output) :=
  match c with
  | CSet x y col => s' ← AberLED.set x y col s; Some (s', [])
  | CClear => s' ← AberLED.clear s; Some (s', [])
  | CSwap => AberLED.swap_critical s
  | CClearText => s' ← AberLED.clearText s; Some (s', [])
  | CAddToText str => s' ← AberLED.addToText str s; Some (s', [])
  | CAddToTextInt n => s' ← AberLED.addToText_int n s; Some (s', [])
  | CRefresh => if interruptRunning s then None else AberLED.refresh s
  | CSetRevision rev => Some (AberLED.setRevision rev s, [])
  end.

(** Where the application is after the call: [swap] goes on to
    [if (interruptRunning) while (interruptTicks < 2) {}]. *)
Definition after_call (c : call) (s : state) : pc :=
  match c with
  | CSwap => if interruptRunning s then SwapWait else Idle
  | _ => Idle
  end.

(** One step; [None] when the event cannot happen in [m] (a call while the
    application is still inside [swap], a timer interrupt that was never set
    up) or the code would leave defined behaviour. *)
Definition step (e : event) (m : machine) : option (machine * list output) :=
  match e, app m with
  | Call c, Idle =>
      '(s, out) ← do_call c (st m);
      Some (Machine s (after_call c s), out)
  | Poll, SwapWait =>
      Some (Machine (st m)
              (if interruptTicks (st m) <? 2 then SwapWait else Idle), [])
  | Tick PINC PINB, a =>
      if interruptRunning (st m) then
        '(s, out) ← AberLED.ISR PINC PINB (st m);
        Some (Machine s a, out)
      else None
  | _, _ => None
  end.

Fixpoint run (evs : list event) (m : machine) : option (machine * list output) :=
  match evs with
  | [] => Some (m, [])
  | e :: rest =>
      '(m1, o1) ← step e m;
      '(m2, o2) ← run rest m1;
      Some (m2, o1 ++ o2)
  end.

(** The machine once [begin(flags)] has returned. *)
Definition boot (flags : Z) : option machine :=
  s ← AberLED.begin flags power_on; Some (Machine s Idle).

Definition reachable (m : machine) : Prop :=
  ∃ flags m0 evs out, boot flags = Some m0 ∧ run evs m0 = Some (m, out).

(** ** Vocabulary of the statements *)

Definition is_swap (e : event) : bool :=
  match e with Call CSwap => true | _ => false end.

Definition is_tick (e : event) : bool :=
  match e with Tick _ _ => true | _ => false end.

(** No call of [swap] among the events. *)
Definition no_swap (evs : list event) : bool :=
  forallb (fun e => negb (is_swap e)) evs.

(** The number of times the interrupt fires. *)
Definition count_ticks (evs : list event) : nat :=
  length (filter (fun e => is_tick e = true) evs).

(** The calls of [set] and [clear]. *)
Definition is_draw (c : call) : bool :=
  match c with CSet _ _ _ | CClear => true | _ => false end.

(** The rows scanned, with the buffer each was read from. *)
Definition scanned (out : list output) : list (ptr * Z) :=
  omap (fun o => match o with
                 | Scan p r _ => Some (p, r)
                 | Paint _ => None
                 end) out.

(** The back buffer's row [y], read through [getBuffer()]. *)
Definition back_row (y : Z) (s : state) : option Z :=
  load (AberLED.getBuffer s) y (fs s).

(** The rows of the visible buffer. *)
Definition visible (s : state) : option (list Z) :=
  deref (frontBuffer (fs s)) (fs s).

(** ** The invariant of the running system *)

Definition wf_fs (f : frame_store) : Prop :=
  length (bufferA f) = 8%nat ∧ length (bufferB f) = 8%nat ∧
  ((backBuffer f = BufA ∧ frontBuffer f = BufB) ∨
   (backBuffer f = BufB ∧ frontBuffer f = BufA)).

Definition wf_btn (b : buttons) : Prop :=
  length (buttonStates b) = 5%nat ∧
  length (debouncedButtonStates b) = 5%nat ∧
  length (buttonDebounceCounters b) = 5%nat ∧
  length (buttonWentDown b) = 5%nat ∧
  length (buttonWentDownInLastLoop b) = 5%nat ∧
  length (trueButtonStates b) = 5%nat ∧
  0 <= button b < 5.

Definition wf_text (a : list Z) : Prop :=
  length a = MAXTEXTLEN ∧ ∃ n, strlen a = Some n.

Definition wf (s : state) : Prop :=
  wf_fs (fs s) ∧ wf_btn (btn s) ∧
  wf_text (txtBuffer s) ∧ wf_text (prevTxtBuffer s) ∧
  0 <= refrow s < 8.

(** ** One button channel

    The four cells of channel [ch] that the interrupt routine works on, and
    what one sampling of the channel does to them (the body of the routine
    read for a single index). *)
Record channel : Set := Channel {
  ch_true : Z; ch_counter : Z; ch_debounced : Z; ch_wentDown : Z
}.

Definition channel_of (b : buttons) (ch : Z) : option channel :=
  t ← aget (trueButtonStates b) ch;
  c ← aget (buttonDebounceCounters b) ch;
  d ← aget (debouncedButtonStates b) ch;
  w ← aget (buttonWentDown b) ch;
  Some (Channel t c d w).

Definition channel_step (bstate : Z) (c : channel) : channel :=
  if negb (bstate =? ch_true c) then
    Channel bstate 0 (ch_debounced c)
            (if negb (bstate =? 0) then 1 else ch_wentDown c)
  else
    let c1 := u8 (ch_counter c + 1) in
    if c1 =? 4 then Channel bstate 0 bstate (ch_wentDown c)
    else Channel bstate c1 (ch_debounced c) (ch_wentDown c).

(** ** Observing one channel along a run *)

(** The event is a firing of the interrupt that samples channel [ch]. *)
Definition samples_channel (ch : Z) (e : event) (m : machine) : bool :=
  is_tick e && (button (btn (st m)) =? ch).

(** The normalized sample a firing takes. *)
Definition tick_sample (e : event) (m : machine) : option Z :=
  match e with
  | Tick PINC PINB => AberLED.sample (btn (st m)) PINC PINB
  | _ => None
  end.

(** How often channel [ch] is sampled while [evs] runs from [m]. *)
Fixpoint samplings (ch : Z) (evs : list event) (m : machine) : nat :=
  match evs with
  | [] => 0%nat
  | e :: rest =>
      match step e m with
      | Some (m', _) =>
          ((if samples_channel ch e m then 1 else 0) + samplings ch rest m')%nat
      | None => 0%nat
      end
  end.

(** Every sampling of channel [ch] during the run reads the sample [v]. *)
Fixpoint holds (ch v : Z) (evs : list event) (m : machine) : bool :=
  match evs with
  | [] => true
  | e :: rest =>
      match step e m with
      | Some (m', _) =>
          (if samples_channel ch e m
           then bool_decide (tick_sample e m = Some v) else true)
          && holds ch v rest m'
      | None => true
      end
  end.

(** The committed state of channel [ch]. *)
Definition debounced (ch : Z) (m : machine) : option Z :=
  aget (debouncedButtonStates (btn (st m))) ch.

(** How often the committed state of channel [ch] changes during the run. *)
Fixpoint changes (ch : Z) (evs : list event) (m : machine) : nat :=
  match evs with
  | [] => 0%nat
  | e :: rest =>
      match step e m with
      | Some (m', _) =>
          ((if bool_decide (debounced ch m' = debounced ch m) then 0 else 1)
           + changes ch rest m')%nat
      | None => 0%nat
      end
  end.

(** ** Two machines to try things on *)

(** After [begin(AF_LEDDISPLAY)]: LED matrix, interrupt running. *)
Definition led0 : machine :=
  Eval vm_compute in default (Machine power_on Idle) (boot AF_LEDDISPLAY).

(** After [begin(AF_TFTDISPLAY | AF_NOINTERRUPT)]: TFT, no interrupt. *)
Definition tft0 : machine :=
  Eval vm_compute in
    default (Machine power_on Idle) (boot (AF_TFTDISPLAY + AF_NOINTERRUPT)).

(** The LED machine after a bounce on button S1: the first interrupt read
    the pin low (pressed), four more interrupts sampled the other buttons;
    the press has not been committed. *)
Definition bounced : machine :=
  Eval vm_compute in
    default led0
      (fst <$> run [Tick 0 0; Tick 255 255; Tick 255 255; Tick 255 255;
                    Tick 255 255] led0).

(** ... and after the next interrupt has sampled S1 as released again. *)
Definition released : machine :=
  Eval vm_compute in default bounced (fst <$> step (Tick 255 255) bounced).

(** The TFT machine with the pending text "Hi" ... *)
Definition hello : machine :=
  Eval vm_compute in
    default tft0 (fst <$> step (Call (CAddToText [72; 105; 0])) tft0).

(** ... and after [swap] has painted it. *)
Definition shown : machine :=
  Eval vm_compute in default hello (fst <$> step (Call CSwap) hello).

(** ** More vocabulary *)

(** The word a scan hands to the display is row [r] of [rows]. *)
Definition scan_ok (rows : list Z) (o : output) : Prop :=
  match o with
  | Scan _ r w => aget rows r = Some w
  | Paint _ => True
  end.

(** The interrupt fires once for each reading [(PINC, PINB)] of the pins. *)
Definition ticks_of (pins : list (Z * Z)) : list event :=
  map (fun '(c, b) => Tick c b) pins.

(** The texts painted. *)
Definition painted (out : list output) : list (list Z) :=
  omap (fun o => match o with
                 | Paint t => Some t
                 | Scan _ _ _ => None
                 end) out.

(** A call that writes the pending text. *)
Definition is_text (e : event) : bool :=
  match e with
  | Call CClearText | Call (CAddToText _) | Call (CAddToTextInt _) => true
  | _ => false
  end.

(** ** Values the button cells can hold *)

Definition is_bit (v : Z) : Prop := v = 0 ∨ v = 1.

Definition channel_ok (c : channel) : Prop :=
  is_bit (ch_true c) ∧ 0 <= ch_counter c <= 3 ∧
  is_bit (ch_debounced c) ∧ is_bit (ch_wentDown c).

Definition btn_ok (b : buttons) : Prop :=
  (∀ ch c, channel_of b ch = Some c → channel_ok c) ∧
  Forall is_bit (buttonStates b) ∧
  Forall is_bit (buttonWentDownInLastLoop b).

(** ** The shift registers of the LED board

    [PORTD] drives two shift registers: bit 2 is the data line of the row
    register, bit 3 its latch and bit 4 its clock; bit 5 is the data line of
    the column registers, bit 6 their clock and bit 7 their latch.  The
    refresh code does nothing to the port but [PORTD |= mask] and
    [PORTD &= ~mask], so a piece of it is the list of these updates in
    program order. *)

(** [PORTD |= mask] and [PORTD &= ~mask]: computed in [int], stored in the
    8-bit register. *)
Definition port_on (mask p : Z) : Z := u8 (Z.lor p mask).
Definition port_off (mask p : Z) : Z := u8 (Z.land p (Z.lnot mask)).

(** The values the port takes when the updates are done from the value
    [p], and the value it is left with. *)
Fixpoint play (ops : list (Z → Z)) (p : Z) : list Z :=
  match ops with
  | [] => []
  | f :: rest => f p :: play rest (f p)
  end.

Definition final (ops : list (Z → Z)) (p : Z) : Z :=
  fold_left (fun q f => f q) ops p.

Module Port.

(** One turn of the loop of [fastShiftOutRows] and [fastShiftOutCols], which
    differ in the data line, the clock line and the number of bits only.
    The test [n & (1 << i)] is on bit [i] of [n], also for [i = 15] where
    [1 << i] is the sign bit of the 16-bit [int]. *)
Definition shift_bit (data clock n i : Z) : list (Z → Z) :=
  [ port_off (Z.shiftl 1 clock);
    if negb (Z.land n (Z.shiftl 1 i) =? 0)
    then port_on (Z.shiftl 1 data) else port_off (Z.shiftl 1 data);
    port_on (Z.shiftl 1 clock);
    port_off (Z.shiftl 1 data) ].

Definition fastShiftOutRows (n : Z) : list (Z → Z) :=
  [port_off (Z.shiftl 1 2)] ++
  flat_map (shift_bit 2 4 n) [7; 6; 5; 4; 3; 2; 1; 0] ++
  [port_off (Z.shiftl 1 4)].

Definition fastShiftOutCols (n : Z) : list (Z → Z) :=
  [port_off (Z.shiftl 1 5)] ++
  flat_map (shift_bit 5 6 n)
    [15; 14; 13; 12; 11; 10; 9; 8; 7; 6; 5; 4; 3; 2; 1; 0] ++
  [port_off (Z.shiftl 1 6)].

(** The branch of [refreshNextRow] for the LED board, for the row [refrow]
    and the word [w] found in [frontBuffer[refrow]]. *)
Definition refreshNextRow (refrow w : Z) : list (Z → Z) :=
  (if refrow =? 0 then [port_on (Z.shiftl 1 2)] else []) ++
  [ port_off (Z.lor (Z.shiftl 1 3) (Z.shiftl 1 7));
    port_on (Z.shiftl 1 4);
    port_off (Z.shiftl 1 4);
    port_off (Z.shiftl 1 2) ] ++
  fastShiftOutCols (u16 (Z.lnot w)) ++
  [ port_on (Z.lor (Z.shiftl 1 3) (Z.shiftl 1 7)) ].

(** What the LED board's port is given for the rows the driver scans. *)
Definition scans (out : list output) : list (Z → Z) :=
  flat_map (fun o => match o with
                     | Scan _ r w => refreshNextRow r w
                     | Paint _ => []
                     end) out.

(** [refresh] on the LED board: the rows scanned, then (after a delay loop
    that does not touch the port) all columns are switched off. *)
Definition refresh (out : list output) : list (Z → Z) :=
  scans out ++
  [port_off (Z.lor (Z.shiftl 1 3) (Z.shiftl 1 7))] ++
  fastShiftOutCols 65535 ++
  [port_on (Z.lor (Z.shiftl 1 3) (Z.shiftl 1 7))].

End Port.

(** The words handed to the display, in the order of the scans. *)
Definition words (out : list output) : list Z :=
  omap (fun o => match o with
                 | Scan _ _ w => Some w
                 | Paint _ => None
                 end) out.

(** A shift register takes in the level of its data line at every rising
    edge of its clock line.  [rising clock prev trace]: the port values at
    which the line [clock] rises in [trace], [prev] being the value before
    the first of them. *)
Fixpoint rising (clock prev : Z) (trace : list Z) : list Z :=
  match trace with
  | [] => []
  | v :: rest =>
      if negb (Z.testbit prev clock) && Z.testbit v clock
      then v :: rising clock v rest
      else rising clock v rest
  end.

(** The bits clocked into the register on the lines [data] and [clock]. *)
Definition clocked (data clock prev : Z) (trace : list Z) : list bool :=
  map (fun v => Z.testbit v data) (rising clock prev trace).

(** The bits of [n], from bit [width - 1] down to bit 0. *)
Definition msb_first (width : nat) (n : Z) : list bool :=
  map (fun i => Z.testbit n (Z.of_nat i)) (rev (seq 0 width)).

(** ** The TFT board *)

(** A call [tft.fillRect(x, y, w, h, colour)]. *)
Record rect : Set := Rect { rx : Z; ry : Z; rw : Z; rh : Z; rcol : Z }.

Module TFT.

(** The colour [begin] makes of three bytes of the colour map: 5 bits of
    red, 6 of green, 5 of blue, in [uint16_t]. *)
Definition rgb565 (r g b : Z) : Z :=
  let r := u16 (Z.land (Z.shiftr r 3) 31) in
  let r := u16 (Z.shiftl r 11) in
  let g := u16 (Z.land (Z.shiftr g 2) 63) in
  let g := u16 (Z.shiftl g 5) in
  let b := u16 (Z.land (Z.shiftr b 3) 31) in
  Z.lor (Z.lor r g) b.

(** The loop of [begin] over a colour map that is not null: turn [i] reads
    the next three bytes through [*colourMap++] and writes [cols[i]]. *)
Definition colour_map (colourMap cols : list Z) : option (list Z) :=
  for_each (fun i cols =>
              r ← aget colourMap (3 * i);
              g ← aget colourMap (3 * i + 1);
              b ← aget colourMap (3 * i + 2);
              aset cols i (rgb565 r g b))
           [0; 1; 2; 3] cols.

(** The branch of [refreshNextRow] for the TFT: the eight squares filled for
    the row [refrow] and the word [v] found in [frontBuffer[refrow]]. *)
Definition refreshNextRow (cols : list Z) (refrow v : Z) : option (list rect) :=
  mapM (fun x =>
          c ← aget cols (pixel v x);
          Some (Rect (16 * x + 2) (16 * refrow + 2) 12 12 c))
       [0; 1; 2; 3; 4; 5; 6; 7].

End TFT.

(** * Properties *)

(** ** Arrays *)

Lemma aget_Some (a : list Z) i v :
  aget a i = Some v ↔ 0 <= i ∧ a !! Z.to_nat i = Some v.
Proof.
  unfold aget. destruct (Z.ltb_spec i 0); split.
  - discriminate.
  - intros [? _]; lia.
  - auto.
  - tauto.
Qed.

Lemma aget_in_range (a : list Z) i :
  0 <= i < Z.of_nat (length a) → is_Some (aget a i).
Proof.
  intros Hi. unfold aget. destruct (Z.ltb_spec i 0); [lia|].
  apply lookup_lt_is_Some. lia.
Qed.

Lemma aget_out_of_range (a : list Z) i :
  i < 0 ∨ Z.of_nat (length a) <= i → aget a i = None.
Proof.
  intros Hi. unfold aget. destruct (Z.ltb_spec i 0); [done|].
  apply lookup_ge_None. lia.
Qed.

Lemma aset_Some (a : list Z) i v a' :
  aset a i v = Some a' ↔
  0 <= i < Z.of_nat (length a) ∧ a' = <[Z.to_nat i := v]> a.
Proof.
  unfold aset.
  destruct (Z.leb_spec 0 i), (Z.ltb_spec i (Z.of_nat (length a))); simpl;
    split; try discriminate; try (intros [? _]; lia).
  - intros [= <-]. auto.
  - intros [_ ->]. done.
Qed.

Lemma aset_in_range (a : list Z) i v :
  0 <= i < Z.of_nat (length a) → aset a i v = Some (<[Z.to_nat i := v]> a).
Proof. intros. apply aset_Some. auto. Qed.

Lemma aset_length (a : list Z) i v a' :
  aset a i v = Some a' → length a' = length a.
Proof. intros [_ ->]%aset_Some. apply length_insert. Qed.

Lemma aget_aset (a : list Z) i j v a' :
  aset a i v = Some a' → 0 <= j →
  aget a' j = if decide (i = j) then Some v else aget a j.
Proof.
  intros [Hi ->]%aset_Some Hj. unfold aget.
  destruct (Z.ltb_spec j 0); [lia|]. case_decide as Hij.
  - subst j. apply list_lookup_insert_eq. lia.
  - apply list_lookup_insert_ne. lia.
Qed.

(** ** Bits of a row word *)

Lemma testbit_3 k : Z.testbit 3 k = (k =? 0) || (k =? 1).
Proof. destruct k as [|[[]|[]|]|]; reflexivity. Qed.

Lemma testbit_small (n k i : Z) :
  0 <= n < 2 ^ k → 0 <= k <= i → Z.testbit n i = false.
Proof.
  intros Hn Hk. rewrite <- (Z.mod_small n (2 ^ k)) by assumption.
  apply Z.mod_pow2_bits_high. lia.
Qed.

(** Bit [i] of the row word after [set]: the old bit unless it lies in the
    pixel's pair, or-ed with the colour's bit [i - 2x]. *)
Lemma set_row_testbit x col w i :
  0 <= x → 0 <= i < 16 →
  Z.testbit (set_row x col w) i =
  (Z.testbit w i && negb ((i =? x * 2) || (i =? x * 2 + 1)))
  || Z.testbit col (i - x * 2).
Proof.
  intros Hx Hi. unfold set_row, u16.
  rewrite Z.mod_pow2_bits_low, Z.lor_spec by lia.
  rewrite Z.mod_pow2_bits_low, Z.land_spec by lia.
  rewrite Z.lnot_spec, !Z.shiftl_spec, testbit_3 by lia.
  do 2 f_equal. f_equal.
  destruct (Z.eqb_spec (i - x * 2) 0), (Z.eqb_spec i (x * 2)),
    (Z.eqb_spec (i - x * 2) 1), (Z.eqb_spec i (x * 2 + 1)); simpl; lia.
Qed.

Lemma pixel_testbit w x n :
  0 <= x → 0 <= n →
  Z.testbit (pixel w x) n = Z.testbit w (n + x * 2) && ((n =? 0) || (n =? 1)).
Proof.
  intros Hx Hn. unfold pixel.
  by rewrite Z.land_spec, Z.shiftr_spec, testbit_3 by lia.
Qed.

(** Reading the pixel just written gives the colour back, for a 2-bit
    colour. *)
Lemma pixel_set_row_eq x col w :
  0 <= x < 8 → 0 <= col < 4 → pixel (set_row x col w) x = col.
Proof.
  intros Hx Hc. apply Z.bits_inj'. intros n Hn.
  rewrite pixel_testbit by lia.
  destruct (Z.eqb_spec n 0) as [E0|N0]; [|destruct (Z.eqb_spec n 1) as [E1|N1]];
    simpl; rewrite ?andb_true_r, ?andb_false_r.
  - rewrite set_row_testbit by lia.
    replace (n + x * 2 =? x * 2) with true by lia.
    simpl. rewrite andb_false_r. simpl. f_equal. lia.
  - rewrite set_row_testbit by lia.
    replace (n + x * 2 =? x * 2 + 1) with true by lia.
    rewrite orb_true_r. simpl. rewrite andb_false_r. simpl. f_equal. lia.
  - symmetry. apply (testbit_small col 2); lia.
Qed.

(** The other pixels of the row keep their value, for a 2-bit colour. *)
Lemma pixel_set_row_ne x x' col w :
  0 <= x < 8 → 0 <= x' < 8 → x' ≠ x → 0 <= col < 4 →
  pixel (set_row x col w) x' = pixel w x'.
Proof.
  intros Hx Hx' Hne Hc. apply Z.bits_inj'. intros n Hn.
  rewrite !pixel_testbit by lia.
  destruct ((n =? 0) || (n =? 1)) eqn:E; rewrite ?andb_false_r; [|done].
  rewrite !andb_true_r.
  assert (n = 0 ∨ n = 1) as Hn01.
  { apply orb_true_iff in E as [E|E]; apply Z.eqb_eq in E; auto. }
  rewrite set_row_testbit by lia.
  replace (n + x' * 2 =? x * 2) with false by lia.
  replace (n + x' * 2 =? x * 2 + 1) with false by lia.
  simpl; rewrite andb_true_r.
  destruct (Z.lt_ge_cases x' x);
    [ rewrite (Z.testbit_neg_r col) by lia
    | rewrite (testbit_small col 2) by lia ];
    apply orb_false_r.
Qed.
(** ** The frame store *)

Lemma store_Some p i v f f' :
  store p i v f = Some f' →
  backBuffer f' = backBuffer f ∧ frontBuffer f' = frontBuffer f ∧
  length (bufferA f') = length (bufferA f) ∧
  length (bufferB f') = length (bufferB f) ∧
  (∀ q, q ≠ p → deref q f' = deref q f) ∧
  (∀ j, 0 <= j → load p j f' = if decide (i = j) then Some v else load p j f).
Proof.
  destruct p; simpl; [discriminate| |].
  all: destruct (aset _ i v) as [a|] eqn:E; simpl; [|discriminate].
  all: intros [= <-]; simpl.
  all: pose proof (aset_length _ _ _ _ E).
  all: repeat split; try done.
  all: try (intros [] ?; done).
  all: intros j Hj; unfold load; simpl; by apply aget_aset.
Qed.

Lemma store_in_range p i v f :
  wf_fs f → p ≠ Null → 0 <= i < 8 → is_Some (store p i v f).
Proof.
  intros (LA & LB & _) Hp Hi. destruct p; [done| |]; simpl.
  all: rewrite aset_in_range by lia; simpl; eauto.
Qed.

Lemma store_wf p i v f f' : store p i v f = Some f' → wf_fs f → wf_fs f'.
Proof.
  intros (Hb & Hf & LA & LB & _)%store_Some (? & ? & ?).
  unfold wf_fs. rewrite Hb, Hf, LA, LB. auto.
Qed.

Lemma store_store p i v v' f f1 :
  store p i v f = Some f1 → store p i v' f1 = store p i v' f.
Proof.
  destruct p; simpl; [discriminate| |].
  all: destruct (aset _ i v) as [a|] eqn:E; simpl; [|discriminate].
  all: intros [= <-]; simpl.
  all: apply aset_Some in E as [Hi ->].
  all: rewrite !aset_in_range by (rewrite ?length_insert; lia); simpl.
  all: by rewrite list_insert_insert_eq.
Qed.

Lemma wf_fs_back f : wf_fs f → backBuffer f ≠ Null.
Proof. intros (_ & _ & [[-> _]|[-> _]]); done. Qed.

Lemma wf_fs_front f : wf_fs f → frontBuffer f ≠ Null.
Proof. intros (_ & _ & [[_ ->]|[_ ->]]); done. Qed.

Lemma wf_fs_distinct f : wf_fs f → backBuffer f ≠ frontBuffer f.
Proof. intros (_ & _ & [[-> ->]|[-> ->]]); done. Qed.

Lemma load_in_range p i f :
  wf_fs f → p ≠ Null → 0 <= i < 8 → is_Some (load p i f).
Proof.
  intros (LA & LB & _) Hp Hi. destruct p; [done| |]; unfold load; simpl.
  all: apply aget_in_range; lia.
Qed.

(** [set] on an in-range pixel rewrites the one row word with [set_row]. *)
Lemma set_in_range x y col s :
  wf_fs (fs s) → 0 <= x < 8 → 0 <= y < 8 →
  ∃ w f', back_row y s = Some w ∧
          store (backBuffer (fs s)) y (set_row x col w) (fs s) = Some f' ∧
          AberLED.set x y col s = Some (with_fs f' s).
Proof.
  intros Hwf Hx Hy. unfold AberLED.set, back_row, AberLED.getBuffer.
  replace ((x <? 8) && (y <? 8) && (x >=? 0) && (y >=? 0)) with true
    by (symmetry; rewrite !andb_true_iff; lia).
  pose proof (wf_fs_back _ Hwf) as Hp.
  destruct (load_in_range _ y _ Hwf Hp Hy) as [w Hw].
  rewrite Hw. simpl.
  destruct (store_in_range (backBuffer (fs s)) y
              (u16 (Z.land w (Z.lnot (Z.shiftl 3 (x * 2))))) _ Hwf Hp Hy)
    as [f1 Hf1].
  rewrite Hf1. simpl.
  pose proof (store_Some _ _ _ _ _ Hf1) as (_ & _ & _ & _ & _ & Hl).
  rewrite Hl by lia. rewrite decide_True by done. simpl.
  rewrite (store_store _ _ _ _ _ _ Hf1).
  destruct (store_in_range (backBuffer (fs s)) y (set_row x col w) _ Hwf Hp Hy)
    as [f2 Hf2].
  exists w, f2. unfold set_row in *. rewrite Hf2. done.
Qed.

Lemma set_out_of_range x y col s :
  ¬ (0 <= x < 8 ∧ 0 <= y < 8) → AberLED.set x y col s = Some s.
Proof.
  intros H. unfold AberLED.set.
  replace ((x <? 8) && (y <? 8) && (x >=? 0) && (y >=? 0)) with false; [done|].
  symmetry. rewrite !andb_false_iff. lia.
Qed.
(** ** Fixed-size arrays *)

Lemma length_5 (l : list Z) :
  length l = 5%nat → ∃ a b c d e, l = [a; b; c; d; e].
Proof.
  do 6 (destruct l as [|? l]; try discriminate). eauto 6.
Qed.

Lemma length_8 (l : list Z) :
  length l = 8%nat → ∃ a b c d e f g h, l = [a; b; c; d; e; f; g; h].
Proof.
  do 9 (destruct l as [|? l]; try discriminate). eauto 9.
Qed.

Lemma index_5 i : 0 <= i < 5 → i = 0 ∨ i = 1 ∨ i = 2 ∨ i = 3 ∨ i = 4.
Proof. lia. Qed.

Ltac split_array5 H :=
  let a := fresh "a" in let b := fresh "b" in let c := fresh "c" in
  let d := fresh "d" in let e := fresh "e" in
  apply length_5 in H as (a & b & c & d & e & ->).

Ltac split_index5 H :=
  apply index_5 in H as [->|[->|[->|[->| ->]]]].

(** ** The debounce step, channel by channel *)

Lemma aget_insert (a : list Z) i j v :
  0 <= i < Z.of_nat (length a) → 0 <= j →
  aget (<[Z.to_nat i := v]> a) j = if decide (j = i) then Some v else aget a j.
Proof.
  intros Hi Hj.
  rewrite (aget_aset a i j v _ (aset_in_range a i v Hi) Hj).
  repeat case_decide; congruence.
Qed.

Ltac asets :=
  repeat (rewrite aset_in_range by (rewrite ?length_insert; lia); simpl).

Lemma rem_succ_range i n : 0 <= i → 0 < n → 0 <= Z.rem (i + 1) n < n.
Proof. intros. rewrite Z.rem_mod_nonneg by lia. apply Z.mod_pos_bound. lia. Qed.

Lemma debounce_channel v b :
  wf_btn b →
  ∃ b', AberLED.debounce v b = Some b' ∧ wf_btn b' ∧
        button b' = (button b + 1) mod 5 ∧
        buttonStates b' = buttonStates b ∧
        buttonWentDownInLastLoop b' = buttonWentDownInLastLoop b ∧
        boardRev b' = boardRev b ∧
        ∀ ch, 0 <= ch < 5 →
          channel_of b' ch =
          if decide (ch = button b) then channel_step v <$> channel_of b ch
          else channel_of b ch.
Proof.
  intros (L1 & L2 & L3 & L4 & L5 & L6 & Hi).
  destruct (aget_in_range (trueButtonStates b) (button b)) as [t Ht]; [lia|].
  destruct (aget_in_range (buttonDebounceCounters b) (button b)) as [c Hc];
    [lia|].
  destruct (aget_in_range (debouncedButtonStates b) (button b)) as [d Hd];
    [lia|].
  destruct (aget_in_range (buttonWentDown b) (button b)) as [w Hw]; [lia|].
  pose proof (rem_succ_range (button b) 5) as Hr.
  unfold AberLED.debounce. rewrite Ht. simpl.
  destruct (v =? t) eqn:E1; simpl;
    [ rewrite Hc; simpl; asets; destruct (u8 (c + 1) =? 4) eqn:E3
    | asets; destruct (v =? 0) eqn:E2 ]; simpl; asets.
  all: eexists; split; [reflexivity|]; simpl.
  all: split; [unfold wf_btn; simpl; rewrite !length_insert; lia|].
  all: split; [apply Z.rem_mod_nonneg; lia|]; do 3 (split; [done|]).
  all: intros ch Hch; unfold channel_of; simpl.
  all: rewrite !aget_insert by (rewrite ?length_insert; lia).
  all: case_decide as Hd'; [subst ch|done].
  all: rewrite Ht, Hc, Hd, Hw; simpl; unfold channel_step; simpl.
  all: by rewrite E1, ?E2, ?E3.
Qed.
(** ** The copy loop of [swap] *)

Lemma swap_buttons_spec b :
  wf_btn b →
  for_each AberLED.swap_button [0; 1; 2; 3; 4] b =
  Some (Buttons (debouncedButtonStates b) (debouncedButtonStates b)
          (buttonDebounceCounters b) (replicate 5 0) (buttonWentDown b)
          (boardRev b) (trueButtonStates b) (button b)).
Proof.
  intros (L1 & L2 & L3 & L4 & L5 & L6 & Hi).
  destruct b as [bs ds cs wd wl rev ts i]. simpl in *.
  split_array5 L1. split_array5 L2. split_array5 L4. split_array5 L5.
  reflexivity.
Qed.

(** ** [memset] of a buffer *)

Lemma memset0_spec p f :
  wf_fs f → p ≠ Null →
  ∃ f', memset0 p f = Some f' ∧ wf_fs f' ∧
        backBuffer f' = backBuffer f ∧ frontBuffer f' = frontBuffer f ∧
        deref p f' = Some (replicate 8 0) ∧
        ∀ q, q ≠ p → deref q f' = deref q f.
Proof.
  intros (LA & LB & Hp) Hn. destruct f as [A B bk fr]. simpl in *.
  destruct (length_8 _ LA) as (a0 & a1 & a2 & a3 & a4 & a5 & a6 & a7 & ->).
  destruct (length_8 _ LB) as (b0 & b1 & b2 & b3 & b4 & b5 & b6 & b7 & ->).
  destruct p; [done| |].
  - exists (FrameStore (replicate 8 0) [b0; b1; b2; b3; b4; b5; b6; b7] bk fr).
    split; [vm_compute; reflexivity|].
    split; [by repeat split|]. do 3 (split; [reflexivity|]).
    intros []; done.
  - exists (FrameStore [a0; a1; a2; a3; a4; a5; a6; a7] (replicate 8 0) bk fr).
    split; [vm_compute; reflexivity|].
    split; [by repeat split|]. do 3 (split; [reflexivity|]).
    intros []; done.
Qed.

(** ** C strings *)

Lemma strlen_Some a n :
  strlen a = Some n →
  (n < length a)%nat ∧ a !! n = Some 0 ∧ Forall (λ c, c ≠ 0) (take n a).
Proof.
  revert n. induction a as [|c a IH]; intros n; simpl; [discriminate|].
  destruct (Z.eqb_spec c 0) as [->|Hc].
  - intros [= <-]. simpl. repeat split; [lia|constructor].
  - destruct (strlen a) as [k|]; simpl; [|discriminate].
    intros [= <-]. destruct (IH k eq_refl) as (? & ? & ?).
    simpl. repeat split; [lia|done|]. by constructor.
Qed.

Lemma strlen_app (l r : list Z) :
  Forall (λ c, c ≠ 0) l → strlen (l ++ 0 :: r) = Some (length l).
Proof.
  induction 1 as [|c l Hc _ IH]; simpl; [done|].
  destruct (Z.eqb_spec c 0); [done|]. by rewrite IH.
Qed.

Lemma cstring_app (l r : list Z) :
  Forall (λ c, c ≠ 0) l → cstring (l ++ 0 :: r) = Some l.
Proof.
  intros H. unfold cstring. rewrite strlen_app by done. simpl.
  by rewrite take_app_length.
Qed.

(** [strcat] under the guard of [addToText]. *)
Lemma strcat_spec dst src n m :
  strlen dst = Some n → strlen src = Some m →
  (n + m + 1 <= length dst)%nat →
  ∃ r, strcat dst src = Some r ∧ length r = length dst ∧
       strlen r = Some (n + m)%nat ∧
       cstring r = Some (take n dst ++ take m src).
Proof.
  intros Hn Hm Hle. unfold strcat. rewrite Hn, Hm. simpl.
  destruct (Nat.leb_spec (n + m + 1) (length dst)); [|lia].
  eexists. split; [reflexivity|].
  destruct (strlen_Some _ _ Hn) as (? & _ & Fn).
  destruct (strlen_Some _ _ Hm) as (? & _ & Fm).
  assert (Forall (λ c, c ≠ 0) (take n dst ++ take m src)) as F
    by (by apply Forall_app).
  rewrite (app_assoc (take n dst)).
  split; [|split].
  - rewrite !length_app, !length_take_le, length_cons, length_drop by lia. lia.
  - rewrite strlen_app by done.
    rewrite length_app, !length_take_le by lia. done.
  - by apply cstring_app.
Qed.

Lemma strcpy_spec dst src m :
  strlen src = Some m → (m + 1 <= length dst)%nat →
  ∃ r, strcpy dst src = Some r ∧ length r = length dst ∧
       strlen r = Some m ∧ cstring r = Some (take m src).
Proof.
  intros Hm Hle. unfold strcpy. rewrite Hm. simpl.
  destruct (Nat.leb_spec (m + 1) (length dst)); [|lia].
  eexists. split; [reflexivity|].
  destruct (strlen_Some _ _ Hm) as (? & _ & Fm).
  split; [|split].
  - rewrite !length_app, !length_take_le, length_cons, length_drop by lia. lia.
  - rewrite strlen_app by done. by rewrite length_take_le by lia.
  - by apply cstring_app.
Qed.

Lemma clear_first_wf a :
  wf_text a → ∃ r, aset a 0 0 = Some r ∧ wf_text r ∧ strlen r = Some 0%nat.
Proof.
  intros [L _]. destruct a as [|c a]; [done|].
  eexists. split; [reflexivity|]. repeat split; [done|by exists 0%nat].
Qed.
(** ** The library calls keep the invariant *)

Lemma set_wf x y col s s' : wf s → AberLED.set x y col s = Some s' → wf s'.
Proof.
  intros Hwf Hs.
  destruct (decide (0 <= x < 8 ∧ 0 <= y < 8)) as [[Hx Hy]|Hn].
  - destruct Hwf as (Hf & Hrest).
    destruct (set_in_range x y col s Hf Hx Hy) as (w & f' & _ & Hst & Hset).
    rewrite Hset in Hs. injection Hs as <-.
    split; [|exact Hrest]. simpl. by eapply store_wf.
  - rewrite set_out_of_range in Hs by done. by injection Hs as <-.
Qed.

Lemma clear_spec s :
  wf s →
  ∃ f', AberLED.clear s = Some (with_fs f' s) ∧ wf (with_fs f' s) ∧
        backBuffer f' = backBuffer (fs s) ∧
        frontBuffer f' = frontBuffer (fs s) ∧
        deref (backBuffer (fs s)) f' = Some (replicate 8 0) ∧
        deref (frontBuffer (fs s)) f' = deref (frontBuffer (fs s)) (fs s).
Proof.
  intros (Hf & Hrest).
  destruct (memset0_spec _ _ Hf (wf_fs_back _ Hf))
    as (f' & Hm & Hwf & Hb & Hfr & Hz & Hother).
  exists f'. unfold AberLED.clear. rewrite Hm. simpl.
  split; [done|]. split; [by split|]. do 3 (split; [done|]).
  apply Hother. intros E. by apply (wf_fs_distinct _ Hf).
Qed.

Lemma sample_total b PINC PINB :
  wf_btn b → ∃ v, AberLED.sample b PINC PINB = Some v ∧ (v = 0 ∨ v = 1).
Proof.
  intros (_ & _ & _ & _ & _ & _ & Hi). unfold AberLED.sample, AberLED.read_pin.
  split_index5 Hi; destruct (boardRev b =? REV00); simpl.
  all: eexists; (split; [reflexivity|]).
  all: unfold AberLED.normalize; destruct (_ =? 0); auto.
Qed.

Lemma refreshNextRow_spec s :
  wf s →
  ∃ v, load (frontBuffer (fs s)) (refrow s) (fs s) = Some v ∧
       AberLED.refreshNextRow s =
       Some (with_refrow ((refrow s + 1) mod 8) s,
             [Scan (frontBuffer (fs s)) (refrow s) v]).
Proof.
  intros (Hf & _ & _ & _ & Hr).
  destruct (load_in_range _ (refrow s) _ Hf (wf_fs_front _ Hf) Hr) as [v Hv].
  exists v. split; [done|]. unfold AberLED.refreshNextRow. rewrite Hv. simpl.
  by rewrite Z.rem_mod_nonneg by lia.
Qed.

Lemma with_refrow_wf r s : wf s → 0 <= r < 8 → wf (with_refrow r s).
Proof. intros (? & ? & ? & ? & _) ?. unfold wf. simpl. tauto. Qed.

(** The interrupt routine always runs to its end: it counts the tick, scans
    one row of the visible buffer and debounces one button. *)
Lemma ISR_spec PINC PINB s :
  wf s →
  ∃ s' v smp,
    AberLED.ISR PINC PINB s =
      Some (s', [Scan (frontBuffer (fs s)) (refrow s) v]) ∧
    wf s' ∧ fs s' = fs s ∧ keys s' = keys s ∧
    interruptTicks s' = s16 (interruptTicks s + 1) ∧ ticks s' = ticks s ∧
    interruptRunning s' = interruptRunning s ∧ isTFT s' = isTFT s ∧
    txtBuffer s' = txtBuffer s ∧ prevTxtBuffer s' = prevTxtBuffer s ∧
    refrow s' = (refrow s + 1) mod 8 ∧
    AberLED.sample (btn s) PINC PINB = Some smp ∧ (smp = 0 ∨ smp = 1) ∧
    AberLED.debounce smp (btn s) = Some (btn s').
Proof.
  intros Hwf. pose proof Hwf as (Hf & Hb & Ht & Hp & Hr).
  set (s1 := with_ticks (ticks s) (s16 (interruptTicks s + 1)) s).
  assert (wf s1) as Hwf1 by done.
  destruct (refreshNextRow_spec s1 Hwf1) as (v & _ & Hrow).
  destruct (sample_total (btn s) PINC PINB Hb) as (smp & Hsmp & Hbool).
  destruct (debounce_channel smp (btn s) Hb) as (b' & Hdb & Hb' & _).
  unfold AberLED.ISR. fold s1. rewrite Hrow. simpl.
  rewrite Hsmp. simpl. rewrite Hdb. simpl.
  eexists _, v, smp. split; [reflexivity|]. unfold wf. simpl.
  pose proof (Z.mod_pos_bound (refrow s + 1) 8).
  split_and!; auto; lia.
Qed.

Lemma renderText_spec s :
  wf s →
  ∃ p out, AberLED.renderText s = Some (with_prevTxtBuffer p s, out) ∧
           wf (with_prevTxtBuffer p s) ∧ scanned out = [].
Proof.
  intros Hwf. pose proof Hwf as (Hf & Hb & [Lt [n Hn]] & [Lp [k Hk]] & Hr).
  unfold AberLED.renderText, cstring. rewrite Hn, Hk. simpl.
  case_bool_decide.
  - exists (prevTxtBuffer s), []. by destruct s.
  - destruct (strlen_Some _ _ Hn) as (Hlt & _).
    destruct (strcpy_spec (prevTxtBuffer s) (txtBuffer s) n Hn)
      as (r & Hr' & Lr & Sr & _); [lia|].
    rewrite Hr'. simpl. eexists _, _. split; [reflexivity|].
    split; [|done]. unfold wf. simpl. split_and!; try done; try lia.
    all: split; [congruence|eauto].
Qed.

(** The critical section of [swap] always runs to its end, and this is all
    it changes. *)
Lemma swap_critical_spec s :
  wf s →
  ∃ s' out,
    AberLED.swap_critical s = Some (s', out) ∧ wf s' ∧ scanned out = [] ∧
    btn s' = Buttons (debouncedButtonStates (btn s))
               (debouncedButtonStates (btn s))
               (buttonDebounceCounters (btn s)) (replicate 5 0)
               (buttonWentDown (btn s)) (boardRev (btn s))
               (trueButtonStates (btn s)) (button (btn s)) ∧
    ticks s' = interruptTicks s ∧ interruptTicks s' = 0 ∧
    fs s' = FrameStore (bufferA (fs s)) (bufferB (fs s))
              (frontBuffer (fs s)) (backBuffer (fs s)) ∧
    interruptRunning s' = interruptRunning s ∧ isTFT s' = isTFT s ∧
    txtBuffer s' = txtBuffer s ∧ refrow s' = refrow s ∧ keys s' = keys s.
Proof.
  intros Hwf. pose proof Hwf as (Hf & Hb & Ht & Hp & Hr).
  unfold AberLED.swap_critical. rewrite (swap_buttons_spec _ Hb). simpl.
  match goal with |- context [if _ then AberLED.renderText ?s1 else _] =>
    set (s2 := s1) end.
  assert (wf s2) as Hwf2.
  { unfold wf, wf_fs, wf_btn. simpl.
    destruct Hf as (? & ? & Hptr), Hb as (? & ? & ? & ? & ? & ? & ?).
    split_and!; auto; try lia. tauto. }
  destruct (isTFT s) eqn:E.
  - destruct (renderText_spec s2 Hwf2) as (p & out & Hrt & Hwf' & Hout).
    rewrite Hrt. eexists _, _. split; [reflexivity|]. by split_and!.
  - eexists _, _. split; [reflexivity|]. by split_and!.
Qed.

Lemma clearText_spec s :
  wf s →
  ∃ t, AberLED.clearText s = Some (with_txtBuffer t s) ∧
       wf (with_txtBuffer t s).
Proof.
  intros Hwf. pose proof Hwf as (Hf & Hb & Ht & Hp & Hr).
  unfold AberLED.clearText. destruct (isTFT s).
  - destruct (clear_first_wf _ Ht) as (r & Hr' & Hwr & _). rewrite Hr'.
    exists r. split; [done|]. unfold wf. simpl. tauto.
  - exists (txtBuffer s). by destruct s.
Qed.

Lemma addToText_wf str s s' :
  wf s → AberLED.addToText str s = Some s' →
  ∃ t, s' = with_txtBuffer t s ∧ wf s'.
Proof.
  intros Hwf. pose proof Hwf as (Hf & Hb & [Lt [n Hn]] & Hp & Hr).
  unfold AberLED.addToText. destruct (isTFT s).
  2: { intros [= <-]. exists (txtBuffer s). by destruct s. }
  rewrite Hn. simpl. destruct (strlen str) as [m|] eqn:Hm; [|done]. simpl.
  destruct (Nat.ltb_spec (n + m + 1) MAXTEXTLEN).
  2: { intros [= <-]. exists (txtBuffer s). by destruct s. }
  destruct (strcat_spec _ _ n m Hn Hm) as (r & Hr' & Lr & Sr & _); [lia|].
  rewrite Hr'. simpl. intros [= <-]. exists r. split; [done|].
  unfold wf. simpl. split_and!; try done; try lia.
  all: split; [congruence|eauto].
Qed.

Lemma refresh_spec s :
  wf s →
  ∃ out, AberLED.refresh s = Some (with_refrow 0 s, out) ∧
         Forall (λ sc, sc.1 = frontBuffer (fs s)) (scanned out).
Proof.
  intros Hwf. unfold AberLED.refresh.
  assert (∀ r r', 0 <= r < 8 → r' = (r + 1) mod 8 →
            ∃ v, AberLED.refreshNextRow (with_refrow r s) =
                 Some (with_refrow r' s, [Scan (frontBuffer (fs s)) r v]))
    as Hrow.
  { intros r r' Hr ->.
    destruct (refreshNextRow_spec (with_refrow r s)) as (v & _ & Hv);
      [by apply with_refrow_wf|].
    exists v. exact Hv. }
  cbn [for_each].
  destruct (Hrow 0 1) as [v0 ->]; [lia|done|]; cbn [mbind option_bind].
  destruct (Hrow 1 2) as [v1 ->]; [lia|done|]; cbn [mbind option_bind].
  destruct (Hrow 2 3) as [v2 ->]; [lia|done|]; cbn [mbind option_bind].
  destruct (Hrow 3 4) as [v3 ->]; [lia|done|]; cbn [mbind option_bind].
  destruct (Hrow 4 5) as [v4 ->]; [lia|done|]; cbn [mbind option_bind].
  destruct (Hrow 5 6) as [v5 ->]; [lia|done|]; cbn [mbind option_bind].
  destruct (Hrow 6 7) as [v6 ->]; [lia|done|]; cbn [mbind option_bind].
  destruct (Hrow 7 0) as [v7 ->]; [lia|done|]; cbn [mbind option_bind].
  eexists. split; [reflexivity|]. simpl. repeat constructor.
Qed.
(** ** Steps of the machine *)

Lemma begin_power_on flags :
  AberLED.begin flags power_on =
  Some (State (KeyCodes 1 2 4 3 5)
          (FrameStore (replicate 8 0) (replicate 8 0) BufA BufB)
          (Buttons (replicate 5 0) (replicate 5 0) (replicate 5 0)
                   (replicate 5 0) (replicate 5 0) REV01 (replicate 5 0) 0)
          0 (Z.land flags AF_NOINTERRUPT =? 0) 0
          (negb (Z.land flags AF_TFTDISPLAY =? 0))
          (replicate MAXTEXTLEN 0) (replicate MAXTEXTLEN 0) 0).
Proof.
  unfold AberLED.begin.
  generalize (negb (Z.land flags AF_TFTDISPLAY =? 0)).
  generalize (Z.land flags AF_NOINTERRUPT =? 0).
  intros [] []; vm_compute; reflexivity.
Qed.

Lemma begin_spec flags :
  ∃ s, AberLED.begin flags power_on = Some s ∧ wf s ∧
       backBuffer (fs s) = BufA ∧ frontBuffer (fs s) = BufB ∧
       interruptRunning s = (Z.land flags AF_NOINTERRUPT =? 0) ∧
       isTFT s = negb (Z.land flags AF_TFTDISPLAY =? 0) ∧
       btn s = Buttons (replicate 5 0) (replicate 5 0) (replicate 5 0)
                 (replicate 5 0) (replicate 5 0) REV01 (replicate 5 0) 0 ∧
       ticks s = 0 ∧ interruptTicks s = 0 ∧ refrow s = 0 ∧
       cstring (txtBuffer s) = Some [].
Proof.
  eexists. split; [apply begin_power_on|].
  unfold wf, wf_fs, wf_btn, wf_text. simpl.
  split_and!; try done; auto; by exists 0%nat.
Qed.

Lemma boot_spec flags :
  ∃ m, boot flags = Some m ∧ wf (st m) ∧ app m = Idle ∧
       interruptRunning (st m) = (Z.land flags AF_NOINTERRUPT =? 0) ∧
       isTFT (st m) = negb (Z.land flags AF_TFTDISPLAY =? 0).
Proof.
  destruct (begin_spec flags) as (s & Hs & Hwf & _ & _ & Hi & Ht & _).
  unfold boot. rewrite Hs. simpl. eauto 6.
Qed.

(** What a call other than [swap] leaves alone. *)
Lemma do_call_frame c s s' out :
  wf s → c ≠ CSwap → do_call c s = Some (s', out) →
  wf s' ∧
  backBuffer (fs s') = backBuffer (fs s) ∧
  frontBuffer (fs s') = frontBuffer (fs s) ∧
  visible s' = visible s ∧
  buttonStates (btn s') = buttonStates (btn s) ∧
  debouncedButtonStates (btn s') = debouncedButtonStates (btn s) ∧
  buttonDebounceCounters (btn s') = buttonDebounceCounters (btn s) ∧
  buttonWentDown (btn s') = buttonWentDown (btn s) ∧
  buttonWentDownInLastLoop (btn s') = buttonWentDownInLastLoop (btn s) ∧
  trueButtonStates (btn s') = trueButtonStates (btn s) ∧
  button (btn s') = button (btn s) ∧
  ticks s' = ticks s ∧ interruptTicks s' = interruptTicks s ∧
  interruptRunning s' = interruptRunning s ∧ isTFT s' = isTFT s ∧
  Forall (λ sc, sc.1 = frontBuffer (fs s)) (scanned out) ∧
  (interruptRunning s = true → scanned out = [] ∧ refrow s' = refrow s).
Proof.
  intros Hwf Hc. destruct c; simpl; try done.
  - (* set *)
    destruct (AberLED.set x y col s) as [s1|] eqn:E; simpl; [|done].
    intros [= <- <-]. pose proof (set_wf _ _ _ _ _ Hwf E) as Hwf'.
    destruct (decide (0 <= x < 8 ∧ 0 <= y < 8)) as [[Hx Hy]|Hn].
    + destruct Hwf as (Hf & _).
      destruct (set_in_range x y col s Hf Hx Hy) as (w & f' & _ & Hst & Hset).
      rewrite Hset in E. injection E as <-.
      destruct (store_Some _ _ _ _ _ Hst) as (Hb & Hfr & _ & _ & Hq & _).
      unfold visible. simpl. rewrite Hfr.
      split_and!; try done.
      apply Hq. intros E. by apply (wf_fs_distinct _ Hf).
    + rewrite set_out_of_range in E by done. injection E as <-.
      by split_and!.
  - (* clear *)
    destruct (clear_spec s Hwf) as (f' & -> & Hwf' & Hb & Hfr & _ & Hv).
    simpl. intros [= <- <-]. unfold visible. simpl. rewrite Hfr.
    by split_and!.
  - (* clearText *)
    destruct (clearText_spec s Hwf) as (t & -> & Hwf'). simpl.
    intros [= <- <-]. by split_and!.
  - (* addToText *)
    destruct (AberLED.addToText str s) as [s1|] eqn:E; simpl; [|done].
    intros [= <- <-].
    destruct (addToText_wf _ _ _ Hwf E) as (t & -> & Hwf').
    by split_and!.
  - (* addToText, of a number *)
    unfold AberLED.addToText_int.
    destruct (AberLED.addToText (print_int n) s) as [s1|] eqn:E; simpl;
      [|done].
    intros [= <- <-].
    destruct (addToText_wf _ _ _ Hwf E) as (t & -> & Hwf').
    by split_and!.
  - (* refresh *)
    destruct (interruptRunning s) eqn:Hi; [done|].
    destruct (refresh_spec s Hwf) as (o & -> & Ho). intros [= <- <-].
    split_and!; try done. apply with_refrow_wf; [done|lia].
  - (* setRevision *)
    intros [= <- <-]. split_and!; try done.
Qed.
Lemma channel_of_Some b ch c :
  channel_of b ch = Some c ↔
  aget (trueButtonStates b) ch = Some (ch_true c) ∧
  aget (buttonDebounceCounters b) ch = Some (ch_counter c) ∧
  aget (debouncedButtonStates b) ch = Some (ch_debounced c) ∧
  aget (buttonWentDown b) ch = Some (ch_wentDown c).
Proof.
  unfold channel_of.
  destruct (aget (trueButtonStates b) ch), (aget (buttonDebounceCounters b) ch),
    (aget (debouncedButtonStates b) ch), (aget (buttonWentDown b) ch); simpl;
    split; try discriminate; try (intros (? & ? & ? & ?); discriminate).
  - intros [= <-]. done.
  - destruct c. simpl. intros ([= ->] & [= ->] & [= ->] & [= ->]). done.
Qed.

Lemma channel_of_total b ch :
  wf_btn b → 0 <= ch < 5 → is_Some (channel_of b ch).
Proof.
  intros (L1 & L2 & L3 & L4 & L5 & L6 & Hi) Hch. unfold channel_of.
  destruct (aget_in_range (trueButtonStates b) ch) as [? ->]; [lia|].
  destruct (aget_in_range (buttonDebounceCounters b) ch) as [? ->]; [lia|].
  destruct (aget_in_range (debouncedButtonStates b) ch) as [? ->]; [lia|].
  destruct (aget_in_range (buttonWentDown b) ch) as [? ->]; [lia|].
  simpl. eauto.
Qed.

Lemma aget_Some_range (a : list Z) i v :
  aget a i = Some v → 0 <= i < Z.of_nat (length a).
Proof.
  intros [Hi Hl]%aget_Some. apply lookup_lt_Some in Hl. lia.
Qed.

Lemma channel_step_wentDown v c :
  ch_wentDown c = 1 → ch_wentDown (channel_step v c) = 1.
Proof.
  intros H. unfold channel_step.
  destruct (negb (v =? ch_true c)); simpl.
  - by destruct (negb (v =? 0)).
  - by destruct (u8 (ch_counter c + 1) =? 4).
Qed.

(** The three ways a step can be taken. *)
Lemma step_inv e m m' out :
  step e m = Some (m', out) →
  (∃ c, e = Call c ∧ app m = Idle ∧ do_call c (st m) = Some (st m', out) ∧
        app m' = after_call c (st m')) ∨
  (e = Poll ∧ app m = SwapWait ∧ st m' = st m ∧ out = [] ∧
   app m' = if interruptTicks (st m) <? 2 then SwapWait else Idle) ∨
  (∃ PINC PINB, e = Tick PINC PINB ∧ interruptRunning (st m) = true ∧
        AberLED.ISR PINC PINB (st m) = Some (st m', out) ∧ app m' = app m).
Proof.
  unfold step. destruct e as [c| |p q], (app m) eqn:Ha; try done.
  - destruct (do_call c (st m)) as [[s o]|] eqn:E; simpl; [|done].
    intros [= <- <-]. left. exists c. by repeat split.
  - intros [= <- <-]. right. left. by repeat split.
  - destruct (interruptRunning (st m)) eqn:Hi; [|done].
    destruct (AberLED.ISR p q (st m)) as [[s o]|] eqn:E; simpl; [|done].
    intros [= <- <-]. right. right. exists p, q. by repeat split.
  - destruct (interruptRunning (st m)) eqn:Hi; [|done].
    destruct (AberLED.ISR p q (st m)) as [[s o]|] eqn:E; simpl; [|done].
    intros [= <- <-]. right. right. exists p, q. by repeat split.
Qed.

Lemma step_wf e m m' out : wf (st m) → step e m = Some (m', out) → wf (st m').
Proof.
  intros Hwf
    [(c & -> & _ & Hc & _)
    |[(-> & _ & -> & _)|(p & q & -> & _ & Hi & _)]]%step_inv;
    [|done|].
  - assert (c = CSwap ∨ c ≠ CSwap) as [->|Hn]
      by (destruct c; auto; right; done).
    + destruct (swap_critical_spec _ Hwf) as (s' & o & Hs & Hwf' & _).
      simpl in Hc. rewrite Hs in Hc. by injection Hc as <- <-.
    + by destruct (do_call_frame _ _ _ _ Hwf Hn Hc).
  - destruct (ISR_spec p q _ Hwf) as (s' & v & smp & Hs & Hwf' & _).
    rewrite Hs in Hi. by injection Hi as <- <-.
Qed.

Lemma run_wf evs m m' out :
  wf (st m) → run evs m = Some (m', out) → wf (st m').
Proof.
  revert m out. induction evs as [|e evs IH]; intros m out Hwf; simpl.
  - by intros [= <- <-].
  - destruct (step e m) as [[m1 o1]|] eqn:E; simpl; [|done].
    destruct (run evs m1) as [[m2 o2]|] eqn:E2; simpl; [|done].
    intros [= <- <-]. eapply IH; [|done]. by eapply step_wf.
Qed.

Lemma reachable_wf m : reachable m → wf (st m).
Proof.
  intros (flags & m0 & evs & out & Hb & Hr).
  destruct (boot_spec flags) as (m0' & Hb' & Hwf & _).
  rewrite Hb in Hb'. injection Hb' as <-. by eapply run_wf.
Qed.

Lemma run_app evs1 evs2 m :
  run (evs1 ++ evs2) m =
  '(m1, o1) ← run evs1 m; '(m2, o2) ← run evs2 m1; Some (m2, o1 ++ o2).
Proof.
  revert m. induction evs1 as [|e evs1 IH]; intros m; simpl.
  - destruct (run evs2 m) as [[m2 o2]|]; done.
  - destruct (step e m) as [[m1 o1]|]; simpl; [|done].
    rewrite IH. destruct (run evs1 m1) as [[m2 o2]|]; simpl; [|done].
    destruct (run evs2 m2) as [[m3 o3]|]; simpl; [|done].
    by rewrite app_assoc.
Qed.

Lemma reachable_run evs m m' out :
  reachable m → run evs m = Some (m', out) → reachable m'.
Proof.
  intros (flags & m0 & evs0 & out0 & Hb & Hr) Hrun.
  exists flags, m0, (evs0 ++ evs), (out0 ++ out). split; [done|].
  rewrite run_app, Hr. simpl. by rewrite Hrun.
Qed.

Lemma reachable_step e m m' out :
  reachable m → step e m = Some (m', out) → reachable m'.
Proof.
  intros Hm Hs. apply (reachable_run [e] m m' (out ++ [])); [done|].
  simpl. by rewrite Hs.
Qed.

Lemma scanned_app o1 o2 : scanned (o1 ++ o2) = scanned o1 ++ scanned o2.
Proof. unfold scanned. apply omap_app. Qed.

(** What a step other than a call of [swap] leaves alone. *)
Lemma step_frame e m m' out :
  wf (st m) → is_swap e = false → step e m = Some (m', out) →
  backBuffer (fs (st m')) = backBuffer (fs (st m)) ∧
  frontBuffer (fs (st m')) = frontBuffer (fs (st m)) ∧
  visible (st m') = visible (st m) ∧
  buttonStates (btn (st m')) = buttonStates (btn (st m)) ∧
  buttonWentDownInLastLoop (btn (st m')) =
    buttonWentDownInLastLoop (btn (st m)) ∧
  ticks (st m') = ticks (st m) ∧
  interruptRunning (st m') = interruptRunning (st m) ∧
  interruptTicks (st m') =
    (if is_tick e then s16 (interruptTicks (st m) + 1)
     else interruptTicks (st m)) ∧
  (∀ ch, aget (buttonWentDown (btn (st m))) ch = Some 1 →
         aget (buttonWentDown (btn (st m'))) ch = Some 1) ∧
  Forall (λ sc, sc.1 = frontBuffer (fs (st m))) (scanned out) ∧
  (interruptRunning (st m) = true →
   length (scanned out) = (if is_tick e then 1 else 0)%nat ∧
   refrow (st m') =
     if is_tick e then (refrow (st m) + 1) mod 8 else refrow (st m)).
Proof.
  intros Hwf Hns
    [(c & -> & _ & Hc & _)
    |[(-> & _ & -> & -> & _)|(p & q & -> & _ & Hi & _)]]%step_inv.
  - assert (c ≠ CSwap) as Hn by (intros ->; done).
    destruct (do_call_frame _ _ _ _ Hwf Hn Hc)
      as (_ & ? & ? & ? & ? & _ & _ & Hwd & ? & _ & _ & ? & ? & ? & _ & ? & Hr).
    simpl. rewrite Hwd. split_and!; try done.
    intros Hir. by destruct (Hr Hir) as [-> ->].
  - simpl. split_and!; try done.
  - destruct (ISR_spec p q _ Hwf)
      as (s' & v & smp & Hs & Hwf' & Hf & _ & Hit & Ht & Hir & _ & _ & _ & Hrow
          & _ & _ & Hdb).
    rewrite Hs in Hi. injection Hi as <- <-.
    destruct Hwf as (_ & Hb & _).
    destruct (debounce_channel smp _ Hb)
      as (b' & Hdb' & _ & _ & Hbs & Hwl & _ & Hch).
    rewrite Hdb in Hdb'. injection Hdb' as <-.
    unfold visible. rewrite Hf. simpl. split_and!; try done.
    + intros ch Hwd.
      assert (0 <= ch < 5) as Hr.
      { apply aget_Some_range in Hwd. destruct Hb as (_ & _ & _ & L & _).
        rewrite L in Hwd. lia. }
      destruct (channel_of_total _ ch Hb Hr) as [c Hc].
      pose proof (proj1 (channel_of_Some _ _ _) Hc) as (_ & _ & _ & Hw).
      rewrite Hwd in Hw. injection Hw as Hw.
      specialize (Hch ch Hr). rewrite Hc in Hch.
      assert (∃ c', channel_of (btn s') ch = Some c' ∧ ch_wentDown c' = 1)
        as (c' & Hc' & Hw').
      { case_decide; simpl in Hch; eexists; (split; [exact Hch|]); [|done].
        by apply channel_step_wentDown. }
      apply channel_of_Some in Hc' as (_ & _ & _ & Hc'). by rewrite Hc', Hw'.
    + repeat constructor.
Qed.
(** ** Runs without a call of [swap] *)

Lemma run_cons e evs m :
  run (e :: evs) m =
  '(m1, o1) ← step e m; '(m2, o2) ← run evs m1; Some (m2, o1 ++ o2).
Proof. done. Qed.

Lemma count_ticks_cons e evs :
  count_ticks (e :: evs) =
  ((if is_tick e then 1 else 0) + count_ticks evs)%nat.
Proof.
  unfold count_ticks. rewrite filter_cons.
  destruct (is_tick e); by case_decide.
Qed.

Lemma run_frame evs m m' out :
  wf (st m) → no_swap evs = true → run evs m = Some (m', out) →
  backBuffer (fs (st m')) = backBuffer (fs (st m)) ∧
  frontBuffer (fs (st m')) = frontBuffer (fs (st m)) ∧
  visible (st m') = visible (st m) ∧
  buttonStates (btn (st m')) = buttonStates (btn (st m)) ∧
  buttonWentDownInLastLoop (btn (st m')) =
    buttonWentDownInLastLoop (btn (st m)) ∧
  ticks (st m') = ticks (st m) ∧
  interruptRunning (st m') = interruptRunning (st m) ∧
  interruptTicks (st m') =
    Nat.iter (count_ticks evs) (λ t, s16 (t + 1)) (interruptTicks (st m)) ∧
  (∀ ch, aget (buttonWentDown (btn (st m))) ch = Some 1 →
         aget (buttonWentDown (btn (st m'))) ch = Some 1) ∧
  Forall (λ sc, sc.1 = frontBuffer (fs (st m))) (scanned out) ∧
  (interruptRunning (st m) = true →
   length (scanned out) = count_ticks evs ∧
   refrow (st m') = (refrow (st m) + Z.of_nat (count_ticks evs)) mod 8).
Proof.
  revert m out. induction evs as [|e evs IH]; intros m out Hwf Hns.
  - simpl. intros [= <- <-]. split_and!; try done.
    intros _. split; [done|].
    rewrite Z.add_0_r, Z.mod_small; [done|apply Hwf].
  - rewrite run_cons. simpl in Hns. apply andb_true_iff in Hns as [He Hns].
    apply negb_true_iff in He.
    destruct (step e m) as [[m1 o1]|] eqn:E; simpl; [|done].
    destruct (run evs m1) as [[m2 o2]|] eqn:E2; simpl; [|done].
    intros [= <- <-].
    pose proof (step_wf _ _ _ _ Hwf E) as Hwf1.
    destruct (step_frame _ _ _ _ Hwf He E)
      as (Hb & Hf & Hv & Hbs & Hwl & Ht & Hir & Hit & Hwd & Hsc & Hrun).
    destruct (IH _ _ Hwf1 Hns E2)
      as (Hb' & Hf' & Hv' & Hbs' & Hwl' & Ht' & Hir' & Hit' & Hwd' & Hsc'
          & Hrun').
    rewrite count_ticks_cons.
    split_and!; try congruence.
    + rewrite Hit', Hit. destruct (is_tick e); [|done].
      exact (eq_sym (Nat.iter_succ_r (count_ticks evs) (λ t, s16 (t + 1))
                       (interruptTicks (st m)))).
    + auto.
    + rewrite scanned_app. apply Forall_app. split; [done|].
      by rewrite <- Hf.
    + intros Hrn. rewrite Hir in Hrun'.
      destruct (Hrun Hrn) as [Hl Hr], (Hrun' Hrn) as [Hl' Hr'].
      rewrite scanned_app, length_app, Hl, Hl', Hr', Hr.
      destruct (is_tick e); simpl; split; try done.
      rewrite Zplus_mod_idemp_l. f_equal. lia.
Qed.

Lemma s16_small z : - 2 ^ 15 <= z < 2 ^ 15 → s16 z = z.
Proof. intros H. unfold s16. rewrite Z.mod_small; lia. Qed.

Lemma s16_s16_add a b : s16 (s16 a + b) = s16 (a + b).
Proof.
  unfold s16.
  replace ((a + 2 ^ 15) mod 2 ^ 16 - 2 ^ 15 + b + 2 ^ 15)
    with ((a + 2 ^ 15) mod 2 ^ 16 + b) by lia.
  rewrite Zplus_mod_idemp_l. do 2 f_equal. lia.
Qed.

(** Counting [n] ticks from zero leaves the number of ticks, wrapped to the
    range of an [int]. *)
Lemma count_from_zero n :
  Nat.iter n (λ t, s16 (t + 1)) 0 = s16 (Z.of_nat n).
Proof.
  induction n as [|n IH]; [done|].
  rewrite Nat.iter_succ, IH, s16_s16_add. f_equal. lia.
Qed.

Lemma count_below_2 n :
  2 <= Nat.iter n (λ t, s16 (t + 1)) 0 → (2 <= n)%nat.
Proof.
  destruct n as [|[|n]]; simpl; [lia| |lia].
  rewrite s16_small; lia.
Qed.
(** ** The frame store: pixels *)

(** A machine is reachable when [begin(flags)] returns it. *)
Ltac just_booted flags m :=
  exists flags, m, [], []; split; [vm_compute; reflexivity|reflexivity].

(** ... or after a run from there. *)
Ltac just_ran flags m0 evs out :=
  exists flags, m0, evs, out; split; vm_compute; reflexivity.

Ltac at_bounced :=
  just_ran AF_LEDDISPLAY led0
    [Tick 0 0; Tick 255 255; Tick 255 255; Tick 255 255; Tick 255 255]
    [Scan BufB 0 0; Scan BufB 1 0; Scan BufB 2 0; Scan BufB 3 0;
     Scan BufB 4 0].

Ltac at_hello :=
  just_ran (AF_TFTDISPLAY + AF_NOINTERRUPT) tft0
    [Call (CAddToText [72; 105; 0])] (@nil output).

Lemma led0_reachable : reachable led0.
Proof. just_booted AF_LEDDISPLAY led0. Qed.

Lemma tft0_reachable : reachable tft0.
Proof. just_booted (AF_TFTDISPLAY + AF_NOINTERRUPT) tft0. Qed.

Lemma load_negative p i f : i < 0 → load p i f = None.
Proof.
  intros Hi. unfold load. destruct (deref p f); simpl; [|done].
  apply aget_out_of_range. lia.
Qed.

(** [set] on an in-range pixel, as seen through [getBuffer()]. *)
Lemma set_effect s x y col :
  wf s → 0 <= x < 8 → 0 <= y < 8 →
  ∃ s' w,
    AberLED.set x y col s = Some s' ∧
    back_row y s = Some w ∧
    AberLED.getBuffer s' = AberLED.getBuffer s ∧
    back_row y s' = Some (set_row x col w) ∧
    (∀ y', y' ≠ y → back_row y' s' = back_row y' s) ∧
    visible s' = visible s.
Proof.
  intros Hwf Hx Hy. pose proof Hwf as (Hf & _).
  destruct (set_in_range x y col s Hf Hx Hy) as (w & f' & Hw & Hst & Hset).
  destruct (store_Some _ _ _ _ _ Hst) as (Hb & Hfr & _ & _ & Hq & Hl).
  exists (with_fs f' s), w. unfold back_row, visible, AberLED.getBuffer in *.
  simpl. rewrite Hb, Hfr. split_and!; try done.
  - rewrite Hl by lia. by rewrite decide_True.
  - intros y' Hy'. destruct (Z.lt_ge_cases y' 0).
    + by rewrite !load_negative.
    + rewrite Hl by done. by rewrite decide_False.
  - apply Hq. intros E. by apply (wf_fs_distinct _ Hf).
Qed.

Lemma set_row_other_bits x col w i :
  0 <= x → 0 <= col < 4 → 0 <= i < 16 → i ≠ x * 2 → i ≠ x * 2 + 1 →
  Z.testbit (set_row x col w) i = Z.testbit w i.
Proof.
  intros Hx Hc Hi H0 H1. rewrite set_row_testbit by lia.
  replace (i =? x * 2) with false by lia.
  replace (i =? x * 2 + 1) with false by lia.
  simpl. rewrite andb_true_r.
  destruct (Z.lt_ge_cases i (x * 2));
    [ rewrite (Z.testbit_neg_r col) by lia
    | rewrite (testbit_small col 2) by lia ];
    apply orb_false_r.
Qed.

(** C5 -- round trip of the pixel encoding: for x, y in [0,8) and a colour
    in 0..3, [set(x,y,col)] succeeds on the back buffer; reading the 2-bit
    field at bit pair x of row y through [getBuffer()] then gives [col];
    every other bit of that row word, every other pixel of the row and every
    other row are unchanged (and so is the visible buffer). *)
Theorem set_round_trip m x y col :
  reachable m → 0 <= x < 8 → 0 <= y < 8 → 0 <= col <= 3 →
  ∃ s' w w',
    AberLED.set x y col (st m) = Some s' ∧
    AberLED.getBuffer s' = AberLED.getBuffer (st m) ∧
    back_row y (st m) = Some w ∧
    back_row y s' = Some w' ∧
    pixel w' x = col ∧
    (∀ i, 0 <= i < 16 → i ≠ x * 2 → i ≠ x * 2 + 1 →
          Z.testbit w' i = Z.testbit w i) ∧
    (∀ x', 0 <= x' < 8 → x' ≠ x → pixel w' x' = pixel w x') ∧
    (∀ y', y' ≠ y → back_row y' s' = back_row y' (st m)) ∧
    visible s' = visible (st m).
Proof.
  intros Hm Hx Hy Hc. apply reachable_wf in Hm.
  destruct (set_effect (st m) x y col Hm Hx Hy)
    as (s' & w & Hset & Hw & Hg & Hw' & Hrows & Hvis).
  exists s', w, (set_row x col w). split_and!; try done.
  - apply pixel_set_row_eq; lia.
  - intros i Hi H0 H1. apply set_row_other_bits; lia.
  - intros x' Hx' Hne. apply pixel_set_row_ne; lia.
Qed.

Lemma set_round_trip_witness :
  ∃ s' w w',
    AberLED.set 3 2 2 (st led0) = Some s' ∧
    AberLED.getBuffer s' = AberLED.getBuffer (st led0) ∧
    back_row 2 (st led0) = Some w ∧
    back_row 2 s' = Some w' ∧
    pixel w' 3 = 2 ∧
    (∀ i, 0 <= i < 16 → i ≠ 3 * 2 → i ≠ 3 * 2 + 1 →
          Z.testbit w' i = Z.testbit w i) ∧
    (∀ x', 0 <= x' < 8 → x' ≠ 3 → pixel w' x' = pixel w x') ∧
    (∀ y', y' ≠ 2 → back_row y' s' = back_row y' (st led0)) ∧
    visible s' = visible (st led0).
Proof.
  apply (set_round_trip led0 3 2 2);
    [just_booted AF_LEDDISPLAY led0|lia|lia|lia].
Defined.

(** C6 -- coordinate safety: with x or y outside [0,8), [set(x,y,col)]
    returns normally and leaves the whole state, hence all eight row words
    of the writable buffer, as it was, for any colour value and in any
    state. *)
Theorem set_coordinate_safety (s : state) (x y col : Z) :
  x < 0 ∨ 8 <= x ∨ y < 0 ∨ 8 <= y →
  AberLED.set x y col s = Some s.
Proof. intros H. apply set_out_of_range. lia. Qed.

Lemma set_coordinate_safety_witness :
  AberLED.set 8 (-1) 255 (st led0) = Some (st led0).
Proof. apply (set_coordinate_safety (st led0) 8 (-1) 255). lia. Defined.

(** The scenario of the specification: [clear()], [set(3,2,RED)], [swap()]
    with the interrupt running.  The third interrupt scans row 2 of the
    buffer just drawn; column 3 is the only one that is not off, and it is
    red: its two column bits are the only ones not sent high. *)
Example red_pixel_scanned :
  ∃ m,
    run [Call CClear; Call (CSet 3 2 RED); Call CSwap;
         Tick 255 255; Tick 255 255; Tick 255 255; Poll] led0 =
      Some (m, [Scan BufA 0 0; Scan BufA 1 0; Scan BufA 2 128]) ∧
    app m = Idle ∧
    tft_cells 128 = [BLACK; BLACK; BLACK; RED; BLACK; BLACK; BLACK; BLACK] ∧
    led_columns 128 = 65535 - Z.shiftl RED (3 * 2).
Proof. eexists. split_and!; vm_compute; reflexivity. Qed.

(** ** The colour argument is not masked *)

Lemma colour_spill_bit col :
  4 <= col < 16 → Z.testbit col 2 = true ∨ Z.testbit col 3 = true.
Proof.
  intros H.
  assert (col = 4 ∨ col = 5 ∨ col = 6 ∨ col = 7 ∨ col = 8 ∨ col = 9 ∨
          col = 10 ∨ col = 11 ∨ col = 12 ∨ col = 13 ∨ col = 14 ∨ col = 15)
    as Hc by lia.
  repeat destruct Hc as [->|Hc]; subst; auto.
Qed.

Lemma pixel_range w x : 0 <= pixel w x <= 3.
Proof.
  unfold pixel.
  replace (Z.land (Z.shiftr w (x * 2)) 3) with (Z.shiftr w (x * 2) mod 2 ^ 2)
    by (symmetry; apply (Z.land_ones _ 2); lia).
  pose proof (Z.mod_pos_bound (Z.shiftr w (x * 2)) (2 ^ 2)). lia.
Qed.

(** C9 (as the code does it) -- [set] does not mask the colour: bit i of the
    row word after [set(x,y,col)] is the old bit outside the pixel's pair,
    or-ed with bit i-2x of [col].  So every set bit j >= 2 of [col] with
    2x+j <= 15 is set in a pixel further left; for 4 <= col <= 15 and x < 7
    that is a bit of pixel x+1; bits with 2x+j >= 16 are dropped, which for
    x = 7 are all excess bits; and the pixel never reads back as a colour
    above 3. *)
Theorem set_unmasked_colour m x y col :
  reachable m → 0 <= x < 8 → 0 <= y < 8 → 0 <= col < 256 →
  ∃ s' w w',
    AberLED.set x y col (st m) = Some s' ∧
    back_row y (st m) = Some w ∧
    back_row y s' = Some w' ∧
    (∀ i, 0 <= i < 16 →
       Z.testbit w' i =
       (Z.testbit w i && negb ((i =? x * 2) || (i =? x * 2 + 1)))
       || Z.testbit col (i - x * 2)) ∧
    (∀ j, 2 <= j → x * 2 + j < 16 → Z.testbit col j = true →
       Z.testbit w' (x * 2 + j) = true) ∧
    (x < 7 → 4 <= col < 16 →
       ∃ i, (x + 1) * 2 <= i <= (x + 1) * 2 + 1 ∧ Z.testbit w' i = true) ∧
    (x = 7 → ∀ i, 0 <= i < 14 → Z.testbit w' i = Z.testbit w i) ∧
    (4 <= col → pixel w' x ≠ col).
Proof.
  intros Hm Hx Hy Hc. apply reachable_wf in Hm.
  destruct (set_effect (st m) x y col Hm Hx Hy)
    as (s' & w & Hset & Hw & _ & Hw' & _).
  exists s', w, (set_row x col w). split_and!; try done.
  - intros i Hi. apply set_row_testbit; lia.
  - intros j Hj Hlt Hbit. rewrite set_row_testbit by lia.
    replace (x * 2 + j - x * 2) with j by lia. rewrite Hbit.
    apply orb_true_r.
  - intros Hx7 Hcol.
    destruct (colour_spill_bit col Hcol) as [Hbit|Hbit].
    + exists (x * 2 + 2). split; [lia|]. rewrite set_row_testbit by lia.
      replace (x * 2 + 2 - x * 2) with 2 by lia. rewrite Hbit.
      apply orb_true_r.
    + exists (x * 2 + 3). split; [lia|]. rewrite set_row_testbit by lia.
      replace (x * 2 + 3 - x * 2) with 3 by lia. rewrite Hbit.
      apply orb_true_r.
  - intros -> i Hi. rewrite set_row_testbit by lia.
    replace (i =? 7 * 2) with false by lia.
    replace (i =? 7 * 2 + 1) with false by lia.
    rewrite (Z.testbit_neg_r col) by lia. simpl.
    by rewrite andb_true_r, orb_false_r.
  - intros Hcol. pose proof (pixel_range (set_row x col w) x). lia.
Qed.

Lemma set_unmasked_colour_witness :
  ∃ s' w w',
    AberLED.set 2 0 7 (st led0) = Some s' ∧
    back_row 0 (st led0) = Some w ∧
    back_row 0 s' = Some w' ∧
    (∀ i, 0 <= i < 16 →
       Z.testbit w' i =
       (Z.testbit w i && negb ((i =? 2 * 2) || (i =? 2 * 2 + 1)))
       || Z.testbit 7 (i - 2 * 2)) ∧
    (∀ j, 2 <= j → 2 * 2 + j < 16 → Z.testbit 7 j = true →
       Z.testbit w' (2 * 2 + j) = true) ∧
    (2 < 7 → 4 <= 7 < 16 →
       ∃ i, (2 + 1) * 2 <= i <= (2 + 1) * 2 + 1 ∧ Z.testbit w' i = true) ∧
    (2 = 7 → ∀ i, 0 <= i < 14 → Z.testbit w' i = Z.testbit w i) ∧
    (4 <= 7 → pixel w' 2 ≠ 7).
Proof.
  apply (set_unmasked_colour led0 2 0 7);
    [just_booted AF_LEDDISPLAY led0|lia|lia|lia].
Defined.

(** The claim as stated fails: with x = 6 the colour 16 has its only set
    bit at 2x+4 = 16, outside the row word, so no bit of pixel 7 (or of any
    other pixel) is set although x < 7 and col >= 4. *)
Lemma set_unmasked_colour_counterexample :
  ¬ (∀ m x y col s' w',
       reachable m → 0 <= x < 7 → 0 <= y < 8 → 4 <= col < 256 →
       AberLED.set x y col (st m) = Some s' →
       back_row y s' = Some w' →
       ∃ i, (x + 1) * 2 <= i < 16 ∧ Z.testbit w' i = true).
Proof.
  intros H.
  destruct (H led0 6 0 16 (st led0) 0 led0_reachable) as (i & _ & Hi);
    try lia; try reflexivity.
  by rewrite Z.bits_0 in Hi.
Qed.

(** ** Buffer isolation *)

Lemma set_total x y col s : wf s → ∃ s', AberLED.set x y col s = Some s'.
Proof.
  intros Hwf.
  destruct (decide (0 <= x < 8 ∧ 0 <= y < 8)) as [[Hx Hy]|Hn].
  - destruct (set_in_range x y col s (proj1 Hwf) Hx Hy) as (? & ? & _ & _ & ->).
    eauto.
  - rewrite set_out_of_range by done. eauto.
Qed.

Lemma draw_no_swap cs :
  forallb is_draw cs = true → no_swap (map Call cs) = true.
Proof.
  induction cs as [|c cs IH]; simpl; [done|].
  intros [Hc Hcs]%andb_true_iff. rewrite IH by done. by destruct c.
Qed.

(** A sequence of [set] and [clear] calls always runs, and shows nothing. *)
Lemma run_draw cs m :
  wf (st m) → app m = Idle → forallb is_draw cs = true →
  ∃ m', run (map Call cs) m = Some (m', []) ∧ app m' = Idle.
Proof.
  revert m. induction cs as [|c cs IH]; intros m Hwf Ha.
  - intros _. simpl. eauto.
  - cbn [forallb map]. intros [Hc Hcs]%andb_true_iff.
    assert (∃ s', do_call c (st m) = Some (s', []) ∧ after_call c s' = Idle)
      as (s' & Hs' & Hidle).
    { destruct c; try done; simpl.
      - destruct (set_total x y col _ Hwf) as [s' ->]. simpl. eauto.
      - destruct (clear_spec _ Hwf) as (f' & -> & _). simpl. eauto. }
    assert (step (Call c) m = Some (Machine s' Idle, [])) as Hstep.
    { unfold step. rewrite Ha, Hs'. simpl. by rewrite Hidle. }
    rewrite run_cons, Hstep. simpl.
    destruct (IH (Machine s' Idle)) as (m' & -> & Ha'); [|done|done|].
    + by apply (step_wf _ _ _ _ Hwf Hstep).
    + simpl. eauto.
Qed.

(** C1 -- double-buffer isolation: in every reachable state the back and the
    front pointer are [bufferA] and [bufferB] in some order; any sequence of
    [set] and [clear] calls runs and leaves the pointers and the eight row
    words of the visible buffer as they were; so does any run without a
    call of [swap], interrupts included; a step changes a pointer only if
    it is a call of [swap], which exchanges the two and copies no row. *)
Theorem buffer_isolation m :
  reachable m →
  ((backBuffer (fs (st m)) = BufA ∧ frontBuffer (fs (st m)) = BufB) ∨
   (backBuffer (fs (st m)) = BufB ∧ frontBuffer (fs (st m)) = BufA)) ∧
  (∃ rows, visible (st m) = Some rows ∧ length rows = 8%nat) ∧
  (∀ cs, app m = Idle → forallb is_draw cs = true →
     ∃ m', run (map Call cs) m = Some (m', []) ∧
           backBuffer (fs (st m')) = backBuffer (fs (st m)) ∧
           frontBuffer (fs (st m')) = frontBuffer (fs (st m)) ∧
           visible (st m') = visible (st m)) ∧
  (∀ evs m' out, no_swap evs = true → run evs m = Some (m', out) →
     backBuffer (fs (st m')) = backBuffer (fs (st m)) ∧
     frontBuffer (fs (st m')) = frontBuffer (fs (st m)) ∧
     visible (st m') = visible (st m)) ∧
  (∀ e m' out, step e m = Some (m', out) →
     if is_swap e
     then backBuffer (fs (st m')) = frontBuffer (fs (st m)) ∧
          frontBuffer (fs (st m')) = backBuffer (fs (st m)) ∧
          bufferA (fs (st m')) = bufferA (fs (st m)) ∧
          bufferB (fs (st m')) = bufferB (fs (st m))
     else backBuffer (fs (st m')) = backBuffer (fs (st m)) ∧
          frontBuffer (fs (st m')) = frontBuffer (fs (st m))).
Proof.
  intros Hm. pose proof (reachable_wf _ Hm) as Hwf.
  pose proof Hwf as ((LA & LB & Hptr) & _).
  split_and!.
  - exact Hptr.
  - unfold visible. destruct Hptr as [[_ ->]|[_ ->]]; simpl; eauto.
  - intros cs Ha Hcs. destruct (run_draw cs m Hwf Ha Hcs) as (m' & Hrun & _).
    exists m'. split; [done|].
    destruct (run_frame _ _ _ _ Hwf (draw_no_swap _ Hcs) Hrun)
      as (? & ? & ? & _). done.
  - intros evs m' out Hns Hrun.
    destruct (run_frame _ _ _ _ Hwf Hns Hrun) as (? & ? & ? & _). done.
  - intros e m' out Hstep. destruct (is_swap e) eqn:He.
    + destruct e as [[]| |]; try done.
      apply step_inv in Hstep
        as [(c & [= <-] & _ & Hc & _)|[(? & _)|(? & ? & ? & _)]];
        try done.
      destruct (swap_critical_spec _ Hwf)
        as (s' & o & Hs & _ & _ & _ & _ & _ & Hfs & _).
      simpl in Hc. rewrite Hs in Hc. injection Hc as <- <-.
      by rewrite Hfs.
    + destruct (step_frame _ _ _ _ Hwf He Hstep) as (? & ? & _). done.
Qed.

Lemma buffer_isolation_witness :
  ((backBuffer (fs (st led0)) = BufA ∧ frontBuffer (fs (st led0)) = BufB) ∨
   (backBuffer (fs (st led0)) = BufB ∧ frontBuffer (fs (st led0)) = BufA)) ∧
  (∃ rows, visible (st led0) = Some rows ∧ length rows = 8%nat) ∧
  (∀ cs, app led0 = Idle → forallb is_draw cs = true →
     ∃ m', run (map Call cs) led0 = Some (m', []) ∧
           backBuffer (fs (st m')) = backBuffer (fs (st led0)) ∧
           frontBuffer (fs (st m')) = frontBuffer (fs (st led0)) ∧
           visible (st m') = visible (st led0)) ∧
  (∀ evs m' out, no_swap evs = true → run evs led0 = Some (m', out) →
     backBuffer (fs (st m')) = backBuffer (fs (st led0)) ∧
     frontBuffer (fs (st m')) = frontBuffer (fs (st led0)) ∧
     visible (st m') = visible (st led0)) ∧
  (∀ e m' out, step e led0 = Some (m', out) →
     if is_swap e
     then backBuffer (fs (st m')) = frontBuffer (fs (st led0)) ∧
          frontBuffer (fs (st m')) = backBuffer (fs (st led0)) ∧
          bufferA (fs (st m')) = bufferA (fs (st led0)) ∧
          bufferB (fs (st m')) = bufferB (fs (st led0))
     else backBuffer (fs (st m')) = backBuffer (fs (st led0)) ∧
          frontBuffer (fs (st m')) = frontBuffer (fs (st led0))).
Proof. apply (buffer_isolation led0). just_booted AF_LEDDISPLAY led0. Defined.

(** ** The handshake at the end of [swap] *)

Lemma step_swap m :
  wf (st m) → app m = Idle →
  ∃ s' out,
    step (Call CSwap) m =
      Some (Machine s' (if interruptRunning (st m) then SwapWait else Idle),
            out) ∧
    AberLED.swap_critical (st m) = Some (s', out).
Proof.
  intros Hwf Ha.
  destruct (swap_critical_spec _ Hwf)
    as (s' & o & Hs & _ & _ & _ & _ & _ & _ & Hir & _).
  exists s', o. split; [|done]. unfold step. rewrite Ha. simpl.
  rewrite Hs. simpl. by rewrite Hir.
Qed.

Lemma step_swap_inv m m' out :
  step (Call CSwap) m = Some (m', out) →
  app m = Idle ∧ AberLED.swap_critical (st m) = Some (st m', out) ∧
  app m' = if interruptRunning (st m') then SwapWait else Idle.
Proof.
  intros [(c & [= <-] & ? & ? & ?)|[(? & _)|(? & ? & ? & _)]]%step_inv;
    done.
Qed.

Lemma step_tick PINC PINB s a :
  wf s → interruptRunning s = true →
  ∃ s' out, step (Tick PINC PINB) (Machine s a) = Some (Machine s' a, out) ∧
            wf s' ∧ interruptRunning s' = true ∧
            interruptTicks s' = s16 (interruptTicks s + 1).
Proof.
  intros Hwf Hir.
  destruct (ISR_spec PINC PINB _ Hwf)
    as (s' & v & ? & Hs & Hwf' & _ & _ & Hit & _ & Hir' & _).
  eexists s', _. split_and!; try done; [|congruence].
  unfold step. simpl. rewrite Hir, Hs. by destruct a.
Qed.

(** While the application waits in [swap], it cannot leave before two
    ticks have been counted: [k] ticks so far, from a counter reset to 0. *)
Lemma wait_needs_two_ticks evs m m' out k :
  wf (st m) → app m = SwapWait →
  interruptTicks (st m) = Nat.iter k (λ t, s16 (t + 1)) 0 →
  run evs m = Some (m', out) → app m' = Idle →
  (2 <= k + count_ticks evs)%nat.
Proof.
  revert m out k. induction evs as [|e evs IH]; intros m out k Hwf Ha Hk.
  - simpl. intros [= <- <-]. congruence.
  - rewrite run_cons, count_ticks_cons.
    destruct (step e m) as [[m1 o1]|] eqn:E; simpl; [|done].
    destruct (run evs m1) as [[m2 o2]|] eqn:E2; simpl; [|done].
    intros [= <- <-] Hidle.
    pose proof (step_wf _ _ _ _ Hwf E) as Hwf1.
    pose proof E as
      [(c & -> & Hc & _)
      |[(-> & _ & Hst & _ & Ha1)|(p & q & -> & _ & _ & Ha1)]]%step_inv.
    + congruence.
    + simpl. destruct (Z.ltb_spec (interruptTicks (st m)) 2) as [Hlt|Hge].
      * apply (IH m1 o2 k); try done. by rewrite Hst.
      * rewrite Hk in Hge. apply count_below_2 in Hge. lia.
    + simpl.
      destruct (step_frame (Tick p q) m m1 o1 Hwf eq_refl E)
        as (_ & _ & _ & _ & _ & _ & _ & Hit & _).
      simpl in Hit.
      assert (2 <= S k + count_ticks evs)%nat; [|lia].
      apply (IH m1 o2 (S k)); try done; [congruence|].
      by rewrite Hit, Hk.
Qed.

(** C2 -- exchange synchronisation: [swap] always runs its critical section,
    which scans nothing, exchanges the buffers and resets the live counter.
    Without the interrupt it returns at once.  With the interrupt running
    the application waits; whenever it has returned, at least two interrupts
    have fired since the exchange, each of them scanned one row of the newly
    visible buffer, and the cursor has advanced by their number; and two
    interrupts followed by one test of the loop do make it return. *)
Theorem swap_synchronisation m :
  reachable m → app m = Idle →
  ∃ m1 o1,
    step (Call CSwap) m = Some (m1, o1) ∧
    scanned o1 = [] ∧
    frontBuffer (fs (st m1)) = backBuffer (fs (st m)) ∧
    interruptTicks (st m1) = 0 ∧
    (interruptRunning (st m) = false → app m1 = Idle) ∧
    (interruptRunning (st m) = true →
       app m1 = SwapWait ∧
       (∀ evs m2 out,
          no_swap evs = true → run evs m1 = Some (m2, out) → app m2 = Idle →
          (2 <= count_ticks evs)%nat ∧
          length (scanned out) = count_ticks evs ∧
          Forall (λ sc, sc.1 = frontBuffer (fs (st m1))) (scanned out) ∧
          refrow (st m2) =
            (refrow (st m) + Z.of_nat (count_ticks evs)) mod 8) ∧
       (∀ p1 q1 p2 q2, ∃ m2 out,
          run [Tick p1 q1; Tick p2 q2; Poll] m1 = Some (m2, out) ∧
          app m2 = Idle ∧ interruptTicks (st m2) = 2)).
Proof.
  intros Hm Ha. pose proof (reachable_wf _ Hm) as Hwf.
  destruct (step_swap m Hwf Ha) as (s1 & o1 & Hstep & Hcrit).
  destruct (swap_critical_spec _ Hwf)
    as (s1' & o1' & Hs & Hwf1 & Hsc & _ & _ & Hit & Hfs & Hir & _ & _ & Hrow & _).
  rewrite Hcrit in Hs. injection Hs as <- <-.
  eexists _, o1. split; [exact Hstep|]. cbn [st app].
  split_and!; try done.
  - by rewrite Hfs.
  - by intros ->.
  - intros Hrun. rewrite Hrun. split_and!; [done| |].
    + intros evs m2 out Hns Hr Hidle.
      set (m1 := Machine s1 SwapWait) in *.
      assert (interruptRunning (st m1) = true) as Hir1 by (simpl; congruence).
      destruct (run_frame evs m1 m2 out Hwf1 Hns Hr)
        as (_ & _ & _ & _ & _ & _ & _ & _ & _ & Hfront & Hcount).
      destruct (Hcount Hir1) as [Hlen Hrefrow].
      split_and!; try done.
      * apply (wait_needs_two_ticks evs m1 m2 out 0); try done.
      * rewrite Hrefrow. simpl. by rewrite Hrow.
    + intros p1 q1 p2 q2.
      assert (interruptRunning s1 = true) as Hir1 by congruence.
      destruct (step_tick p1 q1 s1 SwapWait Hwf1 Hir1)
        as (s2 & o2 & Hst2 & Hwf2 & Hir2 & Hit2).
      destruct (step_tick p2 q2 s2 SwapWait Hwf2 Hir2)
        as (s3 & o3 & Hst3 & Hwf3 & Hir3 & Hit3).
      assert (interruptTicks s3 = 2) as Hticks
        by (by rewrite Hit3, Hit2, Hit).
      eexists _, _. rewrite run_cons, Hst2. cbn [mbind option_bind].
      rewrite run_cons, Hst3. cbn [mbind option_bind].
      simpl. rewrite Hticks. simpl. done.
Qed.

Lemma swap_synchronisation_witness :
  ∃ m1 o1,
    step (Call CSwap) led0 = Some (m1, o1) ∧
    scanned o1 = [] ∧
    frontBuffer (fs (st m1)) = backBuffer (fs (st led0)) ∧
    interruptTicks (st m1) = 0 ∧
    (interruptRunning (st led0) = false → app m1 = Idle) ∧
    (interruptRunning (st led0) = true →
       app m1 = SwapWait ∧
       (∀ evs m2 out,
          no_swap evs = true → run evs m1 = Some (m2, out) → app m2 = Idle →
          (2 <= count_ticks evs)%nat ∧
          length (scanned out) = count_ticks evs ∧
          Forall (λ sc, sc.1 = frontBuffer (fs (st m1))) (scanned out) ∧
          refrow (st m2) =
            (refrow (st led0) + Z.of_nat (count_ticks evs)) mod 8) ∧
       (∀ p1 q1 p2 q2, ∃ m2 out,
          run [Tick p1 q1; Tick p2 q2; Poll] m1 = Some (m2, out) ∧
          app m2 = Idle ∧ interruptTicks (st m2) = 2)).
Proof.
  apply (swap_synchronisation led0);
    [just_booted AF_LEDDISPLAY led0|reflexivity].
Defined.

(** ** Edge latching *)

Lemma tick_channel PINC PINB m m1 o1 c :
  wf (st m) → step (Tick PINC PINB) m = Some (m1, o1) →
  channel_of (btn (st m)) (button (btn (st m))) = Some c →
  ∃ v, tick_sample (Tick PINC PINB) m = Some v ∧ (v = 0 ∨ v = 1) ∧
       button (btn (st m1)) = (button (btn (st m)) + 1) mod 5 ∧
       channel_of (btn (st m1)) (button (btn (st m))) =
         Some (channel_step v c) ∧
       ∀ ch, 0 <= ch < 5 → ch ≠ button (btn (st m)) →
             channel_of (btn (st m1)) ch = channel_of (btn (st m)) ch.
Proof.
  intros Hwf Hstep Hc.
  apply step_inv in Hstep
    as [(? & ? & _)|[(? & _)|(p & q & [= <- <-] & _ & Hisr & _)]]; try done.
  destruct (ISR_spec PINC PINB _ Hwf)
    as (s' & ? & v & Hs & _ & _ & _ & _ & _ & _ & _ & _ & _ & _ & Hsmp & Hv
        & Hdb).
  rewrite Hisr in Hs. injection Hs as <- _.
  destruct Hwf as (_ & Hb & _).
  destruct (debounce_channel v _ Hb) as (b' & Hdb' & _ & Hbtn & _ & _ & _ & Hch).
  rewrite Hdb in Hdb'. injection Hdb' as <-.
  exists v. simpl. split_and!; try done.
  - destruct Hb as (_ & _ & _ & _ & _ & _ & Hi).
    rewrite (Hch _ Hi), decide_True, Hc by done. done.
  - intros ch Hr Hne. by rewrite (Hch _ Hr), decide_False.
Qed.

(** C3 -- edge latching: when an interrupt samples its channel [ch] as
    pressed while the previous true state was released, the went-down flag
    of [ch] is set by that interrupt; it stays set through any run without
    a call of [swap], whatever is sampled later; the next [swap] can be
    called as soon as the application is idle, clears the live flag, and
    from then until the following [swap] [getButtonDown(ch+1)] returns 1. *)
Theorem edge_latching m PINC PINB m1 o1 ch :
  reachable m →
  step (Tick PINC PINB) m = Some (m1, o1) →
  button (btn (st m)) = ch →
  tick_sample (Tick PINC PINB) m = Some 1 →
  aget (trueButtonStates (btn (st m))) ch = Some 0 →
  aget (buttonWentDown (btn (st m1))) ch = Some 1 ∧
  ∀ evs m2 out,
    no_swap evs = true → run evs m1 = Some (m2, out) →
    aget (buttonWentDown (btn (st m2))) ch = Some 1 ∧
    (app m2 = Idle → ∃ m3 o3, step (Call CSwap) m2 = Some (m3, o3)) ∧
    ∀ m3 o3,
      step (Call CSwap) m2 = Some (m3, o3) →
      aget (buttonWentDown (btn (st m3))) ch = Some 0 ∧
      ∀ evs' m4 out',
        no_swap evs' = true → run evs' m3 = Some (m4, out') →
        AberLED.getButtonDown (ch + 1) (st m4) = Some 1.
Proof.
  intros Hm Hstep Hch Hsmp Htrue.
  pose proof (reachable_wf _ Hm) as Hwf.
  pose proof (step_wf _ _ _ _ Hwf Hstep) as Hwf1.
  assert (0 <= ch < 5) as Hr by (subst ch; apply Hwf).
  assert (aget (buttonWentDown (btn (st m1))) ch = Some 1) as Hdown.
  { destruct (channel_of_total _ ch (proj1 (proj2 Hwf)) Hr) as [c Hc].
    rewrite <- Hch in Hc.
    destruct (tick_channel _ _ _ _ _ c Hwf Hstep Hc)
      as (v & Hv & _ & _ & Hc1 & _).
    rewrite Hsmp in Hv. injection Hv as <-. rewrite Hch in Hc, Hc1.
    apply channel_of_Some in Hc as (Ht & _). rewrite Htrue in Ht.
    injection Ht as Ht.
    apply channel_of_Some in Hc1 as (_ & _ & _ & Hw). rewrite Hw.
    unfold channel_step. by rewrite <- Ht. }
  split; [exact Hdown|].
  intros evs m2 out Hns Hrun.
  pose proof (run_wf _ _ _ _ Hwf1 Hrun) as Hwf2.
  destruct (run_frame _ _ _ _ Hwf1 Hns Hrun)
    as (_ & _ & _ & _ & _ & _ & _ & _ & Hmono & _).
  pose proof (Hmono ch Hdown) as Hdown2.
  split_and!; [done| |].
  - intros Ha. destruct (step_swap m2 Hwf2 Ha) as (s3 & o3 & Hs3 & _). eauto.
  - intros m3 o3 [_ [Hcrit _]]%step_swap_inv.
    destruct (swap_critical_spec _ Hwf2) as (s3 & o & Hs & Hwf3 & _ & Hb & _).
    rewrite Hcrit in Hs. injection Hs as <- _.
    split.
    + rewrite Hb. simpl. clear -Hr.
      by apply index_5 in Hr as [->|[->|[->|[->| ->]]]].
    + intros evs' m4 out' Hns' Hrun'.
      destruct (run_frame _ _ _ _ Hwf3 Hns' Hrun')
        as (_ & _ & _ & _ & Hlast & _).
      unfold AberLED.getButtonDown. rewrite Hlast, Hb. simpl.
      by replace (ch + 1 - 1) with ch by lia.
Qed.

Lemma edge_latching_witness :
  ∃ m1 o1,
    step (Tick 0 0) led0 = Some (m1, o1) ∧
    aget (buttonWentDown (btn (st m1))) 0 = Some 1 ∧
    ∀ evs m2 out,
      no_swap evs = true → run evs m1 = Some (m2, out) →
      aget (buttonWentDown (btn (st m2))) 0 = Some 1 ∧
      (app m2 = Idle → ∃ m3 o3, step (Call CSwap) m2 = Some (m3, o3)) ∧
      ∀ m3 o3,
        step (Call CSwap) m2 = Some (m3, o3) →
        aget (buttonWentDown (btn (st m3))) 0 = Some 0 ∧
        ∀ evs' m4 out',
          no_swap evs' = true → run evs' m3 = Some (m4, out') →
          AberLED.getButtonDown (0 + 1) (st m4) = Some 1.
Proof.
  do 2 eexists. split; [vm_compute; reflexivity|].
  eapply (edge_latching led0 0 0 _ _ 0);
    [just_booted AF_LEDDISPLAY led0|vm_compute; reflexivity|reflexivity..].
Defined.

(** ** Debouncing *)

Lemma channel_of_debounced m ch c :
  channel_of (btn (st m)) ch = Some c → debounced ch m = Some (ch_debounced c).
Proof. by intros (_ & _ & ? & _)%channel_of_Some. Qed.

(** What one step does to the cells of channel [ch]. *)
Lemma step_channel e m m1 o1 ch c :
  wf (st m) → 0 <= ch < 5 → step e m = Some (m1, o1) →
  channel_of (btn (st m)) ch = Some c →
  ∃ c1, channel_of (btn (st m1)) ch = Some c1 ∧
        if samples_channel ch e m
        then ∃ v, tick_sample e m = Some v ∧ c1 = channel_step v c
        else ch_true c1 = ch_true c ∧ ch_counter c1 = ch_counter c ∧
             ch_debounced c1 = ch_debounced c.
Proof.
  intros Hwf Hr Hstep Hc.
  pose proof (step_wf _ _ _ _ Hwf Hstep) as Hwf1.
  destruct (channel_of_total _ ch (proj1 (proj2 Hwf1)) Hr) as [c1 Hc1].
  exists c1. split; [done|].
  pose proof Hstep as
    [(c0 & -> & _ & Hcall & _)|[(-> & _ & Hst & _)|(p & q & -> & _)]]%step_inv.
  - unfold samples_channel. simpl.
    apply channel_of_Some in Hc as (Ht & Hn & Hd & _).
    apply channel_of_Some in Hc1 as (Ht1 & Hn1 & Hd1 & _).
    assert (trueButtonStates (btn (st m1)) = trueButtonStates (btn (st m)) ∧
            buttonDebounceCounters (btn (st m1)) =
              buttonDebounceCounters (btn (st m)) ∧
            debouncedButtonStates (btn (st m1)) =
              debouncedButtonStates (btn (st m))) as (Et & En & Ed).
    { assert (c0 = CSwap ∨ c0 ≠ CSwap) as [->|Hn0]
        by (destruct c0; auto; right; done).
      - destruct (swap_critical_spec _ Hwf) as (s' & o & Hs & _ & _ & Hb & _).
        simpl in Hcall. rewrite Hs in Hcall. injection Hcall as <- _.
        by rewrite Hb.
      - destruct (do_call_frame _ _ _ _ Hwf Hn0 Hcall)
          as (_ & _ & _ & _ & _ & ? & ? & _ & _ & ? & _). done. }
    rewrite Et, En, Ed in *. split_and!; congruence.
  - unfold samples_channel. simpl. rewrite Hst in Hc1.
    rewrite Hc in Hc1. by injection Hc1 as <-.
  - unfold samples_channel. simpl.
    destruct (channel_of_total _ (button (btn (st m))) (proj1 (proj2 Hwf)))
      as [cb Hcb]; [apply Hwf|].
    destruct (tick_channel _ _ _ _ _ cb Hwf Hstep Hcb)
      as (v & Hv & _ & _ & Hstep1 & Hother).
    destruct (Z.eqb_spec (button (btn (st m))) ch) as [E|E].
    + rewrite E in *. exists v. split; [done|]. congruence.
    + rewrite Hother in Hc1 by done. rewrite Hc in Hc1.
      by injection Hc1 as <-.
Qed.

Lemma some_eq_decide (a b : Z) :
  bool_decide (Some a = Some b) = (a =? b).
Proof.
  destruct (Z.eqb_spec a b) as [->|Hne].
  - by rewrite bool_decide_true.
  - rewrite bool_decide_false; [done|congruence].
Qed.

(** From a channel whose true state already is the sample [v], with the
    counter at [ch_counter c], while every sampling of the channel reads
    [v]: the commit comes with the sampling that takes the counter to 4. *)
Ltac case_cmp :=
  repeat match goal with
    | |- context [?a <? ?b] => destruct (Z.ltb_spec a b)
    | |- context [?a <=? ?b] => destruct (Z.leb_spec a b)
    | |- context [?a =? ?b] => destruct (Z.eqb_spec a b)
    end;
  simpl; try lia; try done.

Lemma debounce_run ch v evs m m' out c :
  wf (st m) → 0 <= ch < 5 →
  channel_of (btn (st m)) ch = Some c →
  ch_true c = v → 0 <= ch_counter c < 4 →
  run evs m = Some (m', out) → holds ch v evs m = true →
  debounced ch m' =
    Some (if Z.of_nat (samplings ch evs m) + ch_counter c <? 4
          then ch_debounced c else v) ∧
  changes ch evs m =
    (if (4 <=? Z.of_nat (samplings ch evs m) + ch_counter c)
        && negb (ch_debounced c =? v)
     then 1%nat else 0%nat).
Proof.
  revert m out c. induction evs as [|e evs IH]; intros m out c Hwf Hr Hc Ht Hn.
  - simpl. intros [= <- <-] _. rewrite (channel_of_debounced _ _ _ Hc).
    by case_cmp.
  - rewrite run_cons. cbn [holds samplings changes].
    destruct (step e m) as [[m1 o1]|] eqn:E; simpl; [|done].
    destruct (run evs m1) as [[m2 o2]|] eqn:E2; simpl; [|done].
    intros [= <- <-] [Hnow Hlater]%andb_true_iff.
    pose proof (step_wf _ _ _ _ Hwf E) as Hwf1.
    destruct (step_channel _ _ _ _ _ _ Hwf Hr E Hc) as (c1 & Hc1 & Hrel).
    rewrite (channel_of_debounced _ _ _ Hc), (channel_of_debounced _ _ _ Hc1).
    rewrite some_eq_decide.
    destruct (samples_channel ch e m).
    + destruct Hrel as (v' & Hv' & ->).
      apply bool_decide_eq_true in Hnow. rewrite Hv' in Hnow.
      injection Hnow as ->. unfold channel_step in *.
      replace (v =? ch_true c) with true in * by lia. simpl in *.
      replace (u8 (ch_counter c + 1)) with (ch_counter c + 1) in *
        by (unfold u8; rewrite Z.mod_small; lia).
      destruct (Z.eqb_spec (ch_counter c + 1) 4) as [E4|E4].
      * destruct (IH m1 o2 _ Hwf1 Hr Hc1) as [Hd Hch]; simpl; try done; try lia.
        rewrite Hd, Hch. simpl. by case_cmp.
      * destruct (IH m1 o2 _ Hwf1 Hr Hc1) as [Hd Hch]; simpl; try done; try lia.
        rewrite Hd, Hch. simpl. by case_cmp.
    + destruct Hrel as (Et & En & Ed).
      destruct (IH m1 o2 c1 Hwf1 Hr Hc1) as [Hd Hch]; try done; try congruence.
      rewrite Hd, Hch, En, Ed. simpl. by case_cmp.
Qed.

(** C4 (as the code does it) -- debounce stability: when a sampling of
    channel [ch] reads a value [v] that differs from the previous true
    state, the counter of [ch] is reset to 0 and the committed state is left
    alone; while every further sampling of [ch] reads [v], the committed
    state keeps the value [d0] it had through the first three re-samplings
    and is [v] from the fourth on.  So it changes exactly once, at the
    fourth re-sampling, when [d0] differed from [v], and never when the
    sample came back to the value already committed. *)
Theorem debounce_stability m PINC PINB m1 o1 ch v old d0 evs m2 o2 :
  reachable m →
  step (Tick PINC PINB) m = Some (m1, o1) →
  button (btn (st m)) = ch →
  tick_sample (Tick PINC PINB) m = Some v →
  aget (trueButtonStates (btn (st m))) ch = Some old → old ≠ v →
  debounced ch m = Some d0 →
  run evs m1 = Some (m2, o2) → holds ch v evs m1 = true →
  aget (buttonDebounceCounters (btn (st m1))) ch = Some 0 ∧
  debounced ch m1 = Some d0 ∧
  debounced ch m2 =
    Some (if (samplings ch evs m1 <? 4)%nat then d0 else v) ∧
  changes ch evs m1 =
    (if (4 <=? samplings ch evs m1)%nat && negb (d0 =? v)
     then 1%nat else 0%nat).
Proof.
  intros Hm Hstep Hch Hsmp Htrue Hflip Hd0 Hrun Hholds.
  pose proof (reachable_wf _ Hm) as Hwf.
  pose proof (step_wf _ _ _ _ Hwf Hstep) as Hwf1.
  assert (0 <= ch < 5) as Hr by (subst ch; apply Hwf).
  destruct (channel_of_total _ ch (proj1 (proj2 Hwf)) Hr) as [c Hc].
  rewrite <- Hch in Hc.
  destruct (tick_channel _ _ _ _ _ c Hwf Hstep Hc)
    as (v' & Hv' & _ & _ & Hc1 & _).
  rewrite Hsmp in Hv'. injection Hv' as <-. rewrite Hch in Hc, Hc1.
  pose proof (channel_of_debounced _ _ _ Hc) as Hd. rewrite Hd0 in Hd.
  injection Hd as Hd.
  apply channel_of_Some in Hc as (Ht & _). rewrite Htrue in Ht.
  injection Ht as Ht.
  assert (channel_step v c = Channel v 0 d0
            (if negb (v =? 0) then 1 else ch_wentDown c)) as Hstepc.
  { unfold channel_step. rewrite <- Ht, <- Hd.
    replace (v =? old) with false by lia. done. }
  rewrite Hstepc in Hc1.
  destruct (debounce_run ch v evs m1 m2 o2 _ Hwf1 Hr Hc1 eq_refl)
    as [Hafter Hcount]; [cbn [ch_counter]; lia|done|done|].
  cbn [ch_counter ch_debounced] in Hafter, Hcount.
  apply channel_of_Some in Hc1 as (_ & Hn1 & Hd1 & _). simpl in Hn1, Hd1.
  split_and!; try done.
  - rewrite Hafter, Z.add_0_r.
    destruct (Z.ltb_spec (Z.of_nat (samplings ch evs m1)) 4),
      (Nat.ltb_spec (samplings ch evs m1) 4); try lia; reflexivity.
  - rewrite Hcount, Z.add_0_r.
    destruct (Z.leb_spec 4 (Z.of_nat (samplings ch evs m1))),
      (Nat.leb_spec 4 (samplings ch evs m1)); try lia; reflexivity.
Qed.

Lemma bounced_reachable : reachable bounced.
Proof.
  apply (reachable_run
           [Tick 0 0; Tick 255 255; Tick 255 255; Tick 255 255; Tick 255 255]
           led0 bounced
           [Scan BufB 0 0; Scan BufB 1 0; Scan BufB 2 0; Scan BufB 3 0;
            Scan BufB 4 0]);
    [apply led0_reachable|vm_compute; reflexivity].
Qed.

Lemma debounce_stability_witness :
  ∃ m1 o1 m2 o2,
    step (Tick 0 0) led0 = Some (m1, o1) ∧
    run (replicate 20 (Tick 0 0)) m1 = Some (m2, o2) ∧
    aget (buttonDebounceCounters (btn (st m1))) 0 = Some 0 ∧
    debounced 0 m1 = Some 0 ∧
    debounced 0 m2 =
      Some (if (samplings 0 (replicate 20 (Tick 0 0)) m1 <? 4)%nat
            then 0 else 1) ∧
    changes 0 (replicate 20 (Tick 0 0)) m1 =
      (if (4 <=? samplings 0 (replicate 20 (Tick 0 0)) m1)%nat
          && negb (0 =? 1)
       then 1%nat else 0%nat).
Proof.
  do 4 eexists. split; [vm_compute; reflexivity|].
  split; [vm_compute; reflexivity|].
  eapply (debounce_stability led0 0 0 _ _ 0 1 0 0 (replicate 20 (Tick 0 0)));
    [just_booted AF_LEDDISPLAY led0|vm_compute; reflexivity|reflexivity|reflexivity
    |reflexivity|lia|reflexivity|vm_compute; reflexivity
    |vm_compute; reflexivity].
Defined.

(** The claim as stated fails: after a bounce (pressed for one sampling)
    the sample of button S1 changes back to released and holds for four
    re-samplings, yet the committed state, released all along, does not
    change at all. *)
Lemma debounce_stability_counterexample :
  ¬ (∀ m PINC PINB m1 o1 ch v old evs m2 o2,
       reachable m →
       step (Tick PINC PINB) m = Some (m1, o1) →
       button (btn (st m)) = ch →
       tick_sample (Tick PINC PINB) m = Some v →
       aget (trueButtonStates (btn (st m))) ch = Some old → old ≠ v →
       run evs m1 = Some (m2, o2) → holds ch v evs m1 = true →
       (4 <= samplings ch evs m1)%nat →
       changes ch evs m1 = 1%nat).
Proof.
  intros H.
  assert (changes 0 (replicate 20 (Tick 255 255)) released = 1%nat) as Hone.
  { eapply (H bounced 255 255 released _ 0 0 1 (replicate 20 (Tick 255 255)));
      [apply bounced_reachable|vm_compute; reflexivity|reflexivity
      |reflexivity|reflexivity|lia|vm_compute; reflexivity
      |vm_compute; reflexivity|vm_compute; lia]. }
  vm_compute in Hone. discriminate.
Qed.

(** ** The tick counter *)

(** C7 (as the code does it) -- [getTicks()] returns the snapshot taken by
    the last [swap]: it does not move between two calls of [swap], whatever
    fires in between; [swap] stores the live counter in it and resets the
    live counter to zero, which then counts the interrupts since that
    exchange (wrapping as a 16-bit [int]); so after the next [swap]
    [getTicks()] is the number of interrupts that fired between the two
    exchanges, not the number that fired since the last one. *)
Theorem getTicks_snapshot m :
  reachable m →
  (∀ evs m' out,
     no_swap evs = true → run evs m = Some (m', out) →
     AberLED.getTicks (st m') = AberLED.getTicks (st m)) ∧
  (∀ m1 o1,
     step (Call CSwap) m = Some (m1, o1) →
     AberLED.getTicks (st m1) = interruptTicks (st m) ∧
     interruptTicks (st m1) = 0 ∧
     ∀ evs m2 out,
       no_swap evs = true → run evs m1 = Some (m2, out) →
       interruptTicks (st m2) = s16 (Z.of_nat (count_ticks evs)) ∧
       AberLED.getTicks (st m2) = interruptTicks (st m) ∧
       ∀ m3 o3,
         step (Call CSwap) m2 = Some (m3, o3) →
         ∀ evs' m4 out',
           no_swap evs' = true → run evs' m3 = Some (m4, out') →
           AberLED.getTicks (st m4) = s16 (Z.of_nat (count_ticks evs))).
Proof.
  intros Hm. pose proof (reachable_wf _ Hm) as Hwf.
  unfold AberLED.getTicks. split.
  - intros evs m' out Hns Hrun.
    by destruct (run_frame _ _ _ _ Hwf Hns Hrun) as (_ & _ & _ & _ & _ & ? & _).
  - intros m1 o1 [_ [Hcrit _]]%step_swap_inv.
    destruct (swap_critical_spec _ Hwf)
      as (s1 & o & Hs & Hwf1 & _ & _ & Ht & Hit & _).
    rewrite Hcrit in Hs. injection Hs as <- _.
    split_and!; try done.
    intros evs m2 out Hns Hrun.
    pose proof (run_wf _ _ _ _ Hwf1 Hrun) as Hwf2.
    destruct (run_frame _ _ _ _ Hwf1 Hns Hrun)
      as (_ & _ & _ & _ & _ & Ht2 & _ & Hit2 & _).
    rewrite Hit, count_from_zero in Hit2.
    split_and!; try congruence.
    intros m3 o3 [_ [Hcrit3 _]]%step_swap_inv.
    destruct (swap_critical_spec _ Hwf2)
      as (s3 & o' & Hs3 & Hwf3 & _ & _ & Ht3 & _).
    rewrite Hcrit3 in Hs3. injection Hs3 as <- _.
    intros evs' m4 out' Hns' Hrun'.
    destruct (run_frame _ _ _ _ Hwf3 Hns' Hrun')
      as (_ & _ & _ & _ & _ & Ht4 & _).
    congruence.
Qed.

Lemma getTicks_snapshot_witness :
  (∀ evs m' out,
     no_swap evs = true → run evs led0 = Some (m', out) →
     AberLED.getTicks (st m') = AberLED.getTicks (st led0)) ∧
  (∀ m1 o1,
     step (Call CSwap) led0 = Some (m1, o1) →
     AberLED.getTicks (st m1) = interruptTicks (st led0) ∧
     interruptTicks (st m1) = 0 ∧
     ∀ evs m2 out,
       no_swap evs = true → run evs m1 = Some (m2, out) →
       interruptTicks (st m2) = s16 (Z.of_nat (count_ticks evs)) ∧
       AberLED.getTicks (st m2) = interruptTicks (st led0) ∧
       ∀ m3 o3,
         step (Call CSwap) m2 = Some (m3, o3) →
         ∀ evs' m4 out',
           no_swap evs' = true → run evs' m3 = Some (m4, out') →
           AberLED.getTicks (st m4) = s16 (Z.of_nat (count_ticks evs))).
Proof. apply (getTicks_snapshot led0). just_booted AF_LEDDISPLAY led0. Defined.

(** The claim as stated fails: two interrupts after a [swap], [getTicks()]
    still returns the snapshot 0, not 2. *)
Lemma getTicks_snapshot_counterexample :
  ¬ (∀ m m1 o1 evs m2 out,
       reachable m → step (Call CSwap) m = Some (m1, o1) →
       no_swap evs = true → run evs m1 = Some (m2, out) →
       AberLED.getTicks (st m2) = Z.of_nat (count_ticks evs)).
Proof.
  intros H.
  destruct (step (Call CSwap) led0) as [[m1 o1]|] eqn:E1;
    [|vm_compute in E1; discriminate].
  destruct (run [Tick 255 255; Tick 255 255; Poll] m1) as [[m2 o2]|] eqn:E2;
    [|vm_compute in E1; injection E1 as <- _; vm_compute in E2; discriminate].
  specialize (H led0 m1 o1 [Tick 255 255; Tick 255 255; Poll] m2 o2
                led0_reachable E1 eq_refl E2).
  vm_compute in E1. injection E1 as <- _.
  vm_compute in E2. injection E2 as <- _.
  vm_compute in H. discriminate.
Qed.

(** ** The text overlay *)

(** C8 (as the code does it) -- without the TFT, [clearText] and both
    [addToText] return with the state untouched.  With the TFT, [clearText]
    empties the pending text, and [addToText(str)] appends the characters of
    [str] exactly when [strlen(txtBuffer) + strlen(str) + 1 < 32], that is
    when text, addition and terminator take at most 31 of the 32 bytes;
    otherwise it leaves the state, and so every byte of the pending buffer,
    as it was. *)
Theorem text_overlay m str k :
  reachable m → strlen str = Some k →
  (isTFT (st m) = false →
     AberLED.clearText (st m) = Some (st m) ∧
     AberLED.addToText str (st m) = Some (st m) ∧
     ∀ n, AberLED.addToText_int n (st m) = Some (st m)) ∧
  (isTFT (st m) = true →
     ∃ n t,
       strlen (txtBuffer (st m)) = Some n ∧
       cstring (txtBuffer (st m)) = Some t ∧
       (∃ s0, AberLED.clearText (st m) = Some s0 ∧
              cstring (txtBuffer s0) = Some []) ∧
       ((n + k + 1 < MAXTEXTLEN)%nat →
          ∃ s', AberLED.addToText str (st m) = Some s' ∧
                cstring (txtBuffer s') = Some (t ++ take k str) ∧
                length (txtBuffer s') = MAXTEXTLEN) ∧
       ((MAXTEXTLEN <= n + k + 1)%nat →
          AberLED.addToText str (st m) = Some (st m))).
Proof.
  intros Hm Hk. pose proof (reachable_wf _ Hm) as Hwf.
  pose proof Hwf as (_ & _ & [Lt [n Hn]] & _).
  split.
  - intros Hled.
    unfold AberLED.addToText_int, AberLED.clearText, AberLED.addToText.
    by rewrite Hled.
  - intros Htft. exists n, (take n (txtBuffer (st m))).
    unfold AberLED.clearText, AberLED.addToText, cstring.
    rewrite Htft, Hn. simpl. rewrite Hk. simpl.
    split_and!; try done.
    + destruct (clear_first_wf (txtBuffer (st m))) as (r & -> & _ & Hr);
        [split; eauto|].
      simpl. eexists. split; [done|]. simpl. by rewrite Hr.
    + intros Hfit.
      destruct (Nat.ltb_spec (n + k + 1) MAXTEXTLEN); [|lia].
      destruct (strcat_spec (txtBuffer (st m)) str n k Hn Hk)
        as (r & -> & Lr & Sr & Cr); [lia|].
      simpl. eexists. split; [done|]. simpl.
      unfold cstring in Cr. rewrite Sr in *. simpl in Cr.
      split; [done|congruence].
    + intros Hfull.
      by destruct (Nat.ltb_spec (n + k + 1) MAXTEXTLEN); [lia|].
Qed.

Lemma text_overlay_witness :
  (isTFT (st tft0) = false →
     AberLED.clearText (st tft0) = Some (st tft0) ∧
     AberLED.addToText [83; 99; 111; 114; 101; 58; 32; 0] (st tft0)
       = Some (st tft0) ∧
     ∀ n, AberLED.addToText_int n (st tft0) = Some (st tft0)) ∧
  (isTFT (st tft0) = true →
     ∃ n t,
       strlen (txtBuffer (st tft0)) = Some n ∧
       cstring (txtBuffer (st tft0)) = Some t ∧
       (∃ s0, AberLED.clearText (st tft0) = Some s0 ∧
              cstring (txtBuffer s0) = Some []) ∧
       ((n + 7 + 1 < MAXTEXTLEN)%nat →
          ∃ s', AberLED.addToText [83; 99; 111; 114; 101; 58; 32; 0] (st tft0)
                  = Some s' ∧
                cstring (txtBuffer s') =
                  Some (t ++ take 7 [83; 99; 111; 114; 101; 58; 32; 0]) ∧
                length (txtBuffer s') = MAXTEXTLEN) ∧
       ((MAXTEXTLEN <= n + 7 + 1)%nat →
          AberLED.addToText [83; 99; 111; 114; 101; 58; 32; 0] (st tft0)
            = Some (st tft0))).
Proof.
  apply (text_overlay tft0 [83; 99; 111; 114; 101; 58; 32; 0] 7);
    [just_booted (AF_TFTDISPLAY + AF_NOINTERRUPT) tft0|reflexivity].
Defined.

(** The claim as stated fails: 31 characters and the terminator fit the 32
    bytes of the empty buffer exactly, yet the addition is dropped. *)
Lemma text_overlay_counterexample :
  ¬ (∀ m str n k t,
       reachable m → isTFT (st m) = true →
       strlen (txtBuffer (st m)) = Some n →
       cstring (txtBuffer (st m)) = Some t →
       strlen str = Some k →
       (n + k + 1 <= MAXTEXTLEN)%nat →
       ∃ s', AberLED.addToText str (st m) = Some s' ∧
             cstring (txtBuffer s') = Some (t ++ take k str)).
Proof.
  intros H.
  assert (0 + 31 + 1 <= MAXTEXTLEN)%nat as Hfit by (unfold MAXTEXTLEN; lia).
  destruct (H tft0 (replicate 31 97 ++ [0]) 0%nat 31%nat [] tft0_reachable
              eq_refl eq_refl eq_refl eq_refl Hfit) as (s' & Hs' & Hc).
  vm_compute in Hs'. injection Hs' as <-. vm_compute in Hc. discriminate.
Qed.

(** The example of the specification: "Score: " and then 42. *)
Example score_42 :
  ∃ m out,
    run [Call (CAddToText [83; 99; 111; 114; 101; 58; 32; 0]);
         Call (CAddToTextInt 42)] tft0 = Some (m, out) ∧
    cstring (txtBuffer (st m)) = Some [83; 99; 111; 114; 101; 58; 32; 52; 50].
Proof. do 2 eexists. split; vm_compute; reflexivity. Qed.

(** ** The button queries *)

(** C10 -- the button index: [getButton(c)] and [getButtonDown(c)] read
    element c-1 of five; the read is inside the array exactly when
    1 <= c <= 5, and for c = 0 or c >= 6 it is outside; for 1 <= c <= 5
    both return, until the next [swap], what the last [swap] copied: the
    debounced state and the went-down flag of channel c-1 at that time. *)
Theorem button_index m :
  reachable m →
  (∀ c, 1 <= c <= 5 →
     ∃ v d, AberLED.getButton c (st m) = Some v ∧
            AberLED.getButtonDown c (st m) = Some d) ∧
  (∀ c, c = 0 ∨ 6 <= c →
     AberLED.getButton c (st m) = None ∧
     AberLED.getButtonDown c (st m) = None) ∧
  (∀ c, is_Some (AberLED.getButton c (st m)) ↔ 1 <= c <= 5) ∧
  (∀ c, is_Some (AberLED.getButtonDown c (st m)) ↔ 1 <= c <= 5) ∧
  (∀ m1 o1 evs m2 out c,
     step (Call CSwap) m = Some (m1, o1) →
     no_swap evs = true → run evs m1 = Some (m2, out) →
     AberLED.getButton c (st m2) =
       aget (debouncedButtonStates (btn (st m))) (c - 1) ∧
     AberLED.getButtonDown c (st m2) =
       aget (buttonWentDown (btn (st m))) (c - 1)).
Proof.
  intros Hm. pose proof (reachable_wf _ Hm) as Hwf.
  pose proof Hwf as (_ & (L1 & _ & _ & _ & L5 & _) & _).
  unfold AberLED.getButton, AberLED.getButtonDown.
  assert (∀ (a : list Z) c, length a = 5%nat →
            is_Some (aget a (c - 1)) ↔ 1 <= c <= 5) as Hiff.
  { intros a c La. split.
    - intros [v Hv]. apply aget_Some_range in Hv. lia.
    - intros Hc. apply aget_in_range. lia. }
  split_and!.
  - intros c Hc.
    destruct (proj2 (Hiff _ c L1) Hc) as [v ->].
    destruct (proj2 (Hiff _ c L5) Hc) as [d ->]. eauto.
  - intros c Hc. split; apply aget_out_of_range; lia.
  - intros c. by apply Hiff.
  - intros c. by apply Hiff.
  - intros m1 o1 evs m2 out c [_ [Hcrit _]]%step_swap_inv Hns Hrun.
    destruct (swap_critical_spec _ Hwf) as (s1 & o & Hs & Hwf1 & _ & Hb & _).
    rewrite Hcrit in Hs. injection Hs as <- _.
    destruct (run_frame _ _ _ _ Hwf1 Hns Hrun)
      as (_ & _ & _ & Hbs & Hwl & _).
    by rewrite Hbs, Hwl, Hb.
Qed.

Lemma button_index_witness :
  (∀ c, 1 <= c <= 5 →
     ∃ v d, AberLED.getButton c (st led0) = Some v ∧
            AberLED.getButtonDown c (st led0) = Some d) ∧
  (∀ c, c = 0 ∨ 6 <= c →
     AberLED.getButton c (st led0) = None ∧
     AberLED.getButtonDown c (st led0) = None) ∧
  (∀ c, is_Some (AberLED.getButton c (st led0)) ↔ 1 <= c <= 5) ∧
  (∀ c, is_Some (AberLED.getButtonDown c (st led0)) ↔ 1 <= c <= 5) ∧
  (∀ m1 o1 evs m2 out c,
     step (Call CSwap) led0 = Some (m1, o1) →
     no_swap evs = true → run evs m1 = Some (m2, out) →
     AberLED.getButton c (st m2) =
       aget (debouncedButtonStates (btn (st led0))) (c - 1) ∧
     AberLED.getButtonDown c (st m2) =
       aget (buttonWentDown (btn (st led0))) (c - 1)).
Proof. apply (button_index led0). just_booted AF_LEDDISPLAY led0. Defined.

(** * Further properties of the library *)

(** ** Drawing *)

Lemma load_deref p y f a :
  deref p f = Some a → load p y f = aget a y.
Proof. intros H. unfold load. by rewrite H. Qed.

Lemma pixel_zero x : pixel 0 x = 0.
Proof. unfold pixel. by rewrite Z.shiftr_0_l. Qed.

(** X1 -- [clear()] always runs in a reachable state; afterwards each of the
    eight rows of the back buffer reads 0, so every pixel is BLACK, while
    the pointers and the visible buffer are as before. *)
Theorem clear_blanks m :
  reachable m →
  ∃ s', AberLED.clear (st m) = Some s' ∧
        AberLED.getBuffer s' = AberLED.getBuffer (st m) ∧
        frontBuffer (fs s') = frontBuffer (fs (st m)) ∧
        (∀ y, 0 <= y < 8 → back_row y s' = Some 0) ∧
        (∀ x y, 0 <= y < 8 →
           ∃ w, back_row y s' = Some w ∧ pixel w x = BLACK) ∧
        visible s' = visible (st m).
Proof.
  intros Hm. apply reachable_wf in Hm.
  destruct (clear_spec _ Hm) as (f' & Hc & _ & Hb & Hf & Hz & Hv).
  assert (∀ y, 0 <= y < 8 → back_row y (with_fs f' (st m)) = Some 0) as Hrow.
  { intros y Hy. unfold back_row, AberLED.getBuffer. simpl. rewrite Hb.
    rewrite (load_deref _ _ _ _ Hz). unfold aget.
    destruct (Z.ltb_spec y 0); [lia|]. apply lookup_replicate_2. lia. }
  exists (with_fs f' (st m)). unfold visible, AberLED.getBuffer. simpl.
  rewrite Hf. split_and!; try done.
  intros x y Hy. exists 0. split; [by apply Hrow|apply pixel_zero].
Qed.

Lemma clear_blanks_witness :
  ∃ s', AberLED.clear (st led0) = Some s' ∧
        AberLED.getBuffer s' = AberLED.getBuffer (st led0) ∧
        frontBuffer (fs s') = frontBuffer (fs (st led0)) ∧
        (∀ y, 0 <= y < 8 → back_row y s' = Some 0) ∧
        (∀ x y, 0 <= y < 8 →
           ∃ w, back_row y s' = Some w ∧ pixel w x = BLACK) ∧
        visible s' = visible (st led0).
Proof. apply (clear_blanks led0). just_booted AF_LEDDISPLAY led0. Defined.

Lemma u16_range z : 0 <= u16 z < 2 ^ 16.
Proof. unfold u16. apply Z.mod_pos_bound. lia. Qed.

Lemma set_row_eq x col col' w w' :
  0 <= x →
  (∀ i, 0 <= i < 16 →
     Z.testbit (set_row x col w) i = Z.testbit (set_row x col' w') i) →
  set_row x col w = set_row x col' w'.
Proof.
  intros Hx H. apply Z.bits_inj'. intros i Hi.
  destruct (Z.lt_ge_cases i 16); [apply H; lia|].
  rewrite !(testbit_small _ 16 i); try lia; apply u16_range.
Qed.

Lemma colour_bit_outside col k : 0 <= col < 4 → k < 0 ∨ 2 <= k → Z.testbit col k = false.
Proof.
  intros Hc [Hk|Hk]; [by apply Z.testbit_neg_r|].
  apply (testbit_small col 2); lia.
Qed.

(** Writing a pixel twice: the second write wins, when the first colour was
    a 2-bit colour. *)
Lemma set_row_overwrite x c1 c2 w :
  0 <= x → 0 <= c1 < 4 →
  set_row x c2 (set_row x c1 w) = set_row x c2 w.
Proof.
  intros Hx Hc. apply set_row_eq; [done|]. intros i Hi.
  rewrite !set_row_testbit by lia.
  destruct ((i =? x * 2) || (i =? x * 2 + 1)) eqn:E; simpl.
  - by rewrite !andb_false_r.
  - rewrite !andb_true_r.
    rewrite (colour_bit_outside c1 (i - x * 2)), orb_false_r; [done|done|].
    apply orb_false_iff in E as [E0 E1]. lia.
Qed.

(** Writes to two different pixels of a row can be done in either order. *)
Lemma set_row_commute x x' c c' w :
  0 <= x < 8 → 0 <= x' < 8 → x ≠ x' → 0 <= c < 4 → 0 <= c' < 4 →
  set_row x c (set_row x' c' w) = set_row x' c' (set_row x c w).
Proof.
  intros Hx Hx' Hne Hc Hc'.
  apply Z.bits_inj'. intros i Hi.
  destruct (Z.lt_ge_cases i 16) as [Hlt|Hge].
  2: { rewrite !(testbit_small _ 16 i); try lia; apply u16_range. }
  rewrite !set_row_testbit by lia.
  destruct (Z.eqb_spec i (x * 2)), (Z.eqb_spec i (x * 2 + 1)),
    (Z.eqb_spec i (x' * 2)), (Z.eqb_spec i (x' * 2 + 1)); try lia; simpl;
    rewrite ?andb_false_r, ?andb_true_r, ?orb_false_r; simpl.
  all: try (rewrite (colour_bit_outside c' (i - x' * 2)) by (done || lia)).
  all: try (rewrite (colour_bit_outside c (i - x * 2)) by (done || lia)).
  all: rewrite ?orb_false_r, ?andb_false_r, ?andb_true_r; try done.
  all: by destruct (Z.testbit w i), (Z.testbit c (i - x * 2)),
         (Z.testbit c' (i - x' * 2)).
Qed.

Lemma store_commute p i j v v' f f1 f2 :
  i ≠ j → store p i v f = Some f1 → store p j v' f = Some f2 →
  store p j v' f1 = store p i v f2.
Proof.
  intros Hne. destruct p; simpl; [done| |].
  all: destruct (aset _ i v) as [a|] eqn:E1; simpl; [|done].
  all: destruct (aset _ j v') as [b|] eqn:E2; simpl; [|done].
  all: intros [= <-] [= <-]; simpl.
  all: apply aset_Some in E1 as [Hi ->]; apply aset_Some in E2 as [Hj ->].
  all: rewrite !aset_in_range by (rewrite ?length_insert; lia); simpl.
  all: rewrite list_insert_insert_ne by lia; done.
Qed.

(** What [set] leaves, spelled out on the frame store. *)
Lemma set_as_store x y col s s' :
  wf s → 0 <= x < 8 → 0 <= y < 8 → AberLED.set x y col s = Some s' →
  ∃ w f', back_row y s = Some w ∧
          store (backBuffer (fs s)) y (set_row x col w) (fs s) = Some f' ∧
          s' = with_fs f' s ∧ wf s' ∧
          backBuffer f' = backBuffer (fs s) ∧
          back_row y s' = Some (set_row x col w) ∧
          ∀ y', y' ≠ y → back_row y' s' = back_row y' s.
Proof.
  intros Hwf Hx Hy Hs.
  destruct (set_effect s x y col Hwf Hx Hy) as (s1 & w & Hs1 & Hw & _ & Hw' & Hr & _).
  destruct (set_in_range x y col s (proj1 Hwf) Hx Hy) as (w0 & f' & Hw0 & Hst & Hset).
  rewrite Hs in Hs1, Hset. injection Hs1 as <-. injection Hset as ->.
  rewrite Hw in Hw0. injection Hw0 as <-.
  exists w, f'. split_and!; try done.
  - by apply (set_wf x y col s).
  - by destruct (store_Some _ _ _ _ _ Hst) as (? & _).
Qed.

(** X2 -- the last write to a pixel wins: after [set(x,y,c1)] with a colour
    0..3, [set(x,y,c2)] leaves exactly the state that [set(x,y,c2)] alone
    leaves, for any [c2]. *)
Theorem set_overwrite m x y c1 c2 :
  reachable m → 0 <= x < 8 → 0 <= y < 8 → 0 <= c1 <= 3 →
  ∃ s1 s2,
    AberLED.set x y c1 (st m) = Some s1 ∧
    AberLED.set x y c2 s1 = Some s2 ∧
    AberLED.set x y c2 (st m) = Some s2.
Proof.
  intros Hm Hx Hy Hc. apply reachable_wf in Hm.
  destruct (set_total x y c1 _ Hm) as [s1 Hs1].
  destruct (set_as_store _ _ _ _ _ Hm Hx Hy Hs1)
    as (w & f1 & Hw & Hst1 & -> & Hwf1 & Hb1 & Hw1 & _).
  destruct (set_total x y c2 _ Hwf1) as [s2 Hs2].
  destruct (set_as_store _ _ _ _ _ Hwf1 Hx Hy Hs2)
    as (w1 & f2 & Hw1' & Hst2 & -> & _).
  rewrite Hw1 in Hw1'. injection Hw1' as <-.
  destruct (set_total x y c2 _ Hm) as [s3 Hs3].
  destruct (set_as_store _ _ _ _ _ Hm Hx Hy Hs3)
    as (w' & f3 & Hw' & Hst3 & -> & _).
  rewrite Hw in Hw'. injection Hw' as <-.
  simpl in Hst2. rewrite Hb1, (store_store _ _ _ _ _ _ Hst1) in Hst2.
  rewrite set_row_overwrite, Hst3 in Hst2 by lia. injection Hst2 as <-.
  eexists _, _. split_and!; try done.
Qed.

Lemma set_overwrite_witness :
  ∃ s1 s2,
    AberLED.set 3 2 RED (st led0) = Some s1 ∧
    AberLED.set 3 2 GREEN s1 = Some s2 ∧
    AberLED.set 3 2 GREEN (st led0) = Some s2.
Proof.
  apply (set_overwrite led0 3 2 RED GREEN);
    [just_booted AF_LEDDISPLAY led0|lia|lia|unfold RED; lia].
Defined.

(** X3 -- writes to two different pixels commute: with 2-bit colours,
    [set(x,y,c)] then [set(x',y',c')] leaves the same state as the two
    calls in the other order. *)
Theorem set_commute m x y c x' y' c' :
  reachable m →
  0 <= x < 8 → 0 <= y < 8 → 0 <= x' < 8 → 0 <= y' < 8 →
  x ≠ x' ∨ y ≠ y' → 0 <= c <= 3 → 0 <= c' <= 3 →
  ∃ s1 s2 s3,
    AberLED.set x y c (st m) = Some s1 ∧
    AberLED.set x' y' c' s1 = Some s2 ∧
    AberLED.set x' y' c' (st m) = Some s3 ∧
    AberLED.set x y c s3 = Some s2.
Proof.
  intros Hm Hx Hy Hx' Hy' Hne Hc Hc'. apply reachable_wf in Hm.
  destruct (set_total x y c _ Hm) as [s1 Hs1].
  destruct (set_as_store _ _ _ _ _ Hm Hx Hy Hs1)
    as (w & f1 & Hw & Hst1 & -> & Hwf1 & Hb1 & Hw1 & Hr1).
  destruct (set_total x' y' c' _ Hwf1) as [s2 Hs2].
  destruct (set_as_store _ _ _ _ _ Hwf1 Hx' Hy' Hs2)
    as (v & f2 & Hv & Hst2 & -> & _).
  destruct (set_total x' y' c' _ Hm) as [s3 Hs3].
  destruct (set_as_store _ _ _ _ _ Hm Hx' Hy' Hs3)
    as (w' & f3 & Hw' & Hst3 & -> & Hwf3 & Hb3 & Hw3 & Hr3).
  destruct (set_total x y c _ Hwf3) as [s4 Hs4].
  destruct (set_as_store _ _ _ _ _ Hwf3 Hx Hy Hs4)
    as (v' & f4 & Hv' & Hst4 & -> & _).
  exists (with_fs f1 (st m)), (with_fs f2 (with_fs f1 (st m))),
    (with_fs f3 (st m)).
  split_and!; try done. rewrite Hs4.
  change (Some (with_fs f4 (st m)) = Some (with_fs f2 (st m))).
  simpl in Hst2, Hst4. rewrite Hb1 in Hst2. rewrite Hb3 in Hst4.
  assert (Some f4 = Some f2) as Heq; [|by injection Heq as ->].
  rewrite <- Hst2, <- Hst4.
  destruct (Z.eq_dec y y') as [<-|Hyy].
  - assert (x ≠ x') as Hxx by (destruct Hne; done).
    rewrite Hw1 in Hv. injection Hv as <-.
    rewrite Hw3 in Hv'. injection Hv' as <-.
    rewrite Hw in Hw'. injection Hw' as <-.
    rewrite (store_store _ _ _ _ _ _ Hst1), (store_store _ _ _ _ _ _ Hst3).
    f_equal. apply set_row_commute; lia.
  - rewrite Hr1, Hw' in Hv by done. injection Hv as <-.
    rewrite Hr3, Hw in Hv' by done. injection Hv' as <-.
    symmetry. by apply (store_commute _ _ _ _ _ (fs (st m))).
Qed.

Lemma set_commute_witness :
  ∃ s1 s2 s3,
    AberLED.set 3 2 RED (st led0) = Some s1 ∧
    AberLED.set 4 2 GREEN s1 = Some s2 ∧
    AberLED.set 4 2 GREEN (st led0) = Some s3 ∧
    AberLED.set 3 2 RED s3 = Some s2.
Proof.
  apply (set_commute led0 3 2 RED 4 2 GREEN);
    [just_booted AF_LEDDISPLAY led0|lia|lia|lia|lia|lia
    |unfold RED; lia|unfold GREEN; lia].
Defined.

(** ** What the display is handed *)

Lemma ISR_scan PINC PINB s s' out :
  wf s → AberLED.ISR PINC PINB s = Some (s', out) →
  ∃ v, load (frontBuffer (fs s)) (refrow s) (fs s) = Some v ∧
       out = [Scan (frontBuffer (fs s)) (refrow s) v].
Proof.
  intros Hwf. unfold AberLED.ISR.
  set (s1 := with_ticks (ticks s) (s16 (interruptTicks s + 1)) s).
  assert (wf s1) as Hwf1 by done.
  destruct (refreshNextRow_spec s1 Hwf1) as (v & Hv & ->). simpl.
  destruct (AberLED.sample (btn s) PINC PINB) as [smp|]; simpl; [|done].
  destruct (AberLED.debounce smp (btn s)) as [b|]; simpl; [|done].
  intros [= <- <-]. eauto.
Qed.

Lemma refresh_scans s rows :
  wf s → visible s = Some rows →
  AberLED.refresh s =
  Some (with_refrow 0 s,
        zip_with (Scan (frontBuffer (fs s))) [0; 1; 2; 3; 4; 5; 6; 7] rows).
Proof.
  intros ((LA & LB & Hptr) & _). unfold visible.
  destruct s as [k f b t ir it tft pt tx r]. destruct f as [A B bk fr].
  simpl in *.
  destruct (length_8 _ LA) as (a0 & a1 & a2 & a3 & a4 & a5 & a6 & a7 & ->).
  destruct (length_8 _ LB) as (b0 & b1 & b2 & b3 & b4 & b5 & b6 & b7 & ->).
  destruct Hptr as [[-> ->]|[-> ->]]; simpl; intros [= <-];
    vm_compute; reflexivity.
Qed.

Lemma do_call_quiet c s s' out :
  do_call c s = Some (s', out) → c ≠ CSwap → c ≠ CRefresh → out = [].
Proof.
  destruct c; simpl; try done.
  - destruct (AberLED.set x y col s); simpl; [|done]. by intros [= _ <-].
  - destruct (AberLED.clear s); simpl; [|done]. by intros [= _ <-].
  - destruct (AberLED.clearText s); simpl; [|done]. by intros [= _ <-].
  - destruct (AberLED.addToText str s); simpl; [|done]. by intros [= _ <-].
  - destruct (AberLED.addToText_int n s); simpl; [|done]. by intros [= _ <-].
  - by intros [= _ <-].
Qed.

Lemma zip_scan_ok p rows (idx : list Z) :
  (∀ i r, idx !! i = Some r → r = Z.of_nat i) →
  Forall (scan_ok rows) (zip_with (Scan p) idx rows).
Proof.
  intros Hidx. apply Forall_lookup. intros i o Ho.
  apply lookup_zip_with_Some in Ho as (r & w & -> & Hr & Hw).
  apply Hidx in Hr as ->. simpl. unfold aget.
  destruct (Z.ltb_spec (Z.of_nat i) 0); [lia|]. by rewrite Nat2Z.id.
Qed.

(** Whatever a step other than a call of [swap] hands to the display is a
    row of the visible buffer. *)
Lemma step_scans e m m' out rows :
  wf (st m) → is_swap e = false → step e m = Some (m', out) →
  visible (st m) = Some rows → Forall (scan_ok rows) out.
Proof.
  intros Hwf Hns
    [(c & -> & _ & Hc & _)
    |[(-> & _ & _ & -> & _)|(p & q & -> & _ & Hi & _)]]%step_inv Hrows.
  - assert (c = CRefresh ∨ c ≠ CRefresh) as [->|Hnr]
      by (destruct c; auto; right; done).
    + simpl in Hc. destruct (interruptRunning (st m)); [done|].
      rewrite (refresh_scans _ rows Hwf Hrows) in Hc. injection Hc as _ <-.
      apply (zip_scan_ok _ rows [0; 1; 2; 3; 4; 5; 6; 7]). intros i r Hr.
      do 8 (destruct i as [|i]; [by injection Hr as <-|]). done.
    + rewrite (do_call_quiet _ _ _ _ Hc); [constructor| |done].
      by intros ->.
  - constructor.
  - destruct (ISR_scan _ _ _ _ _ Hwf Hi) as (v & Hv & ->).
    repeat constructor. simpl. unfold visible in Hrows.
    by rewrite (load_deref _ _ _ _ Hrows) in Hv.
Qed.

Lemma run_scans evs m m' out rows :
  wf (st m) → no_swap evs = true → run evs m = Some (m', out) →
  visible (st m) = Some rows → Forall (scan_ok rows) out.
Proof.
  revert m out. induction evs as [|e evs IH]; intros m out Hwf Hns.
  - simpl. intros [= <- <-] _. constructor.
  - rewrite run_cons. simpl in Hns. apply andb_true_iff in Hns as [He Hns].
    apply negb_true_iff in He.
    destruct (step e m) as [[m1 o1]|] eqn:E; simpl; [|done].
    destruct (run evs m1) as [[m2 o2]|] eqn:E2; simpl; [|done].
    intros [= <- <-] Hrows. apply Forall_app. split.
    + by apply (step_scans e m m1).
    + apply (IH m1); try done; [by apply (step_wf e m _ o1)|].
      destruct (step_frame _ _ _ _ Hwf He E) as (_ & _ & Hv & _). congruence.
Qed.

(** X4 -- what was drawn is what is shown: [set(x,y,col)] and then [swap()]
    always run from an idle application; the frame then visible has the
    colour [col] at pixel (x,y) (for a colour 0..3), and every row handed
    to the display from then until the next call of [swap] -- by the
    interrupt or by [refresh()] -- is the row of that frame at the scanned
    position. *)
Theorem drawn_is_shown m x y col :
  reachable m → app m = Idle →
  0 <= x < 8 → 0 <= y < 8 → 0 <= col <= 3 →
  ∃ m1 o1 rows w,
    run [Call (CSet x y col); Call CSwap] m = Some (m1, o1) ∧
    scanned o1 = [] ∧
    visible (st m1) = Some rows ∧
    aget rows y = Some w ∧ pixel w x = col ∧
    ∀ evs m2 out,
      no_swap evs = true → run evs m1 = Some (m2, out) →
      Forall (scan_ok rows) out.
Proof.
  intros Hm Ha Hx Hy Hc. pose proof (reachable_wf _ Hm) as Hwf.
  destruct (set_total x y col _ Hwf) as [s1 Hs1].
  destruct (set_as_store _ _ _ _ _ Hwf Hx Hy Hs1)
    as (w & f1 & Hw & Hst1 & -> & Hwf1 & Hb1 & Hw1 & _).
  set (s1 := with_fs f1 (st m)) in *.
  assert (step (Call (CSet x y col)) m = Some (Machine s1 Idle, [])) as E1.
  { unfold step. rewrite Ha. simpl. by rewrite Hs1. }
  destruct (step_swap (Machine s1 Idle) Hwf1 eq_refl) as (s2 & o2 & E2 & Hcrit).
  destruct (swap_critical_spec _ Hwf1)
    as (s2' & o2' & Hs & Hwf2 & Hsc & _ & _ & _ & Hfs & _).
  simpl in Hcrit. rewrite Hcrit in Hs. injection Hs as <- <-.
  destruct (proj1 Hwf2) as (LA & LB & Hptr).
  assert (∃ rows, visible s2 = Some rows) as [rows Hrows].
  { unfold visible. destruct Hptr as [[_ ->]|[_ ->]]; simpl; eauto. }
  eexists _, o2, rows, (set_row x col w).
  rewrite run_cons, E1. cbn [mbind option_bind].
  rewrite run_cons, E2. cbn [mbind option_bind run app].
  rewrite app_nil_r.
  split_and!; try done.
  - assert (deref (backBuffer (fs s1)) (fs s1) = Some rows) as Hd.
    { rewrite <- Hrows. unfold visible. rewrite Hfs. simpl.
      by destruct (backBuffer (fs s1)). }
    unfold back_row, AberLED.getBuffer in Hw1.
    by rewrite (load_deref _ _ _ _ Hd) in Hw1.
  - apply pixel_set_row_eq; lia.
  - intros evs m2 out Hns Hrun.
    eapply (run_scans evs _ m2 out rows); [|exact Hns|exact Hrun|exact Hrows].
    exact Hwf2.
Qed.

Lemma drawn_is_shown_witness :
  ∃ m1 o1 rows w,
    run [Call (CSet 3 2 RED); Call CSwap] led0 = Some (m1, o1) ∧
    scanned o1 = [] ∧
    visible (st m1) = Some rows ∧
    aget rows 2 = Some w ∧ pixel w 3 = RED ∧
    ∀ evs m2 out,
      no_swap evs = true → run evs m1 = Some (m2, out) →
      Forall (scan_ok rows) out.
Proof.
  apply (drawn_is_shown led0 3 2 RED);
    [just_booted AF_LEDDISPLAY led0|reflexivity|lia|lia|unfold RED; lia].
Defined.

(** ** The two cursors *)

Lemma seq_0_S {A} (f : nat → A) n :
  map f (seq 0 (S n)) = f 0%nat :: map (λ k, f (S k)) (seq 0 n).
Proof.
  simpl. f_equal. rewrite <- fmap_S_seq. by rewrite <- list_fmap_compose.
Qed.

(** A burst of interrupts: each fires, scans the row under the cursor and
    samples the button under the index, and both move on by one. *)
Lemma run_ticks pins s a :
  wf s → interruptRunning s = true →
  ∃ s' out,
    run (ticks_of pins) (Machine s a) = Some (Machine s' a, out) ∧
    wf s' ∧ fs s' = fs s ∧
    out = map (λ k, Scan (frontBuffer (fs s))
                      ((refrow s + Z.of_nat k) mod 8)
                      (default 0 (load (frontBuffer (fs s))
                                    ((refrow s + Z.of_nat k) mod 8) (fs s))))
              (seq 0 (length pins)) ∧
    refrow s' = (refrow s + Z.of_nat (length pins)) mod 8 ∧
    button (btn s') = (button (btn s) + Z.of_nat (length pins)) mod 5 ∧
    ∀ ch, samplings ch (ticks_of pins) (Machine s a) =
          length (filter (λ k, (button (btn s) + Z.of_nat k) mod 5 = ch)
                    (seq 0 (length pins))).
Proof.
  revert s. induction pins as [|[c b] pins IH]; intros s Hwf Hir.
  - exists s, []. simpl. pose proof Hwf as (_ & (_ & _ & _ & _ & _ & _ & Hb) & _ & _ & Hr).
    rewrite !Z.add_0_r, !Z.mod_small by lia. by split_and!.
  - destruct (ISR_spec c b s Hwf)
      as (s1 & v & smp & Hisr & Hwf1 & Hfs & _ & _ & _ & Hir1 & _ & _ & _
          & Hrow & _ & _ & Hdb).
    destruct (ISR_scan _ _ _ _ _ Hwf Hisr) as (v' & Hv' & _).
    destruct (debounce_channel smp _ (proj1 (proj2 Hwf)))
      as (b' & Hdb' & _ & Hbtn & _).
    rewrite Hdb in Hdb'. injection Hdb' as <-.
    assert (step (Tick c b) (Machine s a) = Some (Machine s1 a,
              [Scan (frontBuffer (fs s)) (refrow s) v])) as Hstep.
    { unfold step. simpl. rewrite Hir, Hisr. by destruct a. }
    destruct (IH s1 Hwf1) as (s' & out & Hrun & Hwf' & Hfs' & Hout & Hrow'
                               & Hbtn' & Hsmp); [congruence|].
    exists s', ([Scan (frontBuffer (fs s)) (refrow s) v] ++ out).
    change (ticks_of ((c, b) :: pins)) with (Tick c b :: ticks_of pins).
    rewrite run_cons, Hstep. cbn [mbind option_bind]. rewrite Hrun.
    cbn [mbind option_bind length samplings]. rewrite Hstep.
    pose proof Hwf as (_ & (_ & _ & _ & _ & _ & _ & Hb) & _ & _ & Hr).
    split_and!; try done; try congruence.
    + rewrite seq_0_S. simpl. f_equal.
      * change (Z.of_nat 0) with 0.
        rewrite Z.add_0_r, (Z.mod_small (refrow s) 8) by lia.
        destruct (ISR_scan _ _ _ _ _ Hwf Hisr) as (v'' & Hv'' & [= ->]).
        by rewrite Hv''.
      * rewrite Hout, Hfs, Hrow. apply map_ext. intros k.
        rewrite Zplus_mod_idemp_l.
        by replace (refrow s + 1 + Z.of_nat k)
             with (refrow s + Z.pos (Pos.of_succ_nat k)) by lia.
    + rewrite Hrow', Hrow, Zplus_mod_idemp_l. f_equal. lia.
    + rewrite Hbtn', Hbtn, Zplus_mod_idemp_l. f_equal. lia.
    + intros ch. rewrite Hsmp. unfold samples_channel. simpl.
      rewrite Hbtn.
      change (seq 0 (S (length pins))) with (0%nat :: seq 1 (length pins)).
      rewrite filter_cons, <- fmap_S_seq.
      change (Z.of_nat 0) with 0.
      rewrite Z.add_0_r, (Z.mod_small (button (btn s)) 5) by lia.
      assert (length (filter (λ k, (button (btn s) + Z.of_nat k) mod 5 = ch)
                        (S <$> seq 0 (length pins))) =
              length (filter
                        (λ k, ((button (btn s) + 1) mod 5 + Z.of_nat k) mod 5
                              = ch) (seq 0 (length pins)))) as Hlen.
      { generalize (seq 0 (length pins)). intros l.
        induction l as [|k l IHl]; [done|].
        rewrite fmap_cons, !filter_cons, Zplus_mod_idemp_l.
        replace (button (btn s) + Z.of_nat (S k))
          with (button (btn s) + 1 + Z.of_nat k) by lia.
        case_decide; simpl; by rewrite IHl. }
      destruct (Z.eqb_spec (button (btn s)) ch); case_decide; try done;
        simpl; by rewrite Hlen.
Qed.

Lemma index_8 i :
  0 <= i < 8 →
  i = 0 ∨ i = 1 ∨ i = 2 ∨ i = 3 ∨ i = 4 ∨ i = 5 ∨ i = 6 ∨ i = 7.
Proof. lia. Qed.

Lemma scanned_map_scan {A} (f : A → ptr * Z) (g : A → Z) (l : list A) :
  scanned (map (λ k, Scan (f k).1 (f k).2 (g k)) l) = map f l.
Proof.
  induction l as [|k l IH]; [done|]. simpl. unfold scanned in *. simpl.
  rewrite IH. by destruct (f k).
Qed.

(** X5 -- cursor wrap-around: with the interrupt running, eight firings in
    a row always run; they scan the rows r, r+1, ..., r+7 (mod 8) of the
    visible buffer, where r is the cursor at the start, so every row 0..7
    exactly once, and leave the cursor where it was. *)
Theorem cursor_wraparound m pins :
  reachable m → interruptRunning (st m) = true → length pins = 8%nat →
  ∃ m' out,
    run (ticks_of pins) m = Some (m', out) ∧
    refrow (st m') = refrow (st m) ∧
    scanned out =
      map (λ k, (frontBuffer (fs (st m)), (refrow (st m) + k) mod 8))
          [0; 1; 2; 3; 4; 5; 6; 7] ∧
    NoDup (map snd (scanned out)) ∧
    (∀ r, r ∈ map snd (scanned out) ↔ 0 <= r < 8).
Proof.
  intros Hm Hir Hlen. pose proof (reachable_wf _ Hm) as Hwf.
  destruct m as [s a]. simpl in *.
  destruct (run_ticks pins s a Hwf Hir)
    as (s' & out & Hrun & _ & _ & Hout & Hrow & _).
  rewrite Hlen in Hout, Hrow. exists (Machine s' a), out. simpl.
  pose proof Hwf as (_ & _ & _ & _ & Hr).
  assert (scanned out =
          map (λ k, (frontBuffer (fs s), (refrow s + k) mod 8))
            [0; 1; 2; 3; 4; 5; 6; 7]) as Hsc.
  { rewrite Hout.
    exact (scanned_map_scan
             (λ k, (frontBuffer (fs s), (refrow s + Z.of_nat k) mod 8))
             _ (seq 0 8)). }
  split_and!; try done.
  - rewrite Hrow. change (Z.of_nat 8) with (1 * 8).
    by rewrite Z.mod_add, Z.mod_small by lia.
  - rewrite Hsc. clear -Hr.
    apply index_8 in Hr as [->|[->|[->|[->|[->|[->|[->| ->]]]]]]];
      by apply (bool_decide_unpack _).
  - intros r. rewrite Hsc. clear -Hr.
    apply index_8 in Hr as [->|[->|[->|[->|[->|[->|[->| ->]]]]]]];
      match goal with |- context [map snd ?l] =>
        let l' := eval vm_compute in (map snd l) in
        change (map snd l) with l'
      end; rewrite !elem_of_cons, elem_of_nil; lia.
Qed.

Lemma cursor_wraparound_witness :
  ∃ m' out,
    run (ticks_of (replicate 8 (255, 255))) led0 = Some (m', out) ∧
    refrow (st m') = refrow (st led0) ∧
    scanned out =
      map (λ k, (frontBuffer (fs (st led0)), (refrow (st led0) + k) mod 8))
          [0; 1; 2; 3; 4; 5; 6; 7] ∧
    NoDup (map snd (scanned out)) ∧
    (∀ r, r ∈ map snd (scanned out) ↔ 0 <= r < 8).
Proof.
  apply (cursor_wraparound led0 (replicate 8 (255, 255)));
    [just_booted AF_LEDDISPLAY led0|reflexivity|reflexivity].
Defined.

(** X6 -- round-robin sampling: with the interrupt running, five firings in
    a row always run, sample each of the channels 0..4 exactly once (and
    nothing else) and bring the button index back to where it was. *)
Theorem round_robin m pins :
  reachable m → interruptRunning (st m) = true → length pins = 5%nat →
  ∃ m' out,
    run (ticks_of pins) m = Some (m', out) ∧
    button (btn (st m')) = button (btn (st m)) ∧
    ∀ ch, samplings ch (ticks_of pins) m =
          if (0 <=? ch) && (ch <? 5) then 1%nat else 0%nat.
Proof.
  intros Hm Hir Hlen. pose proof (reachable_wf _ Hm) as Hwf.
  destruct m as [s a]. simpl in *.
  destruct (run_ticks pins s a Hwf Hir)
    as (s' & out & Hrun & _ & _ & _ & _ & Hbtn & Hsmp).
  rewrite Hlen in Hbtn. exists (Machine s' a), out. simpl.
  pose proof Hwf as (_ & (_ & _ & _ & _ & _ & _ & Hb) & _).
  split_and!; try done.
  - rewrite Hbtn. change (Z.of_nat 5) with (1 * 5).
    by rewrite Z.mod_add, Z.mod_small by lia.
  - intros ch. rewrite Hsmp, Hlen. clear -Hb. cbn [seq].
    rewrite !filter_cons, filter_nil.
    destruct (Z.leb_spec 0 ch), (Z.ltb_spec ch 5); simpl.
    2-4: apply index_5 in Hb as [->|[->|[->|[->| ->]]]];
      repeat (case_decide;
              [match goal with
               | Hd : _ mod _ = _ |- _ => vm_compute in Hd; lia
               end|]);
      done.
    assert (0 <= ch < 5) as Hch by lia.
    apply index_5 in Hb as [->|[->|[->|[->| ->]]]];
      apply index_5 in Hch as [->|[->|[->|[->| ->]]]];
      reflexivity.
Qed.

Lemma round_robin_witness :
  ∃ m' out,
    run (ticks_of (replicate 5 (255, 255))) led0 = Some (m', out) ∧
    button (btn (st m')) = button (btn (st led0)) ∧
    ∀ ch, samplings ch (ticks_of (replicate 5 (255, 255))) led0 =
          if (0 <=? ch) && (ch <? 5) then 1%nat else 0%nat.
Proof.
  apply (round_robin led0 (replicate 5 (255, 255)));
    [just_booted AF_LEDDISPLAY led0|reflexivity|reflexivity].
Defined.

(** X7 -- manual refresh: from any cursor position [refresh()] scans the
    rows 0, 1, ..., 7 of the visible buffer in this order, each once and
    with the word the buffer holds, and changes nothing in the state but
    the cursor, which it leaves at 0. *)
Theorem refresh_all_rows m :
  reachable m →
  ∃ rows,
    visible (st m) = Some rows ∧ length rows = 8%nat ∧
    AberLED.refresh (st m) =
    Some (with_refrow 0 (st m),
          zip_with (Scan (frontBuffer (fs (st m))))
                   [0; 1; 2; 3; 4; 5; 6; 7] rows).
Proof.
  intros Hm. pose proof (reachable_wf _ Hm) as Hwf.
  pose proof Hwf as ((LA & LB & Hptr) & _).
  assert (∃ rows, visible (st m) = Some rows ∧ length rows = 8%nat)
    as (rows & Hrows & Hlen).
  { unfold visible. destruct Hptr as [[_ ->]|[_ ->]]; simpl; eauto. }
  exists rows. split_and!; try done. by apply refresh_scans.
Qed.

Lemma refresh_all_rows_witness :
  ∃ rows,
    visible (st tft0) = Some rows ∧ length rows = 8%nat ∧
    AberLED.refresh (st tft0) =
    Some (with_refrow 0 (st tft0),
          zip_with (Scan (frontBuffer (fs (st tft0))))
                   [0; 1; 2; 3; 4; 5; 6; 7] rows).
Proof.
  apply (refresh_all_rows tft0).
  just_booted (AF_TFTDISPLAY + AF_NOINTERRUPT) tft0.
Defined.


(** ** Invariants of the reachable states *)

(** Induction over the reachable states. *)
Lemma reachable_inv (P : machine → Prop) :
  (∀ flags m0, boot flags = Some m0 → P m0) →
  (∀ e m m' out, reachable m → P m → step e m = Some (m', out) → P m') →
  ∀ m, reachable m → P m.
Proof.
  intros Hboot Hstep m (flags & m0 & evs & out & Hb & Hrun).
  assert (reachable m0) as Hm0
    by (exists flags, m0, [], []; split; [exact Hb|reflexivity]).
  pose proof (Hboot _ _ Hb) as HP. clear Hb.
  revert m0 out Hm0 HP Hrun. induction evs as [|e evs IH]; intros m0 out Hm0 HP.
  - simpl. by intros [= <- _].
  - rewrite run_cons.
    destruct (step e m0) as [[m1 o1]|] eqn:E; simpl; [|done].
    destruct (run evs m1) as [[m2 o2]|] eqn:E2; simpl; [|done].
    intros [= <- _]. apply (IH m1 o2); [|by eapply Hstep|done].
    by eapply reachable_step.
Qed.

Lemma channel_step_ok v c :
  is_bit v → channel_ok c → channel_ok (channel_step v c).
Proof.
  intros Hv (Ht & Hc & Hd & Hw). unfold channel_step, channel_ok.
  destruct (negb (v =? ch_true c)); simpl.
  - split_and!; try done; try lia. destruct (negb (v =? 0)); [by right|done].
  - replace (u8 (ch_counter c + 1)) with (ch_counter c + 1)
      by (unfold u8; rewrite Z.mod_small; lia).
    destruct (Z.eqb_spec (ch_counter c + 1) 4); simpl; split_and!;
      try done; lia.
Qed.

(** The cells of an array are those of its five channels. *)
Lemma array_of_channels (P : Z → Prop) (a : list Z) :
  length a = 5%nat →
  (∀ ch v, 0 <= ch < 5 → aget a ch = Some v → P v) → Forall P a.
Proof.
  intros La H. apply Forall_lookup. intros i v Hi.
  apply (H (Z.of_nat i)).
  - apply lookup_lt_Some in Hi. lia.
  - unfold aget. destruct (Z.ltb_spec (Z.of_nat i) 0); [lia|].
    by rewrite Nat2Z.id.
Qed.

Lemma channels_of_array (P : Z → Prop) (a : list Z) ch v :
  Forall P a → aget a ch = Some v → P v.
Proof.
  intros Ha [_ Hv]%aget_Some. by eapply Forall_lookup_1.
Qed.

Lemma same_cells_channel_of b b' ch :
  trueButtonStates b' = trueButtonStates b →
  buttonDebounceCounters b' = buttonDebounceCounters b →
  debouncedButtonStates b' = debouncedButtonStates b →
  buttonWentDown b' = buttonWentDown b →
  channel_of b' ch = channel_of b ch.
Proof. intros Ht Hc Hd Hw. unfold channel_of. by rewrite Ht, Hc, Hd, Hw. Qed.

Lemma step_btn_ok e m m' out :
  wf (st m) → btn_ok (btn (st m)) → step e m = Some (m', out) →
  btn_ok (btn (st m')).
Proof.
  intros Hwf Hok Hstep. pose proof Hok as (Hch & Hbs & Hwl).
  pose proof Hwf as (_ & Hb & _).
  pose proof Hstep as
    [(c & -> & _ & Hc & _)
    |[(-> & _ & Hst & _)|(p & q & -> & _ & _)]]%step_inv.
  - assert (c = CSwap ∨ c ≠ CSwap) as [->|Hn]
      by (destruct c; auto; right; done).
    + destruct (swap_critical_spec _ Hwf) as (s' & o & Hs & _ & _ & Hb' & _).
      simpl in Hc. rewrite Hs in Hc. injection Hc as <- _. rewrite Hb'.
      pose proof Hb as (_ & L2 & _ & L4 & _ & L6 & _).
      split_and!; simpl.
      * intros ch c (Ht & Hn & Hd & Hw)%channel_of_Some. simpl in *.
        assert (0 <= ch < 5) as Hr by (apply aget_Some_range in Ht; lia).
        destruct (channel_of_total _ ch Hb Hr) as [c0 Hc0].
        destruct (Hch _ _ Hc0) as (Ht0 & Hn0 & Hd0 & _).
        apply channel_of_Some in Hc0 as (Ht' & Hn' & Hd' & _).
        assert (ch_true c = ch_true c0) as Et by congruence.
        assert (ch_counter c = ch_counter c0) as En by congruence.
        assert (ch_debounced c = ch_debounced c0) as Ed by congruence.
        unfold channel_ok. rewrite Et, En, Ed.
        split_and!; try done; try lia.
        apply (channels_of_array is_bit [0; 0; 0; 0; 0] ch); [|done].
        repeat constructor; by left.
      * apply array_of_channels; [done|]. intros ch v Hr Hv.
        destruct (channel_of_total _ ch Hb Hr) as [c0 Hc0].
        destruct (Hch _ _ Hc0) as (_ & _ & Hd0 & _).
        apply channel_of_Some in Hc0 as (_ & _ & Hd' & _).
        rewrite Hv in Hd'. by injection Hd' as ->.
      * apply array_of_channels; [done|]. intros ch v Hr Hv.
        destruct (channel_of_total _ ch Hb Hr) as [c0 Hc0].
        destruct (Hch _ _ Hc0) as (_ & _ & _ & Hw0).
        apply channel_of_Some in Hc0 as (_ & _ & _ & Hw').
        rewrite Hv in Hw'. by injection Hw' as ->.
    + destruct (do_call_frame _ _ _ _ Hwf Hn Hc)
        as (_ & _ & _ & _ & E1 & E2 & E3 & E4 & E5 & E6 & _).
      split_and!; [|by rewrite E1|by rewrite E5].
      intros ch c0.
      rewrite (same_cells_channel_of (btn (st m)) (btn (st m'))) by done.
      apply Hch.
  - by rewrite Hst.
  - destruct (step_frame (Tick p q) _ _ _ Hwf eq_refl Hstep)
      as (_ & _ & _ & E1 & E5 & _).
    split_and!; [|by rewrite E1|by rewrite E5].
    intros ch c1 Hc1.
    assert (0 <= ch < 5) as Hr.
    { apply channel_of_Some in Hc1 as (Ht & _).
      apply aget_Some_range in Ht.
      destruct (step_wf _ _ _ _ Hwf Hstep) as (_ & (_ & _ & _ & _ & _ & L & _) & _).
      lia. }
    destruct (channel_of_total _ (button (btn (st m))) Hb) as [cb Hcb];
      [apply Hb|].
    destruct (tick_channel _ _ _ _ _ cb Hwf Hstep Hcb)
      as (v & _ & Hv & _ & Hnew & Hother).
    destruct (Z.eq_dec ch (button (btn (st m)))) as [->|Hne].
    + rewrite Hnew in Hc1. injection Hc1 as <-.
      apply channel_step_ok; [exact Hv|by apply (Hch _ _ Hcb)].
    + rewrite Hother in Hc1 by done. by apply (Hch _ _ Hc1).
Qed.

Lemma reachable_btn_ok m : reachable m → btn_ok (btn (st m)).
Proof.
  apply (reachable_inv (λ m, btn_ok (btn (st m)))).
  - intros flags m0 Hb.
    destruct (begin_spec flags) as (s & Hs & _ & _ & _ & _ & _ & Hbtn & _).
    unfold boot in Hb. rewrite Hs in Hb. injection Hb as <-. simpl.
    rewrite Hbtn. split_and!; simpl.
    + intros ch c (Ht & Hn & Hd & Hw)%channel_of_Some. simpl in *.
      assert (∀ v, aget (replicate 5 0) ch = Some v → v = 0) as Hz.
      { intros v [_ Hv]%aget_Some. by apply lookup_replicate_1 in Hv as [-> _]. }
      apply Hz in Ht, Hn, Hd, Hw. unfold channel_ok, is_bit. lia.
    + repeat constructor; by left.
    + repeat constructor; by left.
  - intros e m0 m' out Hm0 Hok Hstep.
    by apply (step_btn_ok e m0 m' out (reachable_wf _ Hm0)).
Qed.

(** X8 -- the button cells: in every reachable state the five cells of the
    snapshot arrays, of the debounced states, of the went-down flags and of
    the true states hold 0 or 1, so [getButton] and [getButtonDown] return
    0 or 1 whenever the index is in range; the debounce counters stay in
    0..3, the button index in 0..4 and the row cursor in 0..7. *)
Theorem button_values m :
  reachable m →
  (∀ c v, AberLED.getButton c (st m) = Some v → v = 0 ∨ v = 1) ∧
  (∀ c v, AberLED.getButtonDown c (st m) = Some v → v = 0 ∨ v = 1) ∧
  (∀ ch v, aget (debouncedButtonStates (btn (st m))) ch = Some v →
           v = 0 ∨ v = 1) ∧
  (∀ ch v, aget (buttonWentDown (btn (st m))) ch = Some v → v = 0 ∨ v = 1) ∧
  (∀ ch v, aget (trueButtonStates (btn (st m))) ch = Some v →
           v = 0 ∨ v = 1) ∧
  (∀ ch v, aget (buttonDebounceCounters (btn (st m))) ch = Some v →
           0 <= v <= 3) ∧
  0 <= button (btn (st m)) < 5 ∧
  0 <= refrow (st m) < 8.
Proof.
  intros Hm. pose proof (reachable_wf _ Hm) as Hwf.
  pose proof (reachable_btn_ok _ Hm) as (Hch & Hbs & Hwl).
  pose proof Hwf as (_ & Hb & _ & _ & Hr).
  pose proof Hb as (L1 & L2 & L3 & L4 & L5 & L6 & Hi).
  assert (∀ ch, (∃ v, aget (debouncedButtonStates (btn (st m))) ch = Some v)
                ∨ (∃ v, aget (buttonWentDown (btn (st m))) ch = Some v)
                ∨ (∃ v, aget (trueButtonStates (btn (st m))) ch = Some v)
                ∨ (∃ v, aget (buttonDebounceCounters (btn (st m))) ch = Some v)
                → ∃ c, channel_of (btn (st m)) ch = Some c ∧ channel_ok c)
    as Hcell.
  { intros ch Hsome.
    assert (0 <= ch < 5) as Hrange
      by (destruct Hsome as [[v Hv]|[[v Hv]|[[v Hv]|[v Hv]]]];
          apply aget_Some_range in Hv; lia).
    destruct (channel_of_total _ ch Hb Hrange) as [c Hc]. eauto. }
  split_and!; try done; try lia.
  - intros c v Hv. by apply (channels_of_array is_bit _ _ _ Hbs Hv).
  - intros c v Hv. by apply (channels_of_array is_bit _ _ _ Hwl Hv).
  - intros ch v Hv. destruct (Hcell ch) as (c & Hc & _ & _ & Hok & _); [eauto|].
    apply channel_of_Some in Hc as (_ & _ & Hd & _).
    assert (v = ch_debounced c) as -> by congruence. exact Hok.
  - intros ch v Hv.
    destruct (Hcell ch) as (c & Hc & _ & _ & _ & Hok); [eauto 6|].
    apply channel_of_Some in Hc as (_ & _ & _ & Hd).
    assert (v = ch_wentDown c) as -> by congruence. exact Hok.
  - intros ch v Hv.
    destruct (Hcell ch) as (c & Hc & Hok & _); [eauto 6|].
    apply channel_of_Some in Hc as (Hd & _).
    assert (v = ch_true c) as -> by congruence. exact Hok.
  - intros ch v Hv.
    destruct (Hcell ch) as (c & Hc & _ & Hok & _); [eauto 8|].
    apply channel_of_Some in Hc as (_ & Hd & _).
    assert (v = ch_counter c) as -> by congruence. exact Hok.
Qed.

Lemma button_values_witness :
  (∀ c v, AberLED.getButton c (st bounced) = Some v → v = 0 ∨ v = 1) ∧
  (∀ c v, AberLED.getButtonDown c (st bounced) = Some v → v = 0 ∨ v = 1) ∧
  (∀ ch v, aget (debouncedButtonStates (btn (st bounced))) ch = Some v →
           v = 0 ∨ v = 1) ∧
  (∀ ch v, aget (buttonWentDown (btn (st bounced))) ch = Some v →
           v = 0 ∨ v = 1) ∧
  (∀ ch v, aget (trueButtonStates (btn (st bounced))) ch = Some v →
           v = 0 ∨ v = 1) ∧
  (∀ ch v, aget (buttonDebounceCounters (btn (st bounced))) ch = Some v →
           0 <= v <= 3) ∧
  0 <= button (btn (st bounced)) < 5 ∧
  0 <= refrow (st bounced) < 8.
Proof.
  apply (button_values bounced).
  at_bounced.
Defined.


(** ** The debouncer, whatever the pins read *)

Lemma samplings_cons ch e evs m :
  samplings ch (e :: evs) m =
  match step e m with
  | Some (m', _) =>
      ((if samples_channel ch e m then 1 else 0) + samplings ch evs m')%nat
  | None => 0%nat
  end.
Proof. reflexivity. Qed.

Lemma no_commit_before_four ch evs : ∀ m m' out c,
  wf (st m) → btn_ok (btn (st m)) → 0 <= ch < 5 →
  channel_of (btn (st m)) ch = Some c →
  run evs m = Some (m', out) →
  (samplings ch evs m + Z.to_nat (ch_counter c) < 4)%nat →
  ∃ c', channel_of (btn (st m')) ch = Some c' ∧
        ch_debounced c' = ch_debounced c.
Proof.
  induction evs as [|e evs IH]; intros m m' out c Hwf Hok Hr Hc.
  - simpl. intros [= <- _] _. eauto.
  - rewrite run_cons, samplings_cons.
    destruct (step e m) as [[m1 o1]|] eqn:E; simpl; [|done].
    destruct (run evs m1) as [[m2 o2]|] eqn:E2; simpl; [|done].
    intros [= <- _] Hn.
    pose proof (step_wf _ _ _ _ Hwf E) as Hwf1.
    pose proof (step_btn_ok _ _ _ _ Hwf Hok E) as Hok1.
    destruct (step_channel _ _ _ _ _ _ Hwf Hr E Hc) as (c1 & Hc1 & Hs).
    destruct Hok as (Hch & _). destruct (Hch _ _ Hc) as (_ & Hk & _).
    destruct (samples_channel ch e m).
    + destruct Hs as (v & _ & ->).
      assert (ch_debounced (channel_step v c) = ch_debounced c ∧
              (Z.to_nat (ch_counter (channel_step v c))
               <= S (Z.to_nat (ch_counter c)))%nat) as (Hd & Hle).
      { unfold channel_step. destruct (negb (v =? ch_true c)); simpl.
        - split; [done|lia].
        - replace (u8 (ch_counter c + 1)) with (ch_counter c + 1)
            by (unfold u8; rewrite Z.mod_small; lia).
          destruct (Z.eqb_spec (ch_counter c + 1) 4); simpl; [lia|].
          split; [done|lia]. }
      destruct (IH m1 m2 o2 _ Hwf1 Hok1 Hr Hc1 E2) as (c' & Hc' & Hd');
        [lia|].
      exists c'. split; [done|congruence].
    + destruct Hs as (_ & Hk1 & Hd).
      destruct (IH m1 m2 o2 _ Hwf1 Hok1 Hr Hc1 E2) as (c' & Hc' & Hd');
        [rewrite Hk1; lia|].
      exists c'. split; [done|congruence].
Qed.

(** X9 -- no early commit: if the debounce counter of a button stands at
    [k], the committed state of that button cannot change before the
    interrupt has sampled the button [4 - k] more times, whatever the pins
    read and whatever the application calls in between. *)
Theorem no_early_commit ch evs m m' out c :
  reachable m → 0 <= ch < 5 →
  channel_of (btn (st m)) ch = Some c →
  run evs m = Some (m', out) →
  (samplings ch evs m + Z.to_nat (ch_counter c) < 4)%nat →
  debounced ch m' = debounced ch m.
Proof.
  intros Hm Hr Hc Hrun Hn.
  destruct (no_commit_before_four ch evs m m' out c) as (c' & Hc' & Hd);
    try done.
  - by apply reachable_wf.
  - by apply reachable_btn_ok.
  - rewrite (channel_of_debounced _ _ _ Hc), (channel_of_debounced _ _ _ Hc').
    by rewrite Hd.
Qed.

Lemma no_early_commit_witness :
  debounced 0 released = debounced 0 bounced.
Proof.
  apply (no_early_commit 0 [Tick 255 255] bounced released
           [Scan BufB 5 0] (Channel 1 0 0 1)).
  - at_bounced.
  - lia.
  - reflexivity.
  - reflexivity.
  - vm_compute. lia.
Defined.

(** X10 -- where a press comes from: the went-down flag of a button rises
    from 0 to 1 only in a firing of the interrupt that samples this very
    button, reads it pressed, and had read it released the time before. *)
Theorem press_origin e m m' out ch :
  reachable m → step e m = Some (m', out) →
  aget (buttonWentDown (btn (st m))) ch = Some 0 →
  aget (buttonWentDown (btn (st m'))) ch = Some 1 →
  samples_channel ch e m = true ∧ tick_sample e m = Some 1 ∧
  aget (trueButtonStates (btn (st m))) ch = Some 0.
Proof.
  intros Hm Hstep H0 H1.
  pose proof (reachable_wf _ Hm) as Hwf.
  pose proof (reachable_btn_ok _ Hm) as (Hch & _).
  pose proof Hwf as (_ & Hb & _).
  assert (0 <= ch < 5) as Hr.
  { apply aget_Some_range in H0.
    destruct Hb as (_ & _ & _ & L & _). lia. }
  pose proof Hstep as
    [(c & -> & _ & Hc & _)
    |[(-> & _ & Hst & _)|(p & q & -> & _ & _)]]%step_inv.
  - assert (c = CSwap ∨ c ≠ CSwap) as [->|Hn]
      by (destruct c; auto; right; done).
    + destruct (swap_critical_spec _ Hwf) as (s' & o & Hs & _ & _ & Hb' & _).
      simpl in Hc. rewrite Hs in Hc.
      assert (st m' = s') as E' by congruence.
      rewrite E', Hb' in H1. cbn [buttonWentDown] in H1.
      apply aget_Some in H1 as [_ H1].
      by apply lookup_replicate_1 in H1 as [? _].
    + destruct (do_call_frame _ _ _ _ Hwf Hn Hc)
        as (_ & _ & _ & _ & _ & _ & _ & E4 & _).
      rewrite E4 in H1. congruence.
  - rewrite Hst in H1. congruence.
  - destruct (channel_of_total _ (button (btn (st m))) Hb) as [cb Hcb];
      [apply Hb|].
    destruct (tick_channel _ _ _ _ _ cb Hwf Hstep Hcb)
      as (v & Hsmp & Hv & _ & Hnew & Hother).
    destruct (Z.eq_dec ch (button (btn (st m)))) as [->|Hne].
    + destruct (Hch _ _ Hcb) as (Ht & _).
      apply channel_of_Some in Hnew as (_ & _ & _ & Hw).
      apply channel_of_Some in Hcb as (Htr & _ & _ & Hw0).
      assert (ch_wentDown cb = 0) as Ew by congruence.
      assert (ch_wentDown (channel_step v cb) = 1) as Ew1 by congruence.
      unfold channel_step in Ew1.
      unfold samples_channel. simpl. rewrite Z.eqb_refl.
      destruct (Z.eqb_spec v (ch_true cb)) as [Et|Et]; simpl in Ew1.
      * destruct (u8 (ch_counter cb + 1) =? 4); simpl in Ew1; lia.
      * destruct (Z.eqb_spec v 0) as [Ez|Ez]; simpl in Ew1; [lia|].
        assert (v = 1) as -> by (destruct Hv; [done|done]).
        split_and!; [done|done|].
        rewrite Htr. f_equal. destruct Ht; [done|lia].
    + destruct (channel_of_total _ ch Hb Hr) as [c0 Hc0].
      pose proof Hc0 as Hc1. rewrite <- (Hother ch Hr Hne) in Hc1.
      apply channel_of_Some in Hc0 as (_ & _ & _ & Hw0).
      apply channel_of_Some in Hc1 as (_ & _ & _ & Hw1).
      congruence.
Qed.

Lemma press_origin_witness :
  samples_channel 0 (Tick 0 0) led0 = true ∧
  tick_sample (Tick 0 0) led0 = Some 1 ∧
  aget (trueButtonStates (btn (st led0))) 0 = Some 0.
Proof.
  apply (press_origin (Tick 0 0) led0
           (default led0 (fst <$> step (Tick 0 0) led0)) [Scan BufB 0 0] 0).
  - just_booted AF_LEDDISPLAY led0.
  - vm_compute. reflexivity.
  - reflexivity.
  - vm_compute. reflexivity.
Defined.


(** ** What a call leaves alone *)

Lemma do_call_fields c s s' out :
  wf s → do_call c s = Some (s', out) →
  isTFT s' = isTFT s ∧
  (is_text (Call c) = false → txtBuffer s' = txtBuffer s) ∧
  (c ≠ CSwap → prevTxtBuffer s' = prevTxtBuffer s) ∧
  ((keys s' = keys s ∧ boardRev (btn s') = boardRev (btn s)) ∨
   ∃ rev, c = CSetRevision rev ∧ s' = AberLED.setRevision rev s).
Proof.
  intros Hwf Hc. destruct c as [x y col| | | |str|n| |rev]; simpl in Hc.
  - destruct (AberLED.set x y col s) as [s1|] eqn:E; simpl in Hc; [|done].
    injection Hc as <- _. unfold AberLED.set in E.
    destruct ((x <? 8) && (y <? 8) && (x >=? 0) && (y >=? 0)).
    + destruct (load _ _ _); simpl in E; [|done].
      destruct (store _ _ _ _) as [f1|]; simpl in E; [|done].
      destruct (load _ _ _); simpl in E; [|done].
      destruct (store _ _ _ _) as [f2|]; simpl in E; [|done].
      injection E as <-. split_and!; try done. by left.
    + injection E as <-. split_and!; try done. by left.
  - destruct (clear_spec _ Hwf) as (f' & Hs & _). rewrite Hs in Hc.
    injection Hc as <- _. split_and!; try done. by left.
  - destruct (swap_critical_spec _ Hwf)
      as (s1 & o & Hs & _ & _ & Hb & _ & _ & _ & _ & Ht & Htx & _ & Hk).
    rewrite Hs in Hc. injection Hc as <- _.
    split_and!; try done. left. by rewrite Hb.
  - destruct (clearText_spec _ Hwf) as (t & Hs & _). rewrite Hs in Hc.
    injection Hc as <- _. split_and!; try done. by left.
  - destruct (AberLED.addToText str s) as [s1|] eqn:E; simpl in Hc; [|done].
    injection Hc as <- _.
    destruct (addToText_wf _ _ _ Hwf E) as (t & -> & _).
    split_and!; try done. by left.
  - destruct (AberLED.addToText_int n s) as [s1|] eqn:E; simpl in Hc; [|done].
    injection Hc as <- _.
    destruct (addToText_wf _ _ _ Hwf E) as (t & -> & _).
    split_and!; try done. by left.
  - destruct (interruptRunning s); [done|].
    destruct (refresh_spec _ Hwf) as (o & Hs & _). rewrite Hs in Hc.
    injection Hc as <- _. split_and!; try done. by left.
  - injection Hc as <- _. split_and!; try done. right. by exists rev.
Qed.

(** The key codes are those [setRevision] gives for the board revision. *)
Lemma step_keys e m m' out :
  wf (st m) → step e m = Some (m', out) →
  keys (st m) = keys (AberLED.setRevision (boardRev (btn (st m))) (st m)) →
  keys (st m') = keys (AberLED.setRevision (boardRev (btn (st m'))) (st m')).
Proof.
  intros Hwf Hstep Hk.
  pose proof Hstep as
    [(c & -> & _ & Hc & _)
    |[(-> & _ & Hst & _)|(p & q & -> & _ & Hisr & _)]]%step_inv.
  - destruct (do_call_fields _ _ _ _ Hwf Hc)
      as (_ & _ & _ & [[Ek Er]|(rev & -> & ->)]).
    + rewrite Ek, Hk. simpl. by rewrite Er.
    + reflexivity.
  - by rewrite Hst.
  - destruct (ISR_spec p q _ Hwf)
      as (s' & v & smp & Hs & _ & _ & Ek & _ & _ & _ & _ & _ & _ & _ & _ & _
          & Hdb).
    rewrite Hisr in Hs. injection Hs as <- _.
    destruct Hwf as (_ & Hb & _).
    destruct (debounce_channel smp _ Hb) as (b' & Hdb' & _ & _ & _ & _ & Er & _).
    rewrite Hdb in Hdb'. injection Hdb' as <-.
    rewrite Ek, Hk. simpl. by rewrite Er.
Qed.

Lemma reachable_keys m :
  reachable m →
  keys (st m) = keys (AberLED.setRevision (boardRev (btn (st m))) (st m)).
Proof.
  revert m. apply reachable_inv.
  - intros flags m0 Hb. unfold boot in Hb.
    destruct (AberLED.begin flags power_on) as [s|] eqn:E; simpl in Hb; [|done].
    injection Hb as <-. simpl.
    rewrite (begin_power_on flags) in E. injection E as <-.
    by destruct (Z.land flags AF_NOINTERRUPT =? 0).
  - intros e m m' out Hm Hk Hstep.
    by apply (step_keys e m m' out (reachable_wf _ Hm)).
Qed.

(** X11 -- the key codes: in every reachable state [UP], [DOWN], [LEFT],
    [RIGHT] and [FIRE] are five different values among 1..5, whatever
    revision has been set, so [getButton] and [getButtonDown] stay inside
    their arrays for each of them and return 0 or 1. *)
Theorem key_codes_valid m k :
  reachable m →
  k ∈ [UP (keys (st m)); DOWN (keys (st m)); LEFT (keys (st m));
       RIGHT (keys (st m)); FIRE (keys (st m))] →
  NoDup [UP (keys (st m)); DOWN (keys (st m)); LEFT (keys (st m));
         RIGHT (keys (st m)); FIRE (keys (st m))] ∧
  1 <= k <= 5 ∧
  (∃ v, AberLED.getButton k (st m) = Some v ∧ (v = 0 ∨ v = 1)) ∧
  (∃ v, AberLED.getButtonDown k (st m) = Some v ∧ (v = 0 ∨ v = 1)).
Proof.
  intros Hm Hk. pose proof (reachable_keys _ Hm) as Ek.
  pose proof (reachable_wf _ Hm) as (_ & (L1 & _ & _ & _ & L5 & _) & _).
  pose proof (reachable_btn_ok _ Hm) as (_ & Hbs & Hwl).
  simpl in Ek. rewrite Ek in Hk |- *.
  assert (1 <= k <= 5) as Hr.
  { destruct (boardRev (btn (st m)) =? REV01); simpl in Hk;
      repeat (apply elem_of_cons in Hk as [->|Hk]; [lia|]);
      by apply elem_of_nil in Hk. }
  split_and!; try lia.
  - destruct (boardRev (btn (st m)) =? REV01); simpl;
      apply (bool_decide_unpack _); vm_compute; exact I.
  - unfold AberLED.getButton.
    destruct (lookup_lt_is_Some_2 (buttonStates (btn (st m)))
                (Z.to_nat (k - 1))) as [v Hv]; [lia|].
    exists v. split.
    + apply aget_Some. split; [lia|done].
    + by apply (Forall_lookup_1 _ _ _ _ Hbs Hv).
  - unfold AberLED.getButtonDown.
    destruct (lookup_lt_is_Some_2 (buttonWentDownInLastLoop (btn (st m)))
                (Z.to_nat (k - 1))) as [v Hv]; [lia|].
    exists v. split.
    + apply aget_Some. split; [lia|done].
    + by apply (Forall_lookup_1 _ _ _ _ Hwl Hv).
Qed.

Lemma key_codes_valid_witness :
  NoDup [UP (keys (st bounced)); DOWN (keys (st bounced));
         LEFT (keys (st bounced)); RIGHT (keys (st bounced));
         FIRE (keys (st bounced))] ∧
  1 <= 4 <= 5 ∧
  (∃ v, AberLED.getButton 4 (st bounced) = Some v ∧ (v = 0 ∨ v = 1)) ∧
  (∃ v, AberLED.getButtonDown 4 (st bounced) = Some v ∧ (v = 0 ∨ v = 1)).
Proof.
  apply (key_codes_valid bounced 4).
  - at_bounced.
  - apply (bool_decide_unpack _). vm_compute. exact I.
Defined.

(** X12 -- key codes and pins: under either known board revision the key
    codes name the same inputs.  In every reachable state whose revision is
    [REV00] or [REV01], the interrupt reads bit 0 of [PINC] when it samples
    the button [UP], bit 3 for [DOWN], bit 1 for [LEFT], bit 2 for [RIGHT]
    and bit 1 of [PINB] for [FIRE]. *)
Theorem keys_name_pins m PINC PINB :
  reachable m →
  boardRev (btn (st m)) = REV00 ∨ boardRev (btn (st m)) = REV01 →
  let pin k := AberLED.read_pin (boardRev (btn (st m))) (k - 1) PINC PINB in
  pin (UP (keys (st m))) = Some (Z.land PINC 1) ∧
  pin (DOWN (keys (st m))) = Some (Z.land PINC 8) ∧
  pin (LEFT (keys (st m))) = Some (Z.land PINC 2) ∧
  pin (RIGHT (keys (st m))) = Some (Z.land PINC 4) ∧
  pin (FIRE (keys (st m))) = Some (Z.land PINB 2).
Proof.
  intros Hm Hrev pin. subst pin. rewrite (reachable_keys _ Hm). simpl.
  by destruct Hrev as [-> | ->].
Qed.

Lemma keys_name_pins_witness :
  let pin k := AberLED.read_pin (boardRev (btn (st led0))) (k - 1) 5 2 in
  pin (UP (keys (st led0))) = Some (Z.land 5 1) ∧
  pin (DOWN (keys (st led0))) = Some (Z.land 5 8) ∧
  pin (LEFT (keys (st led0))) = Some (Z.land 5 2) ∧
  pin (RIGHT (keys (st led0))) = Some (Z.land 5 4) ∧
  pin (FIRE (keys (st led0))) = Some (Z.land 2 2).
Proof.
  apply (keys_name_pins led0 5 2).
  - just_booted AF_LEDDISPLAY led0.
  - right. reflexivity.
Defined.


(** ** The text on the TFT *)

Lemma renderText_paint s n p :
  wf_text (prevTxtBuffer s) →
  strlen (txtBuffer s) = Some n → cstring (prevTxtBuffer s) = Some p →
  (n < MAXTEXTLEN)%nat →
  let t := take n (txtBuffer s) in
  ∃ r, AberLED.renderText s =
         Some (with_prevTxtBuffer r s,
               if bool_decide (t = p) then [] else [Paint t]) ∧
       cstring r = Some t ∧
       (strlen r = Some n ∨ r = prevTxtBuffer s).
Proof.
  intros [Lp [k Hk]] Hn Hp Hlt t.
  assert (p = take k (prevTxtBuffer s)) as ->
    by (unfold cstring in Hp; rewrite Hk in Hp; simpl in Hp; congruence).
  unfold AberLED.renderText, cstring. rewrite Hn, Hk. simpl. fold t.
  case_bool_decide as Ht.
  - exists (prevTxtBuffer s). rewrite Hk. simpl.
    split_and!; [by destruct s|congruence|by right].
  - destruct (strcpy_spec (prevTxtBuffer s) (txtBuffer s) n Hn)
      as (r & -> & _ & Sr & Cr); [lia|].
    exists r. simpl. unfold cstring in Cr. split_and!; try done. by left.
Qed.

Lemma swap_critical_paint s n p :
  wf s → strlen (txtBuffer s) = Some n → cstring (prevTxtBuffer s) = Some p →
  let t := take n (txtBuffer s) in
  ∃ s' out, AberLED.swap_critical s = Some (s', out) ∧
    painted out =
      (if isTFT s && negb (bool_decide (t = p)) then [t] else []) ∧
    txtBuffer s' = txtBuffer s ∧
    (isTFT s = true →
       cstring (prevTxtBuffer s') = Some t ∧
       (strlen (prevTxtBuffer s') = Some n ∨
        prevTxtBuffer s' = prevTxtBuffer s)) ∧
    (isTFT s = false → prevTxtBuffer s' = prevTxtBuffer s).
Proof.
  intros Hwf Hn Hp t. pose proof Hwf as (_ & Hb & [Lt _] & Hprev & _).
  pose proof (strlen_Some _ _ Hn) as (Hlt & _).
  unfold AberLED.swap_critical. rewrite (swap_buttons_spec _ Hb). simpl.
  destruct (isTFT s) eqn:Htft; simpl.
  - match goal with |- context [AberLED.renderText ?s1] =>
      destruct (renderText_paint s1 n p) as (r & -> & Cr & Sr);
        [done|done|done|unfold MAXTEXTLEN in *; lia|]
    end.
    do 2 eexists. split; [done|]. simpl. fold t.
    split_and!; try done. by case_bool_decide.
  - do 2 eexists. split; [done|]. by split_and!.
Qed.

Lemma painted_zip_scan p (idx rows : list Z) :
  painted (zip_with (Scan p) idx rows) = [].
Proof.
  revert rows. induction idx as [|i idx IH]; intros [|r rows]; try done.
  apply IH.
Qed.

(** What one step paints, and what it leaves in the two text buffers. *)
Lemma step_painted e m m' out n p :
  wf (st m) → step e m = Some (m', out) →
  strlen (txtBuffer (st m)) = Some n →
  cstring (prevTxtBuffer (st m)) = Some p →
  let t := take n (txtBuffer (st m)) in
  painted out =
    (if is_swap e && isTFT (st m) && negb (bool_decide (t = p))
     then [t] else []) ∧
  isTFT (st m') = isTFT (st m) ∧
  (is_text e = false → txtBuffer (st m') = txtBuffer (st m)) ∧
  (is_swap e = false → prevTxtBuffer (st m') = prevTxtBuffer (st m)) ∧
  (is_swap e = true →
     if isTFT (st m)
     then cstring (prevTxtBuffer (st m')) = Some t ∧
          (strlen (prevTxtBuffer (st m')) = Some n ∨
           prevTxtBuffer (st m') = prevTxtBuffer (st m))
     else prevTxtBuffer (st m') = prevTxtBuffer (st m)).
Proof.
  intros Hwf Hstep Hn Hp t.
  pose proof Hstep as
    [(c & -> & _ & Hc & _)
    |[(-> & _ & Hst & -> & _)|(q & q' & -> & _ & Hisr & _)]]%step_inv.
  - destruct (do_call_fields _ _ _ _ Hwf Hc) as (Htft & Htxt & Hprev & _).
    assert (c = CSwap ∨ c ≠ CSwap) as [->|Hns]
      by (destruct c; auto; right; done).
    + destruct (swap_critical_paint _ n p Hwf Hn Hp)
        as (s' & o & Hs & Hpaint & Ht & Hp1 & Hp0).
      simpl in Hc. rewrite Hs in Hc.
      assert (s' = st m') as -> by congruence.
      assert (o = out) as -> by congruence.
      simpl. split_and!; try done.
      intros _. destruct (isTFT (st m)); auto.
    + assert (is_swap (Call c) = false) as -> by (by destruct c).
      simpl. split_and!; try done; [|by auto].
      assert (c = CRefresh ∨ c ≠ CRefresh) as [->|Hnr]
        by (destruct c; auto; right; done).
      * simpl in Hc. destruct (interruptRunning (st m)); [done|].
        destruct (visible (st m)) as [rows|] eqn:Hv.
        -- rewrite (refresh_scans _ rows Hwf Hv) in Hc.
           assert (out = zip_with (Scan (frontBuffer (fs (st m))))
                           [0; 1; 2; 3; 4; 5; 6; 7] rows) as ->
             by congruence.
           apply painted_zip_scan.
        -- destruct Hwf as ((_ & _ & Hptr) & _). unfold visible in Hv.
           by destruct Hptr as [[_ Hf]|[_ Hf]]; rewrite Hf in Hv.
      * by rewrite (do_call_quiet _ _ _ _ Hc Hns Hnr).
  - rewrite Hst. simpl. by split_and!.
  - destruct (ISR_spec q q' _ Hwf)
      as (s' & v & smp & Hs & _ & _ & _ & _ & _ & _ & Htft & Htxt & Hprev & _).
    rewrite Hisr in Hs.
    assert (s' = st m') as -> by congruence.
    assert (out = [Scan (frontBuffer (fs (st m))) (refrow (st m)) v]) as ->
      by congruence.
    simpl. by split_and!.
Qed.

(** X13 -- what is painted, and when: the only step that repaints the text
    region is a [swap] on a TFT board whose pending text differs from the
    text painted last; it paints the pending text, once.  After a [swap] on
    a TFT board the text painted last is the pending text. *)
Theorem paint_on_change e m m' out n p :
  reachable m → step e m = Some (m', out) →
  strlen (txtBuffer (st m)) = Some n →
  cstring (prevTxtBuffer (st m)) = Some p →
  let t := take n (txtBuffer (st m)) in
  painted out =
    (if is_swap e && isTFT (st m) && negb (bool_decide (t = p))
     then [t] else []) ∧
  (is_swap e = true → isTFT (st m) = true →
   cstring (prevTxtBuffer (st m')) = Some t ∧
   cstring (txtBuffer (st m')) = Some t).
Proof.
  intros Hm Hstep Hn Hp t. pose proof (reachable_wf _ Hm) as Hwf.
  destruct (step_painted e m m' out n p Hwf Hstep Hn Hp)
    as (Hpaint & _ & Htxt & _ & Hswap).
  split; [done|]. intros Hs Htft. specialize (Hswap Hs).
  rewrite Htft in Hswap. split; [apply Hswap|].
  rewrite Htxt by (by destruct e as [[]| |]).
  unfold cstring. by rewrite Hn.
Qed.

Lemma paint_on_change_witness :
  painted [Paint [72; 105]] =
    (if is_swap (Call CSwap) && isTFT (st hello) &&
        negb (bool_decide (take 2 (txtBuffer (st hello)) = []))
     then [take 2 (txtBuffer (st hello))] else []) ∧
  (is_swap (Call CSwap) = true → isTFT (st hello) = true →
   cstring (prevTxtBuffer (st shown)) = Some (take 2 (txtBuffer (st hello))) ∧
   cstring (txtBuffer (st shown)) = Some (take 2 (txtBuffer (st hello)))).
Proof.
  apply (paint_on_change (Call CSwap) hello shown [Paint [72; 105]] 2 []).
  - at_hello.
  - vm_compute. reflexivity.
  - reflexivity.
  - reflexivity.
Defined.

Lemma painted_app (o1 o2 : list output) :
  painted (o1 ++ o2) = painted o1 ++ painted o2.
Proof. apply omap_app. Qed.

(** Once the text painted last is the pending text, nothing is painted
    until the pending text is written again. *)
Lemma run_synced evs : ∀ m m' out,
  wf (st m) →
  (isTFT (st m) = true →
   cstring (prevTxtBuffer (st m)) = cstring (txtBuffer (st m))) →
  forallb (λ e, negb (is_text e)) evs = true →
  run evs m = Some (m', out) →
  painted out = [] ∧
  (isTFT (st m') = true →
   cstring (prevTxtBuffer (st m')) = cstring (txtBuffer (st m'))).
Proof.
  induction evs as [|e evs IH]; intros m m' out Hwf Hsync.
  - simpl. intros _ [= <- <-]. done.
  - rewrite run_cons. intros [He Hevs]%andb_prop.
    apply negb_true_iff in He.
    destruct (step e m) as [[m1 o1]|] eqn:E; simpl; [|done].
    destruct (run evs m1) as [[m2 o2]|] eqn:E2; simpl; [|done].
    intros [= <- <-].
    pose proof Hwf as (_ & _ & [_ [n Hn]] & [_ [k Hk]] & _).
    assert (cstring (prevTxtBuffer (st m)) = Some (take k (prevTxtBuffer (st m))))
      as Hp by (unfold cstring; by rewrite Hk).
    assert (cstring (txtBuffer (st m)) = Some (take n (txtBuffer (st m))))
      as Ht by (unfold cstring; by rewrite Hn).
    destruct (step_painted e m m1 o1 n _ Hwf E Hn Hp)
      as (Hpaint & Htft & Htxt & Hprev & Hswap).
    specialize (Htxt He).
    destruct (IH m1 m2 o2 (step_wf _ _ _ _ Hwf E)) as (Hp2 & Hs2); try done.
    + rewrite Htft, Htxt. intros Hon. specialize (Hsync Hon).
      destruct (is_swap e).
      * specialize (Hswap eq_refl). rewrite Hon in Hswap.
        destruct Hswap as [-> _]. by rewrite Ht.
      * by rewrite Hprev.
    + split; [|done]. rewrite painted_app, Hpaint, Hp2, app_nil_r.
      destruct (is_swap e), (isTFT (st m)) eqn:Hon; try done. simpl.
      rewrite Hp, Ht in Hsync. specialize (Hsync eq_refl).
      rewrite bool_decide_true; [done|congruence].
Qed.

(** X14 -- no needless repaint: when [swap] has been called, the next call
    of [swap] paints no text unless [clearText] or [addToText] was called in
    between; nor does anything between the two calls. *)
Theorem swap_again_paints_nothing evs m m1 o1 m2 o2 m3 o3 :
  reachable m → step (Call CSwap) m = Some (m1, o1) →
  forallb (λ e, negb (is_text e)) evs = true →
  run evs m1 = Some (m2, o2) → step (Call CSwap) m2 = Some (m3, o3) →
  painted o2 = [] ∧ painted o3 = [].
Proof.
  intros Hm H1 Hevs H2 H3. pose proof (reachable_wf _ Hm) as Hwf.
  pose proof Hwf as (_ & _ & [_ [n Hn]] & [_ [k Hk]] & _).
  assert (cstring (prevTxtBuffer (st m)) = Some (take k (prevTxtBuffer (st m))))
    as Hp by (unfold cstring; by rewrite Hk).
  destruct (step_painted _ m m1 o1 n _ Hwf H1 Hn Hp)
    as (_ & Htft & Htxt & _ & Hswap).
  pose proof (step_wf _ _ _ _ Hwf H1) as Hwf1.
  destruct (run_synced evs m1 m2 o2 Hwf1) as (Hp2 & Hs2); try done.
  { rewrite Htft, Htxt by done. intros Hon.
    specialize (Hswap eq_refl). rewrite Hon in Hswap.
    destruct Hswap as [-> _]. unfold cstring. by rewrite Hn. }
  split; [done|].
  pose proof (run_wf _ _ _ _ Hwf1 H2) as Hwf2.
  destruct (run_synced [Call CSwap] m2 m3 o3 Hwf2 Hs2 eq_refl)
    as (Hp3 & _); [|done].
  rewrite run_cons, H3. simpl. by rewrite app_nil_r.
Qed.

Lemma swap_again_paints_nothing_witness :
  painted ([] : list output) = [] ∧ painted ([] : list output) = [].
Proof.
  apply (swap_again_paints_nothing [Call (CSet 1 1 2)] hello shown
           [Paint [72; 105]]
           (default shown (fst <$> step (Call (CSet 1 1 2)) shown)) []
           (default shown
              (fst <$> run [Call (CSet 1 1 2); Call CSwap] shown))).
  - at_hello.
  - vm_compute. reflexivity.
  - reflexivity.
  - vm_compute. reflexivity.
  - vm_compute. reflexivity.
Defined.

Lemma text_call_bound c s s' out n :
  wf s → is_text (Call c) = true → do_call c s = Some (s', out) →
  strlen (txtBuffer s) = Some n → (n <= 30)%nat →
  ∃ n', strlen (txtBuffer s') = Some n' ∧ (n' <= 30)%nat.
Proof.
  intros Hwf Hc Hs Hn Hle.
  assert (∀ str s1, AberLED.addToText str s = Some s1 →
            ∃ n', strlen (txtBuffer s1) = Some n' ∧ (n' <= 30)%nat) as Hadd.
  { intros str s1. unfold AberLED.addToText. rewrite Hn. simpl.
    destruct (isTFT s); [|intros [= <-]; eauto].
    destruct (strlen str) as [k|] eqn:Hk; simpl; [|done].
    destruct (Nat.ltb_spec (n + k + 1) MAXTEXTLEN) as [Hfit|];
      [|intros [= <-]; eauto].
    destruct Hwf as (_ & _ & [Lt _] & _).
    destruct (strcat_spec _ _ _ _ Hn Hk) as (r & -> & _ & Sr & _); [lia|].
    simpl. intros [= <-]. exists (n + k)%nat. split; [done|].
    unfold MAXTEXTLEN in Hfit. lia. }
  destruct c as [| | | |str|k| |]; try done; simpl in Hs.
  - unfold AberLED.clearText in Hs. destruct (isTFT s).
    + destruct (clear_first_wf (txtBuffer s)) as (r & Hr & _ & Sr);
        [apply Hwf|].
      rewrite Hr in Hs. simpl in Hs. injection Hs as <- _.
      exists 0%nat. split; [done|lia].
    + injection Hs as <- _. eauto.
  - destruct (AberLED.addToText str s) as [s1|] eqn:E; simpl in Hs; [|done].
    injection Hs as <- _. by apply (Hadd str).
  - destruct (AberLED.addToText_int k s) as [s1|] eqn:E; simpl in Hs; [|done].
    injection Hs as <- _. by apply (Hadd (print_int k)).
Qed.

(** X15 -- the size of a text: in every reachable state the pending text
    and the text painted last have at most 30 characters, one less than the
    32-byte buffers could hold beside the terminator. *)
Theorem text_bounded m :
  reachable m →
  ∃ n k, strlen (txtBuffer (st m)) = Some n ∧
         strlen (prevTxtBuffer (st m)) = Some k ∧
         (n <= 30)%nat ∧ (k <= 30)%nat.
Proof.
  revert m. apply reachable_inv.
  - intros flags m0 Hb. unfold boot in Hb.
    rewrite (begin_power_on flags) in Hb. injection Hb as <-.
    exists 0%nat, 0%nat. simpl. split_and!; try done; lia.
  - intros e m m' out Hm (n & k & Hn & Hk & Hle & Hle') Hstep.
    pose proof (reachable_wf _ Hm) as Hwf.
    assert (cstring (prevTxtBuffer (st m)) =
              Some (take k (prevTxtBuffer (st m))))
      as Hp by (unfold cstring; by rewrite Hk).
    destruct (step_painted e m m' out n _ Hwf Hstep Hn Hp)
      as (_ & _ & Htxt & Hprev & Hswap).
    assert (∃ n', strlen (txtBuffer (st m')) = Some n' ∧ (n' <= 30)%nat)
      as (n' & Hn' & Hle1).
    { destruct (is_text e) eqn:He.
      - destruct e as [c| |]; try done.
        apply step_inv in Hstep as [(c' & [= <-] & _ & Hc & _)|[[? _]|(? & ? & ? & _)]];
          try done.
        by apply (text_call_bound c (st m) (st m') out n).
      - rewrite Htxt by done. eauto. }
    assert (∃ k', strlen (prevTxtBuffer (st m')) = Some k' ∧ (k' <= 30)%nat)
      as (k' & Hk' & Hle2).
    { destruct (is_swap e) eqn:He.
      - specialize (Hswap eq_refl). destruct (isTFT (st m)).
        + destruct Hswap as [_ [->| ->]]; eauto.
        + rewrite Hswap. eauto.
      - rewrite Hprev by done. eauto. }
    exists n', k'. by split_and!.
Qed.

Lemma text_bounded_witness :
  ∃ n k, strlen (txtBuffer (st hello)) = Some n ∧
         strlen (prevTxtBuffer (st hello)) = Some k ∧
         (n <= 30)%nat ∧ (k <= 30)%nat.
Proof. apply (text_bounded hello). at_hello. Defined.


(** ** The port of the LED board *)

Lemma testbit_u8 z j : 0 <= j < 8 → Z.testbit (u8 z) j = Z.testbit z j.
Proof. intros Hj. unfold u8. apply Z.mod_pow2_bits_low. lia. Qed.

Lemma testbit_port_on mask p j :
  0 <= j < 8 →
  Z.testbit (port_on mask p) j = Z.testbit p j || Z.testbit mask j.
Proof.
  intros Hj. unfold port_on. by rewrite testbit_u8, Z.lor_spec.
Qed.

Lemma testbit_port_off mask p j :
  0 <= j < 8 →
  Z.testbit (port_off mask p) j = Z.testbit p j && negb (Z.testbit mask j).
Proof.
  intros Hj. unfold port_off.
  rewrite testbit_u8, Z.land_spec, Z.lnot_spec by lia. done.
Qed.

Lemma testbit_line c j :
  0 <= c → Z.testbit (Z.shiftl 1 c) j = (c =? j).
Proof. intros Hc. rewrite Z.shiftl_1_l. by apply Z.pow2_bits_eqb. Qed.

Lemma land_line n i :
  0 <= i → negb (Z.land n (Z.shiftl 1 i) =? 0) = Z.testbit n i.
Proof.
  intros Hi. rewrite Z.shiftl_1_l.
  destruct (Z.testbit n i) eqn:E.
  - apply negb_true_iff. apply Z.eqb_neq. intros H0.
    assert (Z.testbit (Z.land n (2 ^ i)) i = true) as H1
      by (by rewrite Z.land_spec, E, Z.pow2_bits_true).
    rewrite H0, Z.bits_0 in H1. done.
  - apply negb_false_iff. apply Z.eqb_eq. apply Z.bits_inj'. intros j Hj.
    rewrite Z.land_spec, Z.bits_0, Z.pow2_bits_eqb by done.
    destruct (Z.eqb_spec i j) as [<-|]; [by rewrite E|apply andb_false_r].
Qed.

Lemma play_app a b p : play (a ++ b) p = play a p ++ play b (final a p).
Proof.
  revert p. induction a as [|f a IH]; intros p; [done|].
  simpl. by rewrite IH.
Qed.

Lemma final_app a b p : final (a ++ b) p = final b (final a p).
Proof. apply fold_left_app. Qed.

Lemma rising_play_app c a b p :
  rising c p (play (a ++ b) p) =
  rising c p (play a p) ++ rising c (final a p) (play b (final a p)).
Proof.
  revert p. induction a as [|f a IH]; intros p; [done|].
  simpl. rewrite IH. by destruct (negb (Z.testbit p c) && Z.testbit (f p) c).
Qed.

Lemma clocked_play_app d c a b p :
  clocked d c p (play (a ++ b) p) =
  clocked d c p (play a p) ++ clocked d c (final a p) (play b (final a p)).
Proof. unfold clocked. by rewrite rising_play_app, map_app. Qed.

(** Updates that leave the line [j] alone. *)
Lemma keeps_play j ops p :
  Forall (λ f, ∀ q, Z.testbit (f q) j = Z.testbit q j) ops →
  Forall (λ v, Z.testbit v j = Z.testbit p j) (play ops p) ∧
  Z.testbit (final ops p) j = Z.testbit p j ∧
  rising j p (play ops p) = [].
Proof.
  intros H. revert p. induction H as [|f ops Hf _ IH]; intros p; [done|].
  simpl. destruct (IH (f p)) as (H1 & H2 & H3).
  rewrite Hf in H1, H2. split_and!.
  - constructor; [apply Hf|]. done.
  - done.
  - rewrite Hf. by destruct (Z.testbit p j).
Qed.

Lemma keeps_on mask j :
  0 <= j < 8 → Z.testbit mask j = false →
  ∀ q, Z.testbit (port_on mask q) j = Z.testbit q j.
Proof. intros Hj Hm q. rewrite testbit_port_on, Hm by done. apply orb_false_r. Qed.

Lemma keeps_off mask j :
  0 <= j < 8 → Z.testbit mask j = false →
  ∀ q, Z.testbit (port_off mask q) j = Z.testbit q j.
Proof. intros Hj Hm q. rewrite testbit_port_off, Hm by done. apply andb_true_r. Qed.

Lemma shift_bit_keeps d c n i j :
  0 <= d → 0 <= c → 0 <= j < 8 → j ≠ d → j ≠ c →
  Forall (λ f, ∀ q, Z.testbit (f q) j = Z.testbit q j)
         (Port.shift_bit d c n i).
Proof.
  intros Hd Hc Hj Hjd Hjc. unfold Port.shift_bit.
  assert (Z.testbit (Z.shiftl 1 d) j = false) as Ed
    by (rewrite testbit_line by done; by apply Z.eqb_neq).
  assert (Z.testbit (Z.shiftl 1 c) j = false) as Ec
    by (rewrite testbit_line by done; by apply Z.eqb_neq).
  repeat constructor; try (by apply keeps_on); try (by apply keeps_off).
  destruct (negb _); [by apply keeps_on|by apply keeps_off].
Qed.

(** One turn of the loop clocks in bit [i] of [n], whatever the port held. *)
Lemma shift_bit_clocked d c n i p :
  0 <= d < 8 → 0 <= c < 8 → d ≠ c → 0 <= i →
  clocked d c p (play (Port.shift_bit d c n i) p) = [Z.testbit n i].
Proof.
  intros Hd Hc Hdc Hi. unfold clocked, Port.shift_bit.
  rewrite land_line by done. simpl.
  assert (Z.testbit (Z.shiftl 1 c) c = true) as Ecc
    by (rewrite testbit_line by lia; apply Z.eqb_refl).
  assert (Z.testbit (Z.shiftl 1 d) d = true) as Edd
    by (rewrite testbit_line by lia; apply Z.eqb_refl).
  assert (Z.testbit (Z.shiftl 1 d) c = false) as Edc
    by (rewrite testbit_line by lia; by apply Z.eqb_neq).
  assert (Z.testbit (Z.shiftl 1 c) d = false) as Ecd
    by (rewrite testbit_line by lia; apply Z.eqb_neq; lia).
  set (p1 := port_off (Z.shiftl 1 c) p).
  assert (Z.testbit p1 c = false) as E1
    by (unfold p1; rewrite testbit_port_off, Ecc by done; apply andb_false_r).
  rewrite E1, andb_false_r.
  set (p2 := (if Z.testbit n i then port_on (Z.shiftl 1 d)
              else port_off (Z.shiftl 1 d)) p1).
  assert (Z.testbit p2 c = false ∧ Z.testbit p2 d = Z.testbit n i)
    as [E2 E2d].
  { unfold p2. destruct (Z.testbit n i).
    - rewrite !testbit_port_on, Edc, Edd, E1 by done. by rewrite orb_true_r.
    - rewrite !testbit_port_off, Edc, Edd, E1 by done.
      by rewrite andb_false_r. }
  rewrite E2. simpl.
  set (p3 := port_on (Z.shiftl 1 c) p2).
  assert (Z.testbit p3 c = true ∧ Z.testbit p3 d = Z.testbit n i)
    as [E3 E3d].
  { unfold p3. rewrite !testbit_port_on, Ecc, Ecd, E2d by done.
    by rewrite orb_true_r, orb_false_r. }
  rewrite E3. simpl. by rewrite E3d.
Qed.

Lemma shift_loop_clocked d c n idx : ∀ p,
  0 <= d < 8 → 0 <= c < 8 → d ≠ c → Forall (λ i, 0 <= i) idx →
  clocked d c p (play (flat_map (Port.shift_bit d c n) idx) p) =
  map (Z.testbit n) idx.
Proof.
  induction idx as [|i idx IH]; intros p Hd Hc Hdc Hidx; [done|].
  apply Forall_cons in Hidx as [Hi Hidx].
  cbn [flat_map map].
  rewrite clocked_play_app, shift_bit_clocked, IH by done. done.
Qed.

Lemma shift_loop_keeps d c n idx j :
  0 <= d → 0 <= c → 0 <= j < 8 → j ≠ d → j ≠ c →
  Forall (λ f, ∀ q, Z.testbit (f q) j = Z.testbit q j)
         (flat_map (Port.shift_bit d c n) idx).
Proof.
  intros Hd Hc Hj Hjd Hjc. induction idx as [|i idx IH]; [constructor|].
  cbn [flat_map]. apply Forall_app. split; [by apply shift_bit_keeps|done].
Qed.

(** The whole of a shift-out: what it clocks in, what it leaves alone and
    how it leaves its own two lines. *)
Lemma shift_out_spec d c n idx p :
  0 <= d < 8 → 0 <= c < 8 → d ≠ c → Forall (λ i, 0 <= i) idx →
  let ops := [port_off (Z.shiftl 1 d)] ++
             flat_map (Port.shift_bit d c n) idx ++
             [port_off (Z.shiftl 1 c)] in
  clocked d c p (play ops p) = map (Z.testbit n) idx ∧
  Z.testbit (final ops p) d = false ∧
  Z.testbit (final ops p) c = false ∧
  Forall (λ f, ∀ q j, 0 <= j < 8 → j ≠ d → j ≠ c →
                      Z.testbit (f q) j = Z.testbit q j) ops.
Proof.
  intros Hd Hc Hdc Hidx ops.
  assert (Z.testbit (Z.shiftl 1 c) c = true) as Ecc
    by (rewrite testbit_line by lia; apply Z.eqb_refl).
  assert (Z.testbit (Z.shiftl 1 d) c = false) as Edc
    by (rewrite testbit_line by lia; by apply Z.eqb_neq).
  assert (Z.testbit (Z.shiftl 1 c) d = false) as Ecd
    by (rewrite testbit_line by lia; apply Z.eqb_neq; lia).
  assert (Z.testbit (Z.shiftl 1 d) d = true) as Edd
    by (rewrite testbit_line by lia; apply Z.eqb_refl).
  split_and!.
  - unfold ops. rewrite clocked_play_app, clocked_play_app.
    rewrite shift_loop_clocked by done.
    unfold clocked. simpl.
    rewrite (keeps_off _ c) by done.
    rewrite (testbit_port_off _ _ c), Ecc by done.
    rewrite !andb_false_r.
    destruct (Z.testbit p c); simpl; by rewrite app_nil_r.
  - unfold ops. rewrite !final_app. simpl.
    rewrite (keeps_off _ d) by done.
    induction idx as [|i idx IH] using rev_ind.
    + simpl. rewrite testbit_port_off, Edd by done. apply andb_false_r.
    + rewrite flat_map_app, final_app. simpl.
      rewrite testbit_port_off, Edd by done. apply andb_false_r.
  - unfold ops. rewrite !final_app. simpl.
    rewrite testbit_port_off, Ecc by done. apply andb_false_r.
  - unfold ops. repeat (apply Forall_app; split).
    + constructor; [|constructor]. intros q j Hj Hjd Hjc.
      apply keeps_off; [done|]. rewrite testbit_line by lia.
      apply Z.eqb_neq. lia.
    + apply Forall_forall. intros f Hf q j Hj Hjd Hjc.
      pose proof (shift_loop_keeps d c n idx j) as Hk.
      rewrite Forall_forall in Hk. apply Hk; try done; lia.
    + constructor; [|constructor]. intros q j Hj Hjd Hjc.
      apply keeps_off; [done|]. rewrite testbit_line by lia.
      apply Z.eqb_neq. lia.
Qed.

(** The bits of the port after updates with constant masks. *)
Lemma play_cons f ops p : play (f :: ops) p = f p :: play ops (f p).
Proof. reflexivity. Qed.

Lemma final_cons f ops p : final (f :: ops) p = final ops (f p).
Proof. reflexivity. Qed.

Lemma rising_cons c p v t :
  rising c p (v :: t) =
  if negb (Z.testbit p c) && Z.testbit v c
  then v :: rising c v t else rising c v t.
Proof. reflexivity. Qed.

Ltac port_bits :=
  repeat (rewrite ?testbit_port_on, ?testbit_port_off by lia);
  repeat match goal with
         | |- context [Z.testbit (Zpos ?m) ?j] =>
             let b := eval vm_compute in (Z.testbit (Zpos m) j) in
             change (Z.testbit (Zpos m) j) with b
         end;
  rewrite ?andb_true_r, ?andb_false_r, ?orb_true_r, ?orb_false_r.

Ltac port_run :=
  rewrite <- ?app_comm_cons, ?app_nil_l;
  repeat rewrite ?play_cons, ?final_cons, ?rising_cons;
  change (play [] ?p) with (@nil Z);
  change (rising ?c ?p []) with (@nil Z);
  change (final [] ?p) with p.

Lemma row_pulse r q :
  Z.testbit q 2 = false → Z.testbit q 4 = false →
  let ops := (if r =? 0 then [port_on (Z.shiftl 1 2)] else []) ++
             [ port_off (Z.lor (Z.shiftl 1 3) (Z.shiftl 1 7));
               port_on (Z.shiftl 1 4);
               port_off (Z.shiftl 1 4);
               port_off (Z.shiftl 1 2) ] in
  clocked 2 4 q (play ops q) = [r =? 0] ∧
  rising 3 q (play ops q) = [] ∧
  rising 7 q (play ops q) = [] ∧
  Z.testbit (final ops q) 2 = false ∧
  Z.testbit (final ops q) 3 = false ∧
  Z.testbit (final ops q) 4 = false ∧
  Z.testbit (final ops q) 7 = false ∧
  ∀ j, j = 0 ∨ j = 1 ∨ j = 5 ∨ j = 6 →
    Forall (λ v, Z.testbit v j = Z.testbit q j) (play ops q) ∧
    Z.testbit (final ops q) j = Z.testbit q j ∧
    rising j q (play ops q) = [].
Proof.
  intros H2 H4 ops. subst ops.
  change (Z.lor (Z.shiftl 1 3) (Z.shiftl 1 7)) with 136.
  change (Z.shiftl 1 4) with 16. change (Z.shiftl 1 2) with 4.
  split_and!.
  - unfold clocked. destruct (r =? 0); port_run;
      port_bits; rewrite ?H2, ?H4; cbn [negb andb orb map];
      port_bits; rewrite ?H2, ?H4; done.
  - destruct (r =? 0); port_run;
      port_bits; by destruct (Z.testbit q 3).
  - destruct (r =? 0); port_run;
      port_bits; by destruct (Z.testbit q 7).
  - destruct (r =? 0); port_run; by port_bits.
  - destruct (r =? 0); port_run; by port_bits.
  - destruct (r =? 0); port_run; by port_bits.
  - destruct (r =? 0); port_run; by port_bits.
  - intros j Hj. apply keeps_play.
    destruct (r =? 0); rewrite <- ?app_comm_cons, ?app_nil_l;
      repeat constructor;
      try (apply keeps_on; [lia|by destruct Hj as [->|[->|[->| ->]]]]);
      try (apply keeps_off; [lia|by destruct Hj as [->|[->|[->| ->]]]]).
Qed.

Lemma keeps_all_play (P : Z → Prop) ops p :
  Forall (λ f, ∀ q j, P j → Z.testbit (f q) j = Z.testbit q j) ops →
  ∀ j, P j →
    Forall (λ v, Z.testbit v j = Z.testbit p j) (play ops p) ∧
    Z.testbit (final ops p) j = Z.testbit p j ∧
    rising j p (play ops p) = [].
Proof.
  intros H j Hj. apply keeps_play.
  eapply Forall_impl; [exact H|]. intros f Hf q. by apply Hf.
Qed.

Lemma msb_first_16 n :
  msb_first 16 n =
  map (Z.testbit n) [15; 14; 13; 12; 11; 10; 9; 8; 7; 6; 5; 4; 3; 2; 1; 0].
Proof. reflexivity. Qed.

Lemma msb_first_8 n :
  msb_first 8 n = map (Z.testbit n) [7; 6; 5; 4; 3; 2; 1; 0].
Proof. reflexivity. Qed.

Lemma fastShiftOutCols_port n p :
  let ops := Port.fastShiftOutCols n in
  clocked 5 6 p (play ops p) = msb_first 16 n ∧
  Z.testbit (final ops p) 5 = false ∧
  Z.testbit (final ops p) 6 = false ∧
  ∀ j, 0 <= j < 8 → j ≠ 5 → j ≠ 6 →
    Forall (λ v, Z.testbit v j = Z.testbit p j) (play ops p) ∧
    Z.testbit (final ops p) j = Z.testbit p j ∧
    rising j p (play ops p) = [].
Proof.
  intros ops.
  destruct (shift_out_spec 5 6 n
              [15; 14; 13; 12; 11; 10; 9; 8; 7; 6; 5; 4; 3; 2; 1; 0] p)
    as (H1 & H2 & H3 & H4); try lia.
  { repeat constructor; lia. }
  rewrite msb_first_16. split_and!; try done.
  intros j Hj H5 H6.
  apply (keeps_all_play (λ j, 0 <= j < 8 ∧ j ≠ 5 ∧ j ≠ 6)); [|done].
  eapply Forall_impl; [exact H4|]. intros f Hf q k (? & ? & ?). by apply Hf.
Qed.

(** X16 -- [fastShiftOutCols(n)]: whatever [PORTD] holds, the sixteen
    rising edges of the column clock (bit 6) find on the column data line
    (bit 5) the bits of [n], bit 15 first.  The routine writes the port 66
    times, never changes another line, never clocks the row register, and
    leaves data and clock low. *)
Theorem shift_out_columns n p :
  let ops := Port.fastShiftOutCols n in
  clocked 5 6 p (play ops p) = msb_first 16 n ∧
  length (play ops p) = 66%nat ∧
  (∀ v j, v ∈ play ops p → 0 <= j < 8 → j ≠ 5 → j ≠ 6 →
          Z.testbit v j = Z.testbit p j) ∧
  clocked 2 4 p (play ops p) = [] ∧
  Z.testbit (final ops p) 5 = false ∧
  Z.testbit (final ops p) 6 = false.
Proof.
  intros ops. destruct (fastShiftOutCols_port n p) as (H1 & H2 & H3 & H4).
  fold ops in H1, H2, H3, H4. split_and!; try done.
  - intros v j Hv Hj H5 H6. destruct (H4 j Hj H5 H6) as (Hall & _).
    rewrite Forall_forall in Hall. by apply Hall.
  - unfold clocked. destruct (H4 4) as (_ & _ & ->); try lia. done.
Qed.

Lemma fastShiftOutRows_port n p :
  let ops := Port.fastShiftOutRows n in
  clocked 2 4 p (play ops p) = msb_first 8 n ∧
  Z.testbit (final ops p) 2 = false ∧
  Z.testbit (final ops p) 4 = false ∧
  ∀ j, 0 <= j < 8 → j ≠ 2 → j ≠ 4 →
    Forall (λ v, Z.testbit v j = Z.testbit p j) (play ops p) ∧
    Z.testbit (final ops p) j = Z.testbit p j ∧
    rising j p (play ops p) = [].
Proof.
  intros ops.
  destruct (shift_out_spec 2 4 n [7; 6; 5; 4; 3; 2; 1; 0] p)
    as (H1 & H2 & H3 & H4); try lia.
  { repeat constructor; lia. }
  rewrite msb_first_8. split_and!; try done.
  intros j Hj H5 H6.
  apply (keeps_all_play (λ j, 0 <= j < 8 ∧ j ≠ 2 ∧ j ≠ 4)); [|done].
  eapply Forall_impl; [exact H4|]. intros f Hf q k (? & ? & ?). by apply Hf.
Qed.

(** X17 -- [fastShiftOutRows(n)]: whatever [PORTD] holds, the eight rising
    edges of the row clock (bit 4) find on the row data line (bit 2) the
    bits of [n], bit 7 first.  The routine writes the port 34 times, never
    changes another line, never clocks the column registers, and leaves
    data and clock low. *)
Theorem shift_out_rows n p :
  let ops := Port.fastShiftOutRows n in
  clocked 2 4 p (play ops p) = msb_first 8 n ∧
  length (play ops p) = 34%nat ∧
  (∀ v j, v ∈ play ops p → 0 <= j < 8 → j ≠ 2 → j ≠ 4 →
          Z.testbit v j = Z.testbit p j) ∧
  clocked 5 6 p (play ops p) = [] ∧
  Z.testbit (final ops p) 2 = false ∧
  Z.testbit (final ops p) 4 = false.
Proof.
  intros ops. destruct (fastShiftOutRows_port n p) as (H1 & H2 & H3 & H4).
  fold ops in H1, H2, H3, H4. split_and!; try done.
  - intros v j Hv Hj H5 H6. destruct (H4 j Hj H5 H6) as (Hall & _).
    rewrite Forall_forall in Hall. by apply Hall.
  - unfold clocked. destruct (H4 6) as (_ & _ & ->); try lia. done.
Qed.

(** The LED branch of [refreshNextRow], from a port whose row data and row
    clock lines are low. *)
Lemma refreshNextRow_port r w p :
  Z.testbit p 2 = false → Z.testbit p 4 = false →
  let ops := Port.refreshNextRow r w in
  clocked 2 4 p (play ops p) = [r =? 0] ∧
  clocked 5 6 p (play ops p) = msb_first 16 (led_columns w) ∧
  rising 3 p (play ops p) = [final ops p] ∧
  rising 7 p (play ops p) = [final ops p] ∧
  last (play ops p) = Some (final ops p) ∧
  (Z.testbit (final ops p) 2 = false ∧ Z.testbit (final ops p) 4 = false ∧
   Z.testbit (final ops p) 5 = false ∧ Z.testbit (final ops p) 6 = false ∧
   Z.testbit (final ops p) 3 = true ∧ Z.testbit (final ops p) 7 = true) ∧
  ∀ j, j = 0 ∨ j = 1 →
    Forall (λ v, Z.testbit v j = Z.testbit p j) (play ops p).
Proof.
  intros H2 H4 ops.
  set (AB := (if r =? 0 then [port_on (Z.shiftl 1 2)] else []) ++
             [ port_off (Z.lor (Z.shiftl 1 3) (Z.shiftl 1 7));
               port_on (Z.shiftl 1 4);
               port_off (Z.shiftl 1 4);
               port_off (Z.shiftl 1 2) ]).
  set (C := Port.fastShiftOutCols (u16 (Z.lnot w))).
  set (D := [port_on (Z.lor (Z.shiftl 1 3) (Z.shiftl 1 7))]).
  assert (ops = AB ++ C ++ D) as ->
    by (unfold ops, Port.refreshNextRow; by rewrite app_assoc).
  destruct (row_pulse r p H2 H4)
    as (R1 & R3 & R7 & F2 & F3 & F4 & F7 & Rk). fold AB in R1, R3, R7, F2, F3, F4, F7, Rk.
  set (q1 := final AB p) in *.
  destruct (fastShiftOutCols_port (u16 (Z.lnot w)) q1) as (C1 & C5 & C6 & Ck).
  fold C in C1, C5, C6, Ck. set (q2 := final C q1) in *.
  destruct (Ck 2) as (_ & K2 & _); try lia.
  destruct (Ck 3) as (_ & K3 & S3); try lia.
  destruct (Ck 4) as (_ & K4 & S4); try lia.
  destruct (Ck 7) as (_ & K7 & S7); try lia.
  assert (final (AB ++ C ++ D) p = port_on 136 q2) as Hfin
    by (by rewrite !final_app).
  rewrite Hfin.
  split_and!.
  - rewrite !clocked_play_app, R1. fold q1. fold q2. unfold clocked.
    rewrite S4. unfold D. port_run. port_bits.
    by rewrite K4, F4.
  - rewrite !clocked_play_app. fold q1. fold q2. rewrite C1. unfold clocked.
    destruct (Rk 6) as (_ & _ & ->); [auto|].
    unfold D. port_run. port_bits. by rewrite C6, app_nil_r.
  - rewrite !rising_play_app, R3. fold q1. fold q2. rewrite S3.
    unfold D. port_run. port_bits. by rewrite K3, F3.
  - rewrite !rising_play_app, R7. fold q1. fold q2. rewrite S7.
    unfold D. port_run. port_bits. by rewrite K7, F7.
  - rewrite !play_app. fold q1. fold q2. unfold D. port_run.
    by rewrite app_assoc, last_snoc.
  - port_bits. by rewrite K2.
  - port_bits. by rewrite K4.
  - by port_bits.
  - by port_bits.
  - by port_bits.
  - by port_bits.
  - intros j Hj. rewrite !play_app. fold q1. fold q2.
    destruct (Rk j) as (A1 & A2 & _); [tauto|].
    destruct (Ck j) as (B1 & B2 & _); [lia..|].
    fold q2 in B2. rewrite A2 in B1, B2.
    repeat (apply Forall_app; split); try done.
    unfold D. port_run. constructor; [|constructor].
    rewrite keeps_on; [done|lia|by destruct Hj as [->| ->]].
Qed.

(** X18 -- one row on the LED board: when the row data and row clock lines
    are low, the port code of [refreshNextRow] for row [refrow] of the
    visible buffer clocks one bit into the row register, a 1 exactly when
    [refrow] is 0, and into the column registers the complement of the
    row's word, bit 15 first.  Both latches rise once, at the last write,
    which leaves the data and clock lines low again; bits 0 and 1 of the
    port are never changed. *)
Theorem scan_row_port m s' out rows p :
  reachable m → isTFT (st m) = false → visible (st m) = Some rows →
  AberLED.refreshNextRow (st m) = Some (s', out) →
  Z.testbit p 2 = false → Z.testbit p 4 = false →
  let tr := play (Port.scans out) p in
  ∃ w v, aget rows (refrow (st m)) = Some w ∧ last tr = Some v ∧
    clocked 2 4 p tr = [refrow (st m) =? 0] ∧
    clocked 5 6 p tr = msb_first 16 (led_columns w) ∧
    rising 3 p tr = [v] ∧ rising 7 p tr = [v] ∧
    Z.testbit v 2 = false ∧ Z.testbit v 4 = false ∧
    Z.testbit v 5 = false ∧ Z.testbit v 6 = false ∧
    (∀ u, u ∈ tr → Z.testbit u 0 = Z.testbit p 0 ∧
                   Z.testbit u 1 = Z.testbit p 1).
Proof.
  intros Hm _ Hrows Hs H2 H4 tr. pose proof (reachable_wf _ Hm) as Hwf.
  destruct (refreshNextRow_spec _ Hwf) as (w & Hw & Hs').
  rewrite Hs in Hs'. injection Hs' as _ ->.
  unfold visible in Hrows. rewrite (load_deref _ _ _ _ Hrows) in Hw.
  subst tr. unfold Port.scans. cbn [flat_map]. rewrite app_nil_r.
  destruct (refreshNextRow_port (refrow (st m)) w p H2 H4)
    as (P1 & P2 & P3 & P7 & Pl & (F2 & F4 & F5 & F6 & _) & Pk).
  exists w, (final (Port.refreshNextRow (refrow (st m)) w) p).
  split_and!; try done.
  intros u Hu. split.
  - destruct (Forall_forall (λ v, Z.testbit v 0 = Z.testbit p 0)
                (play (Port.refreshNextRow (refrow (st m)) w) p)) as [Hf _].
    apply Hf; [apply Pk; by left|done].
  - destruct (Forall_forall (λ v, Z.testbit v 1 = Z.testbit p 1)
                (play (Port.refreshNextRow (refrow (st m)) w) p)) as [Hf _].
    apply Hf; [apply Pk; by right|done].
Qed.

Lemma scan_row_port_witness :
  let tr := play (Port.scans [Scan BufB 0 0]) 3 in
  ∃ w v, aget (replicate 8 0) (refrow (st led0)) = Some w ∧
    last tr = Some v ∧
    clocked 2 4 3 tr = [refrow (st led0) =? 0] ∧
    clocked 5 6 3 tr = msb_first 16 (led_columns w) ∧
    rising 3 3 tr = [v] ∧ rising 7 3 tr = [v] ∧
    Z.testbit v 2 = false ∧ Z.testbit v 4 = false ∧
    Z.testbit v 5 = false ∧ Z.testbit v 6 = false ∧
    (∀ u, u ∈ tr → Z.testbit u 0 = Z.testbit 3 0 ∧
                   Z.testbit u 1 = Z.testbit 3 1).
Proof.
  apply (scan_row_port led0 (with_refrow 1 (st led0)) [Scan BufB 0 0]
           (replicate 8 0) 3).
  - just_booted AF_LEDDISPLAY led0.
  - reflexivity.
  - reflexivity.
  - reflexivity.
  - reflexivity.
  - reflexivity.
Defined.

(** Row after row: each call leaves the port as the next one needs it. *)
Lemma scans_port out : ∀ p,
  Z.testbit p 2 = false → Z.testbit p 4 = false →
  let ops := Port.scans out in
  clocked 2 4 p (play ops p) = map (λ sc, sc.2 =? 0) (scanned out) ∧
  clocked 5 6 p (play ops p) =
    flat_map (λ w, msb_first 16 (led_columns w)) (words out) ∧
  Z.testbit (final ops p) 2 = false ∧ Z.testbit (final ops p) 4 = false.
Proof.
  induction out as [|[f r w|t] out IH]; intros p H2 H4; [done| |].
  - intros ops. subst ops.
    change (Port.scans (Scan f r w :: out))
      with (Port.refreshNextRow r w ++ Port.scans out).
    change (scanned (Scan f r w :: out)) with ((f, r) :: scanned out).
    change (words (Scan f r w :: out)) with (w :: words out).
    destruct (refreshNextRow_port r w p H2 H4)
      as (P1 & P2 & _ & _ & _ & (F2 & F4 & _) & _).
    destruct (IH _ F2 F4) as (I1 & I2 & I3 & I4).
    rewrite !clocked_play_app, !final_app, P1, P2, I1, I2. done.
  - apply (IH p H2 H4).
Qed.

Lemma columns_off p :
  let ops := [port_off (Z.lor (Z.shiftl 1 3) (Z.shiftl 1 7))] ++
             Port.fastShiftOutCols 65535 ++
             [port_on (Z.lor (Z.shiftl 1 3) (Z.shiftl 1 7))] in
  Z.testbit p 2 = false → Z.testbit p 4 = false →
  clocked 2 4 p (play ops p) = [] ∧
  clocked 5 6 p (play ops p) = replicate 16 true ∧
  rising 3 p (play ops p) = [final ops p] ∧
  rising 7 p (play ops p) = [final ops p] ∧
  last (play ops p) = Some (final ops p) ∧
  Z.testbit (final ops p) 2 = false ∧ Z.testbit (final ops p) 4 = false ∧
  Z.testbit (final ops p) 3 = true ∧ Z.testbit (final ops p) 7 = true.
Proof.
  intros ops H2 H4. subst ops.
  change (Z.lor (Z.shiftl 1 3) (Z.shiftl 1 7)) with 136.
  set (q1 := port_off 136 p).
  destruct (fastShiftOutCols_port 65535 q1) as (C1 & C5 & C6 & Ck).
  set (C := Port.fastShiftOutCols 65535) in *.
  set (q2 := final C q1) in *.
  destruct (Ck 2) as (_ & K2 & _); try lia.
  destruct (Ck 3) as (_ & K3 & S3); try lia.
  destruct (Ck 4) as (_ & K4 & S4); try lia.
  destruct (Ck 7) as (_ & K7 & S7); try lia.
  assert (final ([port_off 136] ++ C ++ [port_on 136]) p = port_on 136 q2)
    as Hfin by (by rewrite !final_app).
  rewrite Hfin.
  assert (Z.testbit q1 2 = false ∧ Z.testbit q1 4 = false ∧
          Z.testbit q1 3 = false ∧ Z.testbit q1 7 = false ∧
          Z.testbit q1 6 = Z.testbit p 6) as (F2 & F4 & F3 & F7 & F6).
  { unfold q1. split_and!; port_bits; by rewrite ?H2, ?H4. }
  assert (play [port_off 136] p = [q1]) as Hp1 by done.
  assert (final [port_off 136] p = q1) as Hf1 by done.
  assert (play [port_on 136] q2 = [port_on 136 q2]) as Hp2 by done.
  split_and!.
  - rewrite !clocked_play_app, Hp1, Hf1. fold q2. rewrite Hp2. unfold clocked.
    rewrite S4, !rising_cons. port_bits. fold q1.
    by rewrite F4, K4, F4, !andb_false_r.
  - rewrite !clocked_play_app, Hp1, Hf1. fold q2. rewrite Hp2. rewrite C1.
    unfold clocked. rewrite !rising_cons. fold q1. port_bits.
    rewrite F6, C6, !andb_false_r. by destruct (Z.testbit p 6).
  - rewrite !rising_play_app, Hp1, Hf1. fold q2. rewrite Hp2.
    rewrite S3, !rising_cons. port_bits. fold q1.
    rewrite F3, K3, F3. by destruct (Z.testbit p 3).
  - rewrite !rising_play_app, Hp1, Hf1. fold q2. rewrite Hp2.
    rewrite S7, !rising_cons. port_bits. fold q1.
    rewrite F7, K7, F7. by destruct (Z.testbit p 7).
  - rewrite !play_app, Hp1, Hf1. fold q2. rewrite Hp2.
    by rewrite app_assoc, last_snoc.
  - port_bits. by rewrite K2.
  - port_bits. by rewrite K4.
  - by port_bits.
  - by port_bits.
Qed.

(** X19 -- [refresh()] on the LED board: from a port whose row data and row
    clock lines are low, the row register is given a 1 followed by seven
    0s, so each row is selected in turn; the column registers are given the
    complements of the rows 0 to 7 of the visible buffer, each bit 15 first,
    and at the end sixteen 1s, which switch every column off.  The last
    write raises the latches and leaves data and clock lines low. *)
Theorem refresh_port m s' out rows p :
  reachable m → isTFT (st m) = false → visible (st m) = Some rows →
  AberLED.refresh (st m) = Some (s', out) →
  Z.testbit p 2 = false → Z.testbit p 4 = false →
  let tr := play (Port.refresh out) p in
  clocked 2 4 p tr =
    [true; false; false; false; false; false; false; false] ∧
  clocked 5 6 p tr =
    flat_map (λ w, msb_first 16 (led_columns w)) rows ++ replicate 16 true ∧
  ∃ v, last tr = Some v ∧
       Z.testbit v 3 = true ∧ Z.testbit v 7 = true ∧
       Z.testbit v 2 = false ∧ Z.testbit v 4 = false.
Proof.
  intros Hm _ Hrows Hs H2 H4 tr. pose proof (reachable_wf _ Hm) as Hwf.
  rewrite (refresh_scans _ rows Hwf Hrows) in Hs.
  assert (out = zip_with (Scan (frontBuffer (fs (st m))))
                  [0; 1; 2; 3; 4; 5; 6; 7] rows) as -> by congruence.
  clear Hs.
  assert (length rows = 8%nat) as Hlen.
  { destruct Hwf as ((LA & LB & Hptr) & _). unfold visible in Hrows.
    destruct Hptr as [[_ Hf]|[_ Hf]]; rewrite Hf in Hrows; simpl in Hrows;
      congruence. }
  apply length_8 in Hlen as (a & b & c & d & e & f & g & h & ->).
  subst tr. unfold Port.refresh.
  set (out := zip_with (Scan (frontBuffer (fs (st m))))
                [0; 1; 2; 3; 4; 5; 6; 7] [a; b; c; d; e; f; g; h]).
  destruct (scans_port out p H2 H4) as (S1 & S2 & F2 & F4).
  destruct (columns_off (final (Port.scans out) p) F2 F4)
    as (T1 & T2 & _ & _ & Tl & G2 & G4 & G3 & G7).
  rewrite (clocked_play_app 2 4 (Port.scans out)),
    (clocked_play_app 5 6 (Port.scans out)), S1, S2, T1, T2, app_nil_r.
  split_and!; [reflexivity|reflexivity|].
  rewrite play_app, last_app, Tl. cbn [from_option option_map].
  eexists. split; [reflexivity|]. by split_and!.
Qed.

Lemma refresh_port_witness :
  let tr := play (Port.refresh
                    (zip_with (Scan BufB) [0; 1; 2; 3; 4; 5; 6; 7]
                       (replicate 8 0))) 0 in
  clocked 2 4 0 tr =
    [true; false; false; false; false; false; false; false] ∧
  clocked 5 6 0 tr =
    flat_map (λ w, msb_first 16 (led_columns w)) (replicate 8 0) ++
    replicate 16 true ∧
  ∃ v, last tr = Some v ∧
       Z.testbit v 3 = true ∧ Z.testbit v 7 = true ∧
       Z.testbit v 2 = false ∧ Z.testbit v 4 = false.
Proof.
  apply (refresh_port led0 (with_refrow 0 (st led0))
           (zip_with (Scan BufB) [0; 1; 2; 3; 4; 5; 6; 7] (replicate 8 0))
           (replicate 8 0) 0).
  - just_booted AF_LEDDISPLAY led0.
  - reflexivity.
  - reflexivity.
  - vm_compute. reflexivity.
  - reflexivity.
  - reflexivity.
Defined.



(** ** The TFT board *)

(** X20 -- the colours of a colour map: from three bytes [begin] packs a
    16-bit colour whose top five bits are the top five bits of the red
    byte, whose next six bits are the top six bits of the green byte and
    whose low five bits are the top five bits of the blue byte. *)
Theorem rgb565_fields r g b :
  0 <= r < 256 → 0 <= g < 256 → 0 <= b < 256 →
  let c := TFT.rgb565 r g b in
  0 <= c < 2 ^ 16 ∧
  Z.shiftr c 11 = Z.shiftr r 3 ∧
  Z.land (Z.shiftr c 5) 63 = Z.shiftr g 2 ∧
  Z.land c 31 = Z.shiftr b 3.
Proof.
  intros Hr Hg Hb c.
  assert (0 <= Z.shiftr r 3 < 32) as Hr'
    by (rewrite Z.shiftr_div_pow2 by lia; split;
        [apply Z.div_pos; lia|apply Z.div_lt_upper_bound; lia]).
  assert (0 <= Z.shiftr g 2 < 64) as Hg'
    by (rewrite Z.shiftr_div_pow2 by lia; split;
        [apply Z.div_pos; lia|apply Z.div_lt_upper_bound; lia]).
  assert (0 <= Z.shiftr b 3 < 32) as Hb'
    by (rewrite Z.shiftr_div_pow2 by lia; split;
        [apply Z.div_pos; lia|apply Z.div_lt_upper_bound; lia]).
  assert (c = Z.lor (Z.lor (Z.shiftl (Z.shiftr r 3) 11)
                           (Z.shiftl (Z.shiftr g 2) 5)) (Z.shiftr b 3))
    as ->.
  { unfold c, TFT.rgb565.
    change 31 with (Z.ones 5). change 63 with (Z.ones 6).
    rewrite !Z.land_ones by lia.
    rewrite (Z.mod_small (Z.shiftr r 3)), (Z.mod_small (Z.shiftr g 2)),
      (Z.mod_small (Z.shiftr b 3)) by lia.
    unfold u16.
    rewrite (Z.mod_small (Z.shiftr r 3)), (Z.mod_small (Z.shiftr g 2)),
      (Z.mod_small (Z.shiftr b 3)) by lia.
    rewrite !Z.shiftl_mul_pow2 by lia.
    rewrite !Z.mod_small by lia. done. }
  set (r' := Z.shiftr r 3) in *. set (g' := Z.shiftr g 2) in *.
  set (b' := Z.shiftr b 3) in *.
  assert (∀ i, 0 <= i →
            Z.testbit (Z.lor (Z.lor (Z.shiftl r' 11) (Z.shiftl g' 5)) b') i =
            if i <? 5 then Z.testbit b' i
            else if i <? 11 then Z.testbit g' (i - 5)
            else Z.testbit r' (i - 11)) as Hbits.
  { intros i Hi. rewrite !Z.lor_spec, !Z.shiftl_spec by lia.
    destruct (Z.ltb_spec i 5).
    - rewrite (Z.testbit_neg_r r'), (Z.testbit_neg_r g') by lia. done.
    - rewrite (testbit_small b' 5 i) by lia. rewrite orb_false_r.
      destruct (Z.ltb_spec i 11).
      + rewrite (Z.testbit_neg_r r') by lia. done.
      + rewrite (testbit_small g' 6 (i - 5)) by lia. by rewrite orb_false_r. }
  set (c' := Z.lor (Z.lor (Z.shiftl r' 11) (Z.shiftl g' 5)) b') in *.
  assert (0 <= c') as Hnn
    by (apply Z.lor_nonneg; split; [apply Z.lor_nonneg; split|];
        try apply Z.shiftl_nonneg; lia).
  split_and!.
  - done.
  - destruct (Z.lt_ge_cases c' (2 ^ 16)) as [|Hge]; [done|exfalso].
    assert (0 < c') as Hpos by lia.
    pose proof (Z.bit_log2 _ Hpos) as Hbit.
    assert (16 <= Z.log2 c') as Hlog by (apply Z.log2_le_pow2; lia).
    rewrite Hbits in Hbit by lia.
    destruct (Z.ltb_spec (Z.log2 c') 5); [lia|].
    destruct (Z.ltb_spec (Z.log2 c') 11); [lia|].
    rewrite (testbit_small r' 5) in Hbit by lia. done.
  - apply Z.bits_inj'. intros i Hi.
    rewrite Z.shiftr_spec, Hbits by lia.
    destruct (Z.ltb_spec (i + 11) 5); [lia|].
    destruct (Z.ltb_spec (i + 11) 11); [lia|].
    f_equal. lia.
  - apply Z.bits_inj'. intros i Hi.
    change 63 with (Z.ones 6).
    rewrite Z.land_spec, Z.shiftr_spec, Hbits by lia.
    destruct (Z.ltb_spec (i + 5) 5); [lia|].
    destruct (Z.lt_ge_cases i 6).
    + rewrite Z.ones_spec_low by lia.
      destruct (Z.ltb_spec (i + 5) 11); [|lia].
      rewrite andb_true_r. f_equal. lia.
    + rewrite Z.ones_spec_high by lia.
      rewrite (testbit_small g' 6 i) by lia. apply andb_false_r.
  - apply Z.bits_inj'. intros i Hi.
    change 31 with (Z.ones 5).
    rewrite Z.land_spec, Hbits by lia.
    destruct (Z.ltb_spec i 5).
    + rewrite Z.ones_spec_low by lia. apply andb_true_r.
    + rewrite Z.ones_spec_high by lia.
      rewrite (testbit_small b' 5 i) by lia. apply andb_false_r.
Qed.

Lemma rgb565_fields_witness :
  let c := TFT.rgb565 255 128 0 in
  0 <= c < 2 ^ 16 ∧
  Z.shiftr c 11 = Z.shiftr 255 3 ∧
  Z.land (Z.shiftr c 5) 63 = Z.shiftr 128 2 ∧
  Z.land c 31 = Z.shiftr 0 3.
Proof. apply (rgb565_fields 255 128 0); lia. Defined.

(** X21 -- the size of a colour map: the loop of [begin] reads twelve bytes
    through [colourMap], three for each of the four colours; with a map of
    twelve bytes or more it fills the colour table with the four packed
    colours, with a shorter one it reads beyond the end of the map. *)
Theorem colour_map_bytes cm cols :
  length cols = 4%nat →
  TFT.colour_map cm cols =
  if (12 <=? length cm)%nat
  then Some (map (λ i, TFT.rgb565 (default 0 (cm !! (3 * i)%nat))
                         (default 0 (cm !! (3 * i + 1)%nat))
                         (default 0 (cm !! (3 * i + 2)%nat)))
               [0; 1; 2; 3]%nat)
  else None.
Proof.
  intros Hcols.
  destruct cols as [|c0 [|c1 [|c2 [|c3 [|? ?]]]]]; try discriminate Hcols.
  do 12 (destruct cm as [|? cm]; [reflexivity|]).
  reflexivity.
Qed.

Lemma colour_map_bytes_witness :
  TFT.colour_map [0; 0; 0; 0; 255; 0; 255; 0; 0] [0; 2016; 63488; 65504] =
  if (12 <=? length [0; 0; 0; 0; 255; 0; 255; 0; 0])%nat
  then Some (map (λ i, TFT.rgb565
                         (default 0 ([0; 0; 0; 0; 255; 0; 255; 0; 0]
                                       !! (3 * i)%nat))
                         (default 0 ([0; 0; 0; 0; 255; 0; 255; 0; 0]
                                       !! (3 * i + 1)%nat))
                         (default 0 ([0; 0; 0; 0; 255; 0; 255; 0; 0]
                                       !! (3 * i + 2)%nat)))
               [0; 1; 2; 3]%nat)
  else None.
Proof.
  apply (colour_map_bytes [0; 0; 0; 0; 255; 0; 255; 0; 0]
           [0; 2016; 63488; 65504]).
  reflexivity.
Defined.

(** X22 -- one row on the TFT: for the row under the cursor the TFT branch
    of [refreshNextRow] fills eight squares and never reads outside the
    colour table, whatever the row's word.  Square [x] has the colour the
    table gives for the pixel [x] of the word, and lies inside the cell
    [x] of the row on the 16-pixel grid, so inside the 128 by 128 area and
    clear of the text line at 150. *)
Theorem tft_row m cols rows :
  reachable m → isTFT (st m) = true → length cols = 4%nat →
  visible (st m) = Some rows →
  ∃ w rs,
    aget rows (refrow (st m)) = Some w ∧
    TFT.refreshNextRow cols (refrow (st m)) w = Some rs ∧
    length rs = 8%nat ∧
    ∀ x, 0 <= x < 8 →
      ∃ r, rs !! Z.to_nat x = Some r ∧
           aget cols (pixel w x) = Some (rcol r) ∧
           16 * x < rx r ∧ rx r + rw r < 16 * (x + 1) ∧
           16 * refrow (st m) < ry r ∧
           ry r + rh r < 16 * (refrow (st m) + 1) ∧
           0 <= rx r ∧ rx r + rw r <= 128 ∧
           0 <= ry r ∧ ry r + rh r <= 128.
Proof.
  intros Hm _ Hcols Hrows. pose proof (reachable_wf _ Hm) as Hwf.
  pose proof Hwf as (_ & _ & _ & _ & Hr).
  destruct (refreshNextRow_spec _ Hwf) as (w & Hw & _).
  unfold visible in Hrows. rewrite (load_deref _ _ _ _ Hrows) in Hw.
  exists w.
  assert (∀ x, ∃ c, aget cols (pixel w x) = Some c) as Hc.
  { intros x. pose proof (pixel_range w x) as Hp.
    destruct (lookup_lt_is_Some_2 cols (Z.to_nat (pixel w x))) as [c Hc];
      [lia|].
    exists c. apply aget_Some. split; [lia|done]. }
  destruct (mapM_is_Some_2
              (λ x, c ← aget cols (pixel w x);
                    Some (Rect (16 * x + 2) (16 * refrow (st m) + 2) 12 12 c))
              [0; 1; 2; 3; 4; 5; 6; 7]) as [rs Hrs].
  { apply Forall_forall. intros x _. unfold compose. cbv beta.
    destruct (Hc x) as [c ->]. by eexists. }
  exists rs. unfold TFT.refreshNextRow. split_and!; try done.
  - apply mapM_Some_1 in Hrs. by rewrite <- (Forall2_length _ _ _ Hrs).
  - intros x Hx. apply mapM_Some_1 in Hrs.
    destruct (Forall2_lookup_l _ _ _ (Z.to_nat x) x Hrs) as (r & Hr1 & Hr2).
    { apply index_8 in Hx as [->|[->|[->|[->|[->|[->|[->| ->]]]]]]]; done. }
    exists r. destruct (Hc x) as [c Hcx]. rewrite Hcx in Hr2.
    simpl in Hr2. injection Hr2 as <-. simpl.
    split_and!; try done; lia.
Qed.

Lemma tft_row_witness :
  ∃ w rs,
    aget (replicate 8 0) (refrow (st tft0)) = Some w ∧
    TFT.refreshNextRow [0; 2016; 63488; 65504] (refrow (st tft0)) w =
      Some rs ∧
    length rs = 8%nat ∧
    ∀ x, 0 <= x < 8 →
      ∃ r, rs !! Z.to_nat x = Some r ∧
           aget [0; 2016; 63488; 65504] (pixel w x) = Some (rcol r) ∧
           16 * x < rx r ∧ rx r + rw r < 16 * (x + 1) ∧
           16 * refrow (st tft0) < ry r ∧
           ry r + rh r < 16 * (refrow (st tft0) + 1) ∧
           0 <= rx r ∧ rx r + rw r <= 128 ∧
           0 <= ry r ∧ ry r + rh r <= 128.
Proof.
  apply (tft_row tft0 [0; 2016; 63488; 65504] (replicate 8 0)).
  - just_booted (AF_TFTDISPLAY + AF_NOINTERRUPT) tft0.
  - reflexivity.
  - reflexivity.
  - reflexivity.
Defined.

(** ** More on [swap] and [begin] *)

(** X23 -- pointers, not data: [swap] leaves the contents of both buffers
    as they are and exchanges only the two pointers, so the rows drawn
    become the visible rows and the rows shown before become the back
    buffer; a second [swap] puts the frame store back as it was. *)
Theorem swap_exchanges_pointers m :
  reachable m →
  ∃ s1 o1 s2 o2,
    AberLED.swap_critical (st m) = Some (s1, o1) ∧
    AberLED.swap_critical s1 = Some (s2, o2) ∧
    bufferA (fs s1) = bufferA (fs (st m)) ∧
    bufferB (fs s1) = bufferB (fs (st m)) ∧
    visible s1 = deref (AberLED.getBuffer (st m)) (fs (st m)) ∧
    deref (AberLED.getBuffer s1) (fs s1) = visible (st m) ∧
    fs s2 = fs (st m).
Proof.
  intros Hm. pose proof (reachable_wf _ Hm) as Hwf.
  destruct (swap_critical_spec _ Hwf)
    as (s1 & o1 & Hs1 & Hwf1 & _ & _ & _ & _ & Hfs1 & _).
  destruct (swap_critical_spec _ Hwf1)
    as (s2 & o2 & Hs2 & _ & _ & _ & _ & _ & Hfs2 & _).
  exists s1, o1, s2, o2. unfold visible, AberLED.getBuffer.
  rewrite Hfs2, Hfs1. simpl.
  destruct Hwf as ((_ & _ & Hptr) & _).
  split_and!; try done.
  by destruct (fs (st m)).
Qed.

Lemma swap_exchanges_pointers_witness :
  ∃ s1 o1 s2 o2,
    AberLED.swap_critical (st led0) = Some (s1, o1) ∧
    AberLED.swap_critical s1 = Some (s2, o2) ∧
    bufferA (fs s1) = bufferA (fs (st led0)) ∧
    bufferB (fs s1) = bufferB (fs (st led0)) ∧
    visible s1 = deref (AberLED.getBuffer (st led0)) (fs (st led0)) ∧
    deref (AberLED.getBuffer s1) (fs s1) = visible (st led0) ∧
    fs s2 = fs (st led0).
Proof.
  apply (swap_exchanges_pointers led0). just_booted AF_LEDDISPLAY led0.
Defined.

Lemma land_lor_flag flags a b :
  Z.land a b = 0 → Z.land (Z.lor flags a) b = Z.land flags b.
Proof.
  intros H. by rewrite Z.land_lor_distr_l, H, Z.lor_0_r.
Qed.

(** X24 -- the flags of [begin]: from power-on [begin] always returns; the
    display is the TFT exactly when bit 1 of the flags ([AF_TFTDISPLAY]) is
    set and the interrupt runs exactly when bit 2 ([AF_NOINTERRUPT]) is
    clear.  [AF_LEDDISPLAY] is never looked at: with or without it the
    result is the same. *)
Theorem begin_flags flags :
  ∃ m, boot flags = Some m ∧
       boot (Z.lor flags AF_LEDDISPLAY) = Some m ∧
       isTFT (st m) = Z.testbit flags 1 ∧
       interruptRunning (st m) = negb (Z.testbit flags 2) ∧
       app m = Idle ∧
       AberLED.getBuffer (st m) = BufA ∧
       visible (st m) = Some (replicate 8 0) ∧
       (∀ y, 0 <= y < 8 → back_row y (st m) = Some 0).
Proof.
  unfold boot. rewrite !begin_power_on.
  rewrite (land_lor_flag flags AF_LEDDISPLAY AF_NOINTERRUPT) by done.
  rewrite (land_lor_flag flags AF_LEDDISPLAY AF_TFTDISPLAY) by done.
  eexists. split; [reflexivity|]. split; [reflexivity|].
  cbn [st app isTFT interruptRunning].
  rewrite <- (land_line flags 1), <- (land_line flags 2) by lia.
  split_and!; try done.
  - by rewrite negb_involutive.
  - intros y Hy. unfold back_row, AberLED.getBuffer, load. simpl.
    apply index_8 in Hy as [->|[->|[->|[->|[->|[->|[->| ->]]]]]]]; done.
Qed.



